(** * simplecvm: the assembler (sasm.c) and the virtual machine (svm.c)

    A shallow embedding of the two programs of the repository and of the
    header they share (svm.h), followed by the properties of the
    specification that are settled against it.

    Conventions of the embedding.
    - [uint8_t] and [uint16_t] values are integers of [Z]; every C
      conversion to one of these types is written out as a reduction
      modulo 256 or 65536.
    - The global array [memory] is a function from indices to cells
      together with explicit bounds tests: an access the C code makes
      without testing the index, and that falls outside the array, has no
      defined behaviour in C and is reported as [Undef].
    - [exit(1)] after a diagnostic on stderr is the result [Exit d].
    - C strings are values of [string]; the [sscanf] formats used by the
      assembler are written as scanning functions on them.
    - [atoi] is defined by C only on numbers that [int] holds, and the
      array [lines] of the assembler has 1024 entries: a call of [atoi]
      on another number, and a line read once the array is full, are
      reported as [Undef] too. *)

From Stdlib Require Import ZArith List String Ascii Bool Lia.
From Stdlib Require Import DecimalString DecimalZ.
Import ListNotations.

Local Open Scope Z_scope.

(* ================================================================= *)
(** ** svm.h *)

Definition MEMORY_SIZE : Z := 32768.
Definition MAX_LINE_LENGTH : Z := 100.

Definition HALT : Z := 0x31.
Definition LOAD : Z := 0x60.
Definition LOADI : Z := 0x61.
Definition STORE : Z := 0x62.
Definition STOREI : Z := 0x63.
Definition JMP : Z := 0x64.
Definition JMPZ : Z := 0x65.
Definition JMPN : Z := 0x66.
Definition JMPO : Z := 0x67.
Definition ADD : Z := 0x68.
Definition ADDR : Z := 0x69.
Definition SUB : Z := 0x6a.
Definition SUBR : Z := 0x6b.
Definition OUT : Z := 0x6c.
Definition OUTC : Z := 0x6d.
Definition OUTR : Z := 0x6e.
Definition OUTRC : Z := 0x6f.
Definition OUTI : Z := 0x70.
Definition OUTIC : Z := 0x71.

Definition A1 : Z := 3.
Definition A2 : Z := 2.
Definition R1 : Z := 1.
Definition R2 : Z := 0.

(* ================================================================= *)
(** ** Machine integers *)

Definition uint8 (x : Z) : Z := x mod 256.
Definition uint16 (x : Z) : Z := x mod 65536.

(** [(int16_t) x] for a 16-bit [x]. *)
Definition int16 (x : Z) : Z :=
  let u := uint16 x in if u <? 32768 then u else u - 65536.

(** Bit 15 of a value, the sign bit of a 16-bit integer. *)
Definition sign_bit (x : Z) : bool := Z.testbit x 15.

(** A C truth value stored in a [uint8_t]. *)
Definition c_bool (b : bool) : Z := if b then 1 else 0.

(* ================================================================= *)
(** ** svm.c: the virtual machine *)

(** The CPU structure.  The flags [Z], [N] and [O] of the source are the
    fields [flag_Z], [flag_N] and [flag_O]. *)
Record CPU : Type := mkCPU {
  REG1 : Z; REG2 : Z;
  ADDR1 : Z; ADDR2 : Z;
  PC : Z;
  flag_Z : Z; flag_N : Z; flag_O : Z
}.

(** [uint8_t memory[MEMORY_SIZE]]. *)
Definition mem : Type := Z -> Z.

Definition mem_zero : mem := fun _ => 0.

Definition mem_set (m : mem) (i v : Z) : mem :=
  fun j => if j =? i then v else m j.

(** What the machine has written on stdout: [printf("%d", v)] and
    [printf("%c", c)]. *)
Inductive output : Type :=
| PrintInt (v : Z)
| PrintChar (c : Z).

(** The two globals of svm.c and the stream written so far. *)
Record machine : Type := mkMachine {
  cpu : CPU;
  memory : mem;
  stdout : list output
}.

(** The diagnostics of svm.c, each followed in the source by [exit(1)]. *)
Inductive diagnostic : Type :=
| Memory_access_out_of_bounds (address : Z)
| Invalid_address_register_in_LOADI (reg2 : Z)
| Invalid_destination_register_in_LOADI (reg1 : Z)
| Invalid_address_register_in_STOREI (reg2 : Z)
| Invalid_source_register_in_STOREI (reg1 : Z)
| Jumped_to_invalid_memory_address (pc : Z)
| Jump_to_invalid_memory (immediate : Z)
| Unknown_opcode (opcode start_PC : Z).

(** What C leaves undefined and the source does not guard: an access to
    [memory] at an index outside the array, made without a test of the
    index; the use of a buffer that no [sscanf] has filled; a call of
    [atoi] on a number that [int] cannot hold; a line stored by [fgets]
    beyond the last entry of the array [lines] of [main]. *)
Inductive undefined : Type :=
| Read_outside (index : Z)
| Write_outside (index : Z)
| Uninitialised_buffer
| Not_an_int (value : Z)
| Line_outside (line_count : nat).

(** How a computation of either program ends: normally, by [exit(1)]
    after the diagnostic [d], or in undefined behaviour. *)
Inductive result (E A : Type) : Type :=
| Ok (a : A)
| Exit (d : E)
| Undef (u : undefined).

Arguments Ok {E A} a.
Arguments Exit {E A} d.
Arguments Undef {E A} u.

Definition bind {E A B : Type} (r : result E A) (k : A -> result E B)
  : result E B :=
  match r with
  | Ok a => k a
  | Exit d => Exit d
  | Undef u => Undef u
  end.

Notation "x <- r ;; k" := (bind r (fun x => k))
  (at level 61, r at next level, right associativity).
Notation "' p <- r ;; k" := (bind r (fun p => k))
  (at level 61, p strict pattern, r at next level, right associativity).

Definition vm (A : Type) : Type := result diagnostic A.

Definition in_memory (i : Z) : bool := (0 <=? i) && (i <? MEMORY_SIZE).

(** [memory[i]] as an rvalue, no test in the source. *)
Definition mem_read (m : mem) (i : Z) : vm Z :=
  if in_memory i then Ok (m i) else Undef (Read_outside i).

(** [memory[i] = v], no test in the source. *)
Definition mem_write (m : mem) (i v : Z) : vm mem :=
  if in_memory i then Ok (mem_set m i (uint8 v)) else Undef (Write_outside i).

Definition fetchImmediate (m : mem) (address : Z) : vm Z :=
  if address + 1 >=? MEMORY_SIZE then Exit (Memory_access_out_of_bounds address)
  else Ok (uint16 (Z.lor (Z.shiftl (m address) 8) (m (address + 1)))).

Definition set_PC (c : CPU) (v : Z) : CPU :=
  mkCPU (REG1 c) (REG2 c) (ADDR1 c) (ADDR2 c) v
        (flag_Z c) (flag_N c) (flag_O c).
Definition set_REG1 (c : CPU) (v : Z) : CPU :=
  mkCPU v (REG2 c) (ADDR1 c) (ADDR2 c) (PC c) (flag_Z c) (flag_N c) (flag_O c).
Definition set_REG2 (c : CPU) (v : Z) : CPU :=
  mkCPU (REG1 c) v (ADDR1 c) (ADDR2 c) (PC c) (flag_Z c) (flag_N c) (flag_O c).
Definition set_ADDR1 (c : CPU) (v : Z) : CPU :=
  mkCPU (REG1 c) (REG2 c) v (ADDR2 c) (PC c) (flag_Z c) (flag_N c) (flag_O c).
Definition set_ADDR2 (c : CPU) (v : Z) : CPU :=
  mkCPU (REG1 c) (REG2 c) (ADDR1 c) v (PC c) (flag_Z c) (flag_N c) (flag_O c).

(** The operation character passed to [set_flags]. *)
Inductive operation : Type := op_plus | op_minus | op_other.

Definition set_flags (c : CPU) (operand1 operand2 res : Z) (op : operation)
  : CPU :=
  let z := c_bool (res =? 0) in
  let n := c_bool (negb (Z.land res 0x8000 =? 0)) in
  let o :=
    match op with
    | op_plus =>
        if (Z.land operand1 0x8000 =? Z.land operand2 0x8000)
           && negb (Z.land res 0x8000 =? Z.land operand1 0x8000)
        then 1 else 0
    | op_minus =>
        if negb (Z.land operand1 0x8000 =? Z.land operand2 0x8000)
           && negb (Z.land res 0x8000 =? Z.land operand1 0x8000)
        then 1 else 0
    | op_other => 0
    end in
  mkCPU (REG1 c) (REG2 c) (ADDR1 c) (ADDR2 c) (PC c) z n o.

Definition set_flags_for_load (c : CPU) (value : Z) : CPU :=
  mkCPU (REG1 c) (REG2 c) (ADDR1 c) (ADDR2 c) (PC c)
        (c_bool (value =? 0)) (c_bool (negb (Z.land value 0x8000 =? 0)))
        (flag_O c).

(** [memory[cpu.PC++]]: the cell at PC, and PC advanced modulo 65536. *)
Definition fetch_byte (s : machine) : vm (Z * machine) :=
  b <- mem_read (memory s) (PC (cpu s)) ;;
  Ok (uint8 b,
      mkMachine (set_PC (cpu s) (uint16 (PC (cpu s) + 1)))
                (memory s) (stdout s)).

(** [immediate = fetchImmediate(cpu.PC); cpu.PC += 2;] *)
Definition fetch_operand16 (s : machine) : vm (Z * machine) :=
  immediate <- fetchImmediate (memory s) (PC (cpu s)) ;;
  Ok (immediate,
      mkMachine (set_PC (cpu s) (uint16 (PC (cpu s) + 2)))
                (memory s) (stdout s)).

Definition with_cpu (s : machine) (c : CPU) : machine :=
  mkMachine c (memory s) (stdout s).

Definition print (s : machine) (o : output) : machine :=
  mkMachine (cpu s) (memory s) (stdout s ++ [o]).

(** The two stores of a 16-bit value, high byte first. *)
Definition store16 (s : machine) (address value : Z) : vm machine :=
  m1 <- mem_write (memory s) address (Z.land (Z.shiftr value 8) 0xFF) ;;
  m2 <- mem_write m1 (address + 1) (Z.land value 0xFF) ;;
  Ok (mkMachine (cpu s) m2 (stdout s)).

(** The destination ladder shared by LOAD and LOADI; [otherwise] is the
    final [else] of the source (absent in LOAD, a diagnostic in LOADI). *)
Definition load_register (s : machine) (reg value : Z)
  (otherwise : vm machine) : vm machine :=
  if reg =? R1 then
    let c := set_REG1 (cpu s) value in
    Ok (with_cpu s (set_flags_for_load c (REG1 c)))
  else if reg =? R2 then
    let c := set_REG2 (cpu s) value in
    Ok (with_cpu s (set_flags_for_load c (REG2 c)))
  else if reg =? A1 then Ok (with_cpu s (set_ADDR1 (cpu s) value))
  else if reg =? A2 then Ok (with_cpu s (set_ADDR2 (cpu s) value))
  else otherwise.

(** The address ladder shared by LOADI and STOREI. *)
Definition address_register (c : CPU) (reg2 : Z) (d : diagnostic) : vm Z :=
  if reg2 =? A1 then Ok (ADDR1 c)
  else if reg2 =? A2 then Ok (ADDR2 c)
  else if reg2 =? R1 then Ok (REG1 c)
  else if reg2 =? R2 then Ok (REG2 c)
  else Exit d.

(** The immediate forms ADD and SUB. *)
Definition arith_immediate (s : machine) (op : operation) : vm machine :=
  '(reg, s) <- fetch_byte s ;;
  '(immediate, s) <- fetch_operand16 s ;;
  let c := cpu s in
  let old_value := if reg =? R1 then REG1 c else REG2 c in
  let apply x := match op with
                 | op_minus => uint16 (x - immediate)
                 | _ => uint16 (x + immediate)
                 end in
  if reg =? R1 then
    let c' := set_REG1 c (apply (REG1 c)) in
    Ok (with_cpu s (set_flags c' old_value immediate (REG1 c') op))
  else if reg =? R2 then
    let c' := set_REG2 c (apply (REG2 c)) in
    Ok (with_cpu s (set_flags c' old_value immediate (REG2 c') op))
  else Ok s.

(** The register forms ADDR and SUBR. *)
Definition arith_register (s : machine) (op : operation) : vm machine :=
  '(reg_byte, s) <- fetch_byte s ;;
  let reg2 := Z.land (Z.shiftr reg_byte 6) 0x03 in
  let reg1 := Z.land reg_byte 0x03 in
  let c := cpu s in
  let src_value := if reg2 =? R1 then REG1 c else REG2 c in
  let old_value := if reg1 =? R1 then REG1 c else REG2 c in
  let new_value := match op with
                   | op_minus => uint16 (old_value - src_value)
                   | _ => uint16 (old_value + src_value)
                   end in
  let c' := if reg1 =? R1 then set_REG1 c new_value else set_REG2 c new_value in
  Ok (with_cpu s (set_flags c' old_value src_value new_value op)).

Inductive status : Type := Running | Halted.

(** The [switch (opcode)] of [processor_cycle]. *)
Definition execute (opcode start_PC : Z) (s : machine)
  : vm (status * machine) :=
  if opcode =? HALT then Ok (Halted, s)
  else if opcode =? LOAD then
    '(reg, s) <- fetch_byte s ;;
    '(immediate, s) <- fetch_operand16 s ;;
    s <- load_register s reg immediate (Ok s) ;;
    Ok (Running, s)
  else if opcode =? LOADI then
    '(reg_byte, s) <- fetch_byte s ;;
    let reg2 := Z.land (Z.shiftr reg_byte 6) 0x03 in
    let reg1 := Z.land reg_byte 0x03 in
    address <- address_register (cpu s) reg2
                 (Invalid_address_register_in_LOADI reg2) ;;
    value <- fetchImmediate (memory s) address ;;
    s <- load_register s reg1 value
           (Exit (Invalid_destination_register_in_LOADI reg1)) ;;
    Ok (Running, s)
  else if opcode =? STORE then
    '(reg, s) <- fetch_byte s ;;
    '(immediate, s) <- fetch_operand16 s ;;
    let value := if reg =? R1 then REG1 (cpu s) else REG2 (cpu s) in
    s <- store16 s immediate value ;;
    Ok (Running, s)
  else if opcode =? STOREI then
    '(reg_byte, s) <- fetch_byte s ;;
    let reg2 := Z.land (Z.shiftr reg_byte 6) 0x03 in
    let reg1 := Z.land reg_byte 0x03 in
    address <- address_register (cpu s) reg2
                 (Invalid_address_register_in_STOREI reg2) ;;
    value <- (if reg1 =? R1 then Ok (REG1 (cpu s))
              else if reg1 =? R2 then Ok (REG2 (cpu s))
              else if reg1 =? A1 then Ok (ADDR1 (cpu s))
              else if reg1 =? A2 then Ok (ADDR2 (cpu s))
              else Exit (Invalid_source_register_in_STOREI reg1)) ;;
    s <- store16 s address value ;;
    Ok (Running, s)
  else if opcode =? ADD then
    s <- arith_immediate s op_plus ;; Ok (Running, s)
  else if opcode =? ADDR then
    s <- arith_register s op_plus ;; Ok (Running, s)
  else if opcode =? SUB then
    s <- arith_immediate s op_minus ;; Ok (Running, s)
  else if opcode =? SUBR then
    s <- arith_register s op_minus ;; Ok (Running, s)
  else if (opcode =? JMP) || (opcode =? JMPZ) || (opcode =? JMPN)
          || (opcode =? JMPO) then
    '(unused, s) <- fetch_byte s ;;
    if PC (cpu s) >=? MEMORY_SIZE then
      Exit (Jumped_to_invalid_memory_address (PC (cpu s)))
    else
      '(immediate, s) <- fetch_operand16 s ;;
      let jump :=
        if opcode =? JMP then true
        else if (opcode =? JMPZ) && negb (flag_Z (cpu s) =? 0) then true
        else if (opcode =? JMPN) && negb (flag_N (cpu s) =? 0) then true
        else if (opcode =? JMPO) && negb (flag_O (cpu s) =? 0) then true
        else false in
      if jump then
        if immediate <? MEMORY_SIZE then
          Ok (Running, with_cpu s (set_PC (cpu s) immediate))
        else Exit (Jump_to_invalid_memory immediate)
      else Ok (Running, s)
  else if opcode =? OUT then
    let s := with_cpu s (set_PC (cpu s) (uint16 (PC (cpu s) + 1))) in
    '(immediate, s) <- fetch_operand16 s ;;
    Ok (Running, print s (PrintInt (int16 immediate)))
  else if opcode =? OUTC then
    let s := with_cpu s (set_PC (cpu s) (uint16 (PC (cpu s) + 1))) in
    '(immediate, s) <- fetch_operand16 s ;;
    Ok (Running, print s (PrintChar (uint8 (Z.land immediate 0xFF))))
  else if opcode =? OUTR then
    '(reg, s) <- fetch_byte s ;;
    if reg =? R1 then Ok (Running, print s (PrintInt (int16 (REG1 (cpu s)))))
    else if reg =? R2 then
      Ok (Running, print s (PrintInt (int16 (REG2 (cpu s)))))
    else Ok (Running, s)
  else if opcode =? OUTRC then
    '(reg, s) <- fetch_byte s ;;
    if reg =? R1 then
      Ok (Running, print s (PrintChar (Z.land (REG1 (cpu s)) 0xFF)))
    else if reg =? R2 then
      Ok (Running, print s (PrintChar (Z.land (REG2 (cpu s)) 0xFF)))
    else Ok (Running, s)
  else if opcode =? OUTI then
    '(reg, s) <- fetch_byte s ;;
    let address := if reg =? A1 then ADDR1 (cpu s) else ADDR2 (cpu s) in
    value <- fetchImmediate (memory s) address ;;
    Ok (Running, print s (PrintInt (int16 value)))
  else if opcode =? OUTIC then
    '(reg, s) <- fetch_byte s ;;
    let address := if reg =? A1 then ADDR1 (cpu s) else ADDR2 (cpu s) in
    value <- mem_read (memory s) address ;;
    Ok (Running, print s (PrintChar (uint8 value)))
  else Exit (Unknown_opcode opcode start_PC).

(** One iteration of the [while (1)] of [processor_cycle]. *)
Definition step (s : machine) : vm (status * machine) :=
  let start_PC := PC (cpu s) in
  '(opcode, s) <- fetch_byte s ;;
  execute opcode start_PC s.

(** [processor_cycle]: the loop has no bound in the source; [fuel] bounds
    the number of iterations and [None] means the bound was reached. *)
Fixpoint processor_cycle (fuel : nat) (s : machine) : option (vm machine) :=
  match fuel with
  | O => None
  | S fuel =>
      match step s with
      | Ok (Halted, s') => Some (Ok s')
      | Ok (Running, s') => processor_cycle fuel s'
      | Exit d => Some (Exit d)
      | Undef u => Some (Undef u)
      end
  end.

(** [load_program]: [stream] is what [getchar] delivers before EOF. *)
Fixpoint load_program_from (address : Z) (stream : list Z) (m : mem) : mem :=
  match stream with
  | [] => m
  | byte :: rest =>
      if address <? MEMORY_SIZE
      then load_program_from (uint16 (address + 1)) rest
             (mem_set m address (uint8 byte))
      else m
  end.

Definition load_program (stream : list Z) (m : mem) : mem :=
  load_program_from 0 stream m.

Definition initialize_cpu : CPU := mkCPU 0 0 0 0 0 0 0 0.

(** [main] of svm.c. *)
Definition svm_main (fuel : nat) (stream : list Z) : option (vm machine) :=
  processor_cycle fuel
    (mkMachine initialize_cpu (load_program stream mem_zero) []).

(* ================================================================= *)
(** ** sasm.c: the assembler *)

Definition MAX_LABELS : nat := 256.

(** An entry of [symbol_table]. *)
Record Label : Type := mkLabel {
  label : string;
  address : Z
}.

(** [symbol_table] with [label_count]: the entries in use, oldest first. *)
Definition symbol_table : Type := list Label.

(** The diagnostics of sasm.c, each followed in the source by [exit(1)]. *)
Inductive asm_diagnostic : Type :=
| Symbol_table_overflow
| Unknown_instruction_in_first_pass (instruction : string)
| Invalid_register (operand : string)
| Invalid_register_in_instruction (instruction operand1 operand2 : string)
| Unknown_instruction_with_two_operands (instruction : string)
| Undefined_label (operand : string)
| Unknown_instruction_with_one_operand (instruction : string)
| Unknown_instruction (instruction : string)
| Invalid_instruction_format (line : string).

Definition asm (A : Type) : Type := result asm_diagnostic A.

(** [strcmp(a, b) == 0]. *)
Definition streq (a b : string) : bool := String.eqb a b.

Definition get_register_code (reg : string) : Z :=
  if streq reg "R1" then 1
  else if streq reg "R2" then 0
  else if streq reg "A1" then 3
  else if streq reg "A2" then 2
  else 0xFF.

(** The two [putchar] calls of [write16]. *)
Definition write16 (value : Z) : list Z :=
  [Z.land (Z.shiftr value 8) 0xFF; Z.land value 0xFF].

Fixpoint strip_comments (line : string) : string :=
  match line with
  | EmptyString => EmptyString
  | String c rest =>
      if Ascii.eqb c "#" then EmptyString else String c (strip_comments rest)
  end.

(** [isspace] in the C locale: space, and the controls 9 to 13. *)
Definition isspace (c : ascii) : bool :=
  let n := Z.of_N (N_of_ascii c) in
  (n =? 32) || ((9 <=? n) && (n <=? 13)).

(** The first loop of [trim_whitespace], and the whitespace directive of
    a [sscanf] format. *)
Fixpoint skip_space (s : string) : string :=
  match s with
  | EmptyString => EmptyString
  | String c rest => if isspace c then skip_space rest else s
  end.

(** The string without its trailing whitespace. *)
Fixpoint drop_trailing_space (s : string) : string :=
  match s with
  | EmptyString => EmptyString
  | String c rest =>
      match drop_trailing_space rest with
      | EmptyString => if isspace c then EmptyString else String c EmptyString
      | rest' => String c rest'
      end
  end.

(** The second loop of [trim_whitespace] stops at [end > str]: the first
    character is never erased. *)
Definition trim_whitespace (str : string) : string :=
  match skip_space str with
  | EmptyString => EmptyString
  | String c rest => String c (drop_trailing_space rest)
  end.

Definition add_label (tbl : symbol_table) (name : string) (addr : Z)
  : asm symbol_table :=
  if (MAX_LABELS <=? List.length tbl)%nat then Exit Symbol_table_overflow
  else Ok (tbl ++ [mkLabel name addr]).

Fixpoint find_label (tbl : symbol_table) (name : string) : option Z :=
  match tbl with
  | [] => None
  | entry :: rest =>
      if streq (label entry) name then Some (address entry)
      else find_label rest name
  end.

(** *** The [sscanf] formats *)

(** The longest prefix whose characters satisfy [p], and what follows. *)
Fixpoint span (p : ascii -> bool) (s : string) : string * string :=
  match s with
  | EmptyString => (EmptyString, EmptyString)
  | String c rest =>
      if p c then let (tok, tail) := span p rest in (String c tok, tail)
      else (EmptyString, s)
  end.

Definition nonempty (r : string * string) : option (string * string) :=
  match fst r with
  | EmptyString => None
  | _ => Some r
  end.

(** The conversion [%s]: whitespace is skipped, then a non-empty run of
    non-whitespace characters is stored. *)
Definition scan_word (s : string) : option (string * string) :=
  nonempty (span (fun c => negb (isspace c)) (skip_space s)).

(** The conversion [%[^c]]: a non-empty run of characters other than [c]. *)
Definition scan_until (c : ascii) (s : string) : option (string * string) :=
  nonempty (span (fun d => negb (Ascii.eqb d c)) s).

(** [sscanf(s, "%s %[^\n]", a, b)]: the fields stored, in order; their
    number is the value returned. *)
Definition sscanf_word_rest (s : string) : list string :=
  match scan_word s with
  | None => []
  | Some (a, s1) =>
      match scan_until "010" (skip_space s1) with
      | None => [a]
      | Some (b, _) => [a; b]
      end
  end.

(** [sscanf(s, " %s", a)]. *)
Definition sscanf_word (s : string) : list string :=
  match scan_word (skip_space s) with
  | None => []
  | Some (a, _) => [a]
  end.

(** [sscanf(s, " %s %s", a, b)]. *)
Definition sscanf_word_word (s : string) : list string :=
  match scan_word (skip_space s) with
  | None => []
  | Some (a, s1) =>
      match scan_word (skip_space s1) with
      | None => [a]
      | Some (b, _) => [a; b]
      end
  end.

(** [sscanf(s, " %s %[^,], %s", a, b, c)]. *)
Definition sscanf_word_operands (s : string) : list string :=
  match scan_word (skip_space s) with
  | None => []
  | Some (a, s1) =>
      match scan_until "," (skip_space s1) with
      | None => [a]
      | Some (b, s2) =>
          match s2 with
          | String "," s3 =>
              match scan_word (skip_space s3) with
              | None => [a; b]
              | Some (c, _) => [a; b; c]
              end
          | _ => [a; b]
          end
      end
  end.

(** *** [atoi] *)

Definition digit (c : ascii) : option Z :=
  let n := Z.of_N (N_of_ascii c) in
  if (48 <=? n) && (n <=? 57) then Some (n - 48) else None.

Fixpoint atoi_digits (acc : Z) (s : string) : Z :=
  match s with
  | EmptyString => acc
  | String c rest =>
      match digit c with
      | Some d => atoi_digits (acc * 10 + d) rest
      | None => acc
      end
  end.

(** The number [atoi] reads: optional whitespace, an optional sign, then
    the longest run of decimal digits; 0 when there is none. *)
Definition atoi_value (s : string) : Z :=
  match skip_space s with
  | String "-" rest => - atoi_digits 0 rest
  | String "+" rest => atoi_digits 0 rest
  | s' => atoi_digits 0 s'
  end.

(** The range of [int], 32 bits wide under the compiler of the Makefile. *)
Definition INT_MIN : Z := -2147483648.
Definition INT_MAX : Z := 2147483647.

(** [atoi(s)]: the number read when [int] can hold it; C leaves the call
    undefined otherwise, and the source makes no test before it. *)
Definition atoi {E : Type} (s : string) : result E Z :=
  let value := atoi_value s in
  if (INT_MIN <=? value) && (value <=? INT_MAX) then Ok value
  else Undef (Not_an_int value).

(** *** First pass *)

(** The test on the first word of a line: it is one of the instructions. *)
Definition is_instruction (word : string) : bool :=
  existsb (streq word)
    ["LOAD"; "LOADI"; "STORE"; "STOREI"; "JMP"; "JMPZ"; "JMPN"; "JMPO";
     "ADD"; "ADDR"; "SUB"; "SUBR"; "OUT"; "OUTC"; "OUTR"; "OUTRC";
     "OUTI"; "OUTIC"; "HALT"; "DATA"]%string.

Definition four_bytes (instruction : string) : bool :=
  existsb (streq instruction)
    ["LOAD"; "STORE"; "JMP"; "JMPZ"; "JMPN"; "JMPO"; "ADD"; "SUB"; "OUT";
     "OUTC"]%string.

Definition two_bytes (instruction : string) : bool :=
  existsb (streq instruction)
    ["LOADI"; "STOREI"; "ADDR"; "SUBR"; "OUTR"; "OUTRC"; "OUTI";
     "OUTIC"]%string.

(** The ladder of the branch taken when [sscanf] stored two fields. *)
Definition size_two_fields (instruction : string) : option Z :=
  if streq instruction "HALT" then Some 1
  else if four_bytes instruction then Some 4
  else if two_bytes instruction then Some 2
  else if streq instruction "DATA" then Some 2
  else None.

(** The ladder of the other branch. *)
Definition size_one_field (instruction : string) : option Z :=
  if streq instruction "DATA" then Some 2
  else if streq instruction "HALT" then Some 1
  else if four_bytes instruction then Some 4
  else if two_bytes instruction then Some 2
  else None.

(** What one iteration of the loop of [first_pass] leaves behind. *)
Record pass1 : Type := mkPass1 {
  location_counter : Z;
  table : symbol_table;
  (** [lines[i]] as the second pass will read it *)
  line_out : string;
  (** [instruction_addresses[i]], not written for a blank line *)
  instruction_address : option Z
}.

Definition advance (size : string -> option Z) (line_copy : string)
  (lc : Z) (tbl : symbol_table) (kept : string) : asm pass1 :=
  match sscanf_word line_copy with
  | [instruction] =>
      match size instruction with
      | Some n => Ok (mkPass1 (uint16 (lc + n)) tbl kept (Some lc))
      | None => Exit (Unknown_instruction_in_first_pass instruction)
      end
  | _ => Undef Uninitialised_buffer
  end.

Definition first_pass_line (lc : Z) (tbl : symbol_table) (line : string)
  : asm pass1 :=
  let line_copy := trim_whitespace (strip_comments line) in
  if (String.length line_copy =? 0)%nat then Ok (mkPass1 lc tbl line None)
  else
    match sscanf_word_rest line_copy with
    | [name; rest_of_line] =>
        '(tbl, line_copy) <-
          (if negb (is_instruction name)
           then tbl' <- add_label tbl name lc ;; Ok (tbl', rest_of_line)
           else Ok (tbl, line_copy)) ;;
        advance size_two_fields line_copy lc tbl line_copy
    | _ => advance size_one_field line_copy lc tbl line
    end.

(** The loop of [first_pass]: the final location counter, the symbol
    table, the lines for the second pass and the instruction addresses. *)
Fixpoint first_pass_from (lc : Z) (tbl : symbol_table) (lines : list string)
  : asm (Z * symbol_table * list string * list (option Z)) :=
  match lines with
  | [] => Ok (lc, tbl, [], [])
  | line :: rest =>
      r <- first_pass_line lc tbl line ;;
      '(lc', tbl', lines', addresses) <-
        first_pass_from (location_counter r) (table r) rest ;;
      Ok (lc', tbl', line_out r :: lines', instruction_address r :: addresses)
  end.

Definition first_pass (lines : list string)
  : asm (Z * symbol_table * list string * list (option Z)) :=
  first_pass_from 0 [] lines.

(** *** Second pass *)

(** [find_label] with the fall back on [(uint16_t)atoi]. *)
Definition label_or_literal (tbl : symbol_table) (operand : string) : asm Z :=
  match find_label tbl operand with
  | Some a => Ok a
  | None => value <- atoi operand ;; Ok (uint16 value)
  end.

Definition two_operands (tbl : symbol_table)
  (instruction operand1 operand2 : string) : asm (list Z) :=
  if streq instruction "LOAD" || streq instruction "ADD"
     || streq instruction "SUB" || streq instruction "STORE" then
    let opcode :=
      if streq instruction "LOAD" then LOAD
      else if streq instruction "ADD" then ADD
      else if streq instruction "SUB" then SUB
      else if streq instruction "STORE" then STORE
      else 0 in
    let reg_code := get_register_code operand1 in
    if reg_code =? 0xFF then Exit (Invalid_register operand1)
    else
      immediate <- label_or_literal tbl operand2 ;;
      Ok ([opcode; reg_code] ++ write16 immediate)
  else if streq instruction "LOADI" || streq instruction "STOREI"
          || streq instruction "ADDR" || streq instruction "SUBR" then
    let opcode :=
      if streq instruction "LOADI" then LOADI
      else if streq instruction "STOREI" then STOREI
      else if streq instruction "ADDR" then ADDR
      else if streq instruction "SUBR" then SUBR
      else 0 in
    let reg_code1 := get_register_code operand1 in
    let reg_code2 := get_register_code operand2 in
    if (reg_code1 =? 0xFF) || (reg_code2 =? 0xFF) then
      Exit (Invalid_register_in_instruction instruction operand1 operand2)
    else
      let reg_byte :=
        uint8 (Z.lor (Z.shiftl reg_code2 6) (Z.land reg_code1 0x03)) in
      Ok [opcode; reg_byte]
  else Exit (Unknown_instruction_with_two_operands instruction).

Definition one_operand (tbl : symbol_table) (instruction operand1 : string)
  : asm (list Z) :=
  if streq instruction "JMP" || streq instruction "JMPZ"
     || streq instruction "JMPN" || streq instruction "JMPO"
     || streq instruction "DATA" || streq instruction "OUTR"
     || streq instruction "OUTRC" || streq instruction "OUTI"
     || streq instruction "OUTIC" || streq instruction "OUT"
     || streq instruction "OUTC" then
    if streq instruction "OUTR" || streq instruction "OUTRC"
       || streq instruction "OUTI" || streq instruction "OUTIC" then
      let opcode :=
        if streq instruction "OUTR" then OUTR
        else if streq instruction "OUTRC" then OUTRC
        else if streq instruction "OUTI" then OUTI
        else if streq instruction "OUTIC" then OUTIC
        else 0 in
      let reg_code := get_register_code operand1 in
      if reg_code =? 0xFF then Exit (Invalid_register operand1)
      else Ok [opcode; reg_code]
    else if streq instruction "OUT" || streq instruction "OUTC" then
      let opcode := if streq instruction "OUT" then OUT else OUTC in
      immediate <- label_or_literal tbl operand1 ;;
      Ok ([opcode; 0] ++ write16 immediate)
    else if streq instruction "DATA" then
      value <- label_or_literal tbl operand1 ;;
      Ok (write16 value)
    else
      let opcode :=
        if streq instruction "JMP" then JMP
        else if streq instruction "JMPZ" then JMPZ
        else if streq instruction "JMPN" then JMPN
        else if streq instruction "JMPO" then JMPO
        else 0 in
      match find_label tbl operand1 with
      | None => Exit (Undefined_label operand1)
      | Some addr => Ok ([opcode; 0] ++ write16 addr)
      end
  else Exit (Unknown_instruction_with_one_operand instruction).

(** One iteration of the loop of [second_pass]: the bytes written by its
    [putchar] calls.  Every [exit(1)] of the iteration precedes them. *)
Definition second_pass_line (tbl : symbol_table) (line : string)
  : asm (list Z) :=
  let line_copy := trim_whitespace (strip_comments line) in
  if (String.length line_copy =? 0)%nat then Ok []
  else
    match sscanf_word_operands line_copy with
    | [instruction; operand1; operand2] =>
        two_operands tbl instruction operand1 operand2
    | _ =>
        match sscanf_word_word line_copy with
        | [instruction; operand1] => one_operand tbl instruction operand1
        | _ =>
            match sscanf_word line_copy with
            | [instruction] =>
                if streq instruction "HALT" then Ok [HALT]
                else Exit (Unknown_instruction instruction)
            | _ => Exit (Invalid_instruction_format line_copy)
            end
        end
    end.

(** How a run of the assembler ends: what it has written on stdout, and
    [Ok tt] for [return 0]. *)
Definition run : Type := (list Z * asm unit)%type.

(** The loop of [second_pass]; [written] is the output so far. *)
Fixpoint second_pass_from (tbl : symbol_table) (lines : list string)
  (written : list Z) : run :=
  match lines with
  | [] => (written, Ok tt)
  | line :: rest =>
      match second_pass_line tbl line with
      | Ok bytes => second_pass_from tbl rest (written ++ bytes)
      | Exit d => (written, Exit d)
      | Undef u => (written, Undef u)
      end
  end.

Definition second_pass (tbl : symbol_table) (lines : list string) : run :=
  second_pass_from tbl lines [].

(** [main] of sasm.c, from the array [lines] as its [fgets] loop fills it:
    one entry for each line read, the newline removed. *)
Definition sasm_main (lines : list string) : run :=
  match first_pass lines with
  | Ok (_, tbl, lines', _) => second_pass tbl lines'
  | Exit d => ([], Exit d)
  | Undef u => ([], Undef u)
  end.

(* ================================================================= *)
(** ** Definitions used to state the properties *)

(** The 16-bit result of an arithmetic instruction on the operands [a]
    and [b], in the words of the specification: wrapped modulo 65536. *)
Definition wrapped (op : operation) (a b : Z) : Z :=
  match op with
  | op_minus => (a - b) mod 65536
  | _ => (a + b) mod 65536
  end.

(** Signed overflow in the words of the specification.  Addition: the
    operands share their sign bit and the result's differs from it.
    Subtraction: the operands' sign bits differ and the result's differs
    from the first operand's. *)
Definition overflow (op : operation) (a b r : Z) : bool :=
  match op with
  | op_plus =>
      Bool.eqb (sign_bit a) (sign_bit b)
      && negb (Bool.eqb (sign_bit r) (sign_bit a))
  | op_minus =>
      negb (Bool.eqb (sign_bit a) (sign_bit b))
      && negb (Bool.eqb (sign_bit r) (sign_bit a))
  | op_other => false
  end.

(** The value of the data register named by [code]: R1 or R2. *)
Definition data_register (c : CPU) (code : Z) : Z :=
  if code =? R1 then REG1 c else REG2 c.

Definition is_data_register (code : Z) : bool := (code =? R1) || (code =? R2).

(** The machine as [main] of svm.c starts it on the program [stream]. *)
Definition boot (stream : list Z) : machine :=
  mkMachine initialize_cpu (load_program stream mem_zero) [].

(** The cell of memory at PC + [k], as the [uint8_t] it is. *)
Definition code_byte (s : machine) (k : Z) : Z :=
  uint8 (memory s (PC (cpu s) + k)).

(** The machine with PC advanced by [k], everything else as in [s]. *)
Definition at_pc (s : machine) (k : Z) : machine :=
  mkMachine (set_PC (cpu s) (PC (cpu s) + k)) (memory s) (stdout s).

(** The opcodes of the two forms of an arithmetic operation. *)
Definition immediate_opcode (op : operation) : Z :=
  match op with op_minus => SUB | _ => ADD end.

Definition register_opcode (op : operation) : Z :=
  match op with op_minus => SUBR | _ => ADDR end.

(** The CPU after an arithmetic instruction on the data register [dest]
    with the operands [a] and [b], in the words of the specification: the
    wrapped result in the register, Z and N from the result, O the signed
    overflow. *)
Definition arithmetic_result (c : CPU) (dest : Z) (op : operation) (a b : Z)
  : CPU :=
  let r := wrapped op a b in
  mkCPU (if dest =? R1 then r else REG1 c) (if dest =? R1 then REG2 c else r)
        (ADDR1 c) (ADDR2 c) (PC c)
        (c_bool (r =? 0)) (c_bool (sign_bit r)) (c_bool (overflow op a b r)).

(** The two fields of a packed register byte. *)
Definition field_low (reg_byte : Z) : Z := Z.land reg_byte 0x03.
Definition field_high (reg_byte : Z) : Z := Z.land (Z.shiftr reg_byte 6) 0x03.

(** [ADD R1, 32767] then [ADD R1, 1] then [HALT], as source text. *)
Definition overflow_program : list string :=
  ["ADD R1, 32767"; "ADD R1, 1"; "HALT"]%string.

(** The CPU a run ends with, when it ends at HALT. *)
Definition final_cpu (r : option (vm machine)) : option CPU :=
  match r with
  | Some (Ok s) => Some (cpu s)
  | _ => None
  end.

(** The machine between the two additions of [overflow_program]. *)
Definition between_additions : machine :=
  mkMachine (mkCPU 32767 0 0 0 4 0 0 0)
            (load_program (fst (sasm_main overflow_program)) mem_zero) [].

(** The diagnostics that reject a register code of a packed byte. *)
Definition rejects_register (d : diagnostic) : bool :=
  match d with
  | Invalid_address_register_in_LOADI _
  | Invalid_destination_register_in_LOADI _
  | Invalid_address_register_in_STOREI _
  | Invalid_source_register_in_STOREI _ => true
  | _ => false
  end.

(** A computation that does not end on such a diagnostic. *)
Definition accepts_registers {A : Type} (r : vm A) : Prop :=
  match r with
  | Exit d => rejects_register d = false
  | _ => True
  end.

(** [ADDR A1, A1] between loads that tell the registers apart. *)
Definition aliasing_program : list string :=
  ["LOAD R2, 5"; "LOAD A1, 7"; "ADDR A1, A1"; "HALT"]%string.

(** Stores whose address lies at or beyond the end of memory, and a load
    from such an address. *)
Definition store_beyond_program : list string :=
  ["LOAD R1, 258"; "STORE R1, 32768"; "HALT"]%string.

Definition store_straddling_program : list string :=
  ["LOAD R1, 258"; "STORE R1, 32767"; "HALT"]%string.

Definition storei_beyond_program : list string :=
  ["LOAD A1, 40000"; "STOREI R1, A1"; "HALT"]%string.

Definition loadi_beyond_program : list string :=
  ["LOAD A1, 40000"; "LOADI R1, A1"; "HALT"]%string.

(** How a run ends, without the final state. *)
Definition ending (r : option (vm machine)) : option (vm unit) :=
  option_map (fun r => _ <- r ;; Ok tt) r.

(** The machine about to execute the [ADDR A1, A1] of [aliasing_program]. *)
Definition before_aliasing : machine :=
  mkMachine (mkCPU 0 5 7 0 8 0 0 0)
            (load_program (fst (sasm_main aliasing_program)) mem_zero) [].

(** *** The source format, in the words of the specification *)

(** The first whitespace-delimited token of a text. *)
Definition first_word (s : string) : option string :=
  option_map fst (scan_word s).

(** The label of a line: its first token, when that token is not a
    reserved mnemonic and further content follows it on the line. *)
Definition label_of (line : string) : option string :=
  match sscanf_word_rest (trim_whitespace (strip_comments line)) with
  | [name; _] => if is_instruction name then None else Some name
  | _ => None
  end.

(** The mnemonic of a line: the first token of what remains once the
    label is removed; a blank line has none. *)
Definition mnemonic_of (line : string) : option string :=
  let l := trim_whitespace (strip_comments line) in
  match sscanf_word_rest l with
  | [name; rest] => if is_instruction name then Some name else first_word rest
  | _ => first_word l
  end.

(** The text of a line that the first pass leaves for the second. *)
Definition second_pass_input (line : string) : string :=
  let l := trim_whitespace (strip_comments line) in
  match sscanf_word_rest l with
  | [name; rest] => if is_instruction name then l else rest
  | _ => line
  end.

(** The length table of the specification: 1 byte for HALT, 4 bytes for
    LOAD, STORE, JMP, JMPZ, JMPN, JMPO, ADD, SUB, OUT and OUTC, 2 bytes
    for LOADI, STOREI, ADDR, SUBR, OUTR, OUTRC, OUTI, OUTIC and DATA. *)
Definition mnemonic_length (m : string) : option Z :=
  if streq m "HALT" then Some 1
  else if existsb (streq m)
            ["LOAD"; "STORE"; "JMP"; "JMPZ"; "JMPN"; "JMPO"; "ADD"; "SUB";
             "OUT"; "OUTC"]%string then Some 4
  else if existsb (streq m)
            ["LOADI"; "STOREI"; "ADDR"; "SUBR"; "OUTR"; "OUTRC"; "OUTI";
             "OUTIC"; "DATA"]%string then Some 2
  else None.

(** The labels of a program, one for each label-bearing line, in order. *)
Fixpoint labels_of (lines : list string) : list string :=
  match lines with
  | [] => []
  | line :: rest =>
      match label_of line with
      | Some name => name :: labels_of rest
      | None => labels_of rest
      end
  end.

(** A text without whitespace, and a text without comment marker. *)
Fixpoint no_space (s : string) : bool :=
  match s with
  | EmptyString => true
  | String c rest => negb (isspace c) && no_space rest
  end.

Fixpoint no_hash (s : string) : bool :=
  match s with
  | EmptyString => true
  | String c rest => negb (Ascii.eqb c "#") && no_hash rest
  end.

(** A program that defines the label [x] twice. *)
Definition duplicate_label_program : list string :=
  ["x LOAD R1, 1"; "x HALT"]%string.

(** A program whose second line has the unknown mnemonic [FOO]. *)
Definition unknown_mnemonic_program : list string :=
  ["LOAD R1, 1"; "start FOO R1"; "HALT"]%string.

(** The diagnostics of the first pass. *)
Definition first_pass_diagnostic (d : asm_diagnostic) : Prop :=
  d = Symbol_table_overflow \/
  exists m, is_instruction m = false /\ d = Unknown_instruction_in_first_pass m.

(** *** Further definitions for the virtual machine *)

(** A value that fits a [uint16_t], a [uint8_t], a flag. *)
Definition word16 (x : Z) : Prop := 0 <= x < 65536.
Definition word8 (x : Z) : Prop := 0 <= x < 256.
Definition bit (x : Z) : Prop := x = 0 \/ x = 1.

(** A machine whose registers, flags and memory cells hold values of
    their C types. *)
Definition well_formed (s : machine) : Prop :=
  word16 (REG1 (cpu s)) /\ word16 (REG2 (cpu s)) /\
  word16 (ADDR1 (cpu s)) /\ word16 (ADDR2 (cpu s)) /\
  word16 (PC (cpu s)) /\
  bit (flag_Z (cpu s)) /\ bit (flag_N (cpu s)) /\ bit (flag_O (cpu s)) /\
  forall i, word8 (memory s i).

(** A property of the value a computation ends with, when it ends
    normally. *)
Definition on_ok {A : Type} (P : A -> Prop) (r : vm A) : Prop :=
  match r with
  | Ok a => P a
  | _ => True
  end.

(** The number of bytes the interpreter consumes for an opcode: the
    opcode byte and the operand bytes its handler reads or skips. *)
Definition opcode_length (opcode : Z) : Z :=
  if opcode =? HALT then 1
  else if (opcode =? LOADI) || (opcode =? STOREI) || (opcode =? ADDR)
          || (opcode =? SUBR) || (opcode =? OUTR) || (opcode =? OUTRC)
          || (opcode =? OUTI) || (opcode =? OUTIC) then 2
  else 4.

Definition is_jump (opcode : Z) : bool :=
  (opcode =? JMP) || (opcode =? JMPZ) || (opcode =? JMPN) || (opcode =? JMPO).

Definition is_opcode (opcode : Z) : bool :=
  (opcode =? HALT) || ((LOAD <=? opcode) && (opcode <=? OUTIC)).

(** The condition under which a jump opcode transfers control. *)
Definition jump_taken (opcode : Z) (c : CPU) : bool :=
  (opcode =? JMP)
  || ((opcode =? JMPZ) && negb (flag_Z c =? 0))
  || ((opcode =? JMPN) && negb (flag_N c =? 0))
  || ((opcode =? JMPO) && negb (flag_O c =? 0)).

(** The opcodes whose handler writes on stdout, and those whose handler
    stores into memory. *)
Definition prints (opcode : Z) : bool := (OUT <=? opcode) && (opcode <=? OUTIC).

Definition stores (opcode : Z) : bool := (opcode =? STORE) || (opcode =? STOREI).

(** What the handler of [opcode], started on [s] with PC past the opcode
    byte, has done when it ends normally, seen from outside: where PC
    went, and what happened to memory and to the output. *)
Definition opcode_effect (opcode : Z) (s : machine) (st : status)
  (s' : machine) : Prop :=
  is_opcode opcode = true /\
  (st = Halted <-> opcode = HALT) /\
  (if is_jump opcode && jump_taken opcode (cpu s)
   then fetchImmediate (memory s) (PC (cpu s) + 2) = Ok (PC (cpu s'))
        /\ PC (cpu s') < MEMORY_SIZE
   else PC (cpu s') = PC (cpu s) + opcode_length opcode) /\
  (stores opcode = false -> memory s' = memory s) /\
  (exists l, stdout s' = stdout s ++ l /\ (List.length l <= 1)%nat /\
             (prints opcode = false -> l = [])).

(** The same for one step: the opcode is the byte at PC, inside memory. *)
Definition step_effect (s : machine) (st : status) (s' : machine) : Prop :=
  in_memory (PC (cpu s)) = true /\
  opcode_effect (code_byte s 0) s st s'.

(** A machine stopped on a jump to its own address [p]. *)
Definition spinning : machine :=
  mkMachine (mkCPU 7 0 0 0 4 0 0 0)
            (load_program [LOAD; R1; 0; 7; JMP; 0; 0; 4] mem_zero) [].

(** *** Further definitions for the assembler *)

(** The register names of the source format. *)
Definition register_names : list string := ["R1"; "R2"; "A1"; "A2"]%string.

(** The mnemonics whose two register operands are packed into one byte,
    with their opcodes. *)
Definition packed_forms : list (string * Z) :=
  [("LOADI", LOADI); ("STOREI", STOREI); ("ADDR", ADDR); ("SUBR", SUBR)]%string.

(** The opcode the second pass writes for each mnemonic that has one. *)
Definition mnemonic_opcodes : list (string * Z) :=
  [("HALT", HALT); ("LOAD", LOAD); ("LOADI", LOADI); ("STORE", STORE);
   ("STOREI", STOREI); ("JMP", JMP); ("JMPZ", JMPZ); ("JMPN", JMPN);
   ("JMPO", JMPO); ("ADD", ADD); ("ADDR", ADDR); ("SUB", SUB);
   ("SUBR", SUBR); ("OUT", OUT); ("OUTC", OUTC); ("OUTR", OUTR);
   ("OUTRC", OUTRC); ("OUTI", OUTI); ("OUTIC", OUTIC)]%string.

(** The last character of a text. *)
Fixpoint last_char (s : string) : option ascii :=
  match s with
  | EmptyString => None
  | String c EmptyString => Some c
  | String _ rest => last_char rest
  end.

(** The register a code names: R1, R2, A1 or A2. *)
Definition register_of (c : CPU) (code : Z) : Z :=
  if code =? R1 then REG1 c
  else if code =? R2 then REG2 c
  else if code =? A1 then ADDR1 c
  else ADDR2 c.

(** The bytes [bytes] are the content of memory at PC and after. *)
Definition code_at_pc (s : machine) (bytes : list Z) : Prop :=
  forall k, (k < List.length bytes)%nat ->
            memory s (PC (cpu s) + Z.of_nat k) = nth k bytes 0.

(** The mnemonics of the four jumps, with their opcodes. *)
Definition jump_forms : list (string * Z) :=
  [("JMP", JMP); ("JMPZ", JMPZ); ("JMPN", JMPN); ("JMPO", JMPO)]%string.

(** *** Well-formed instruction lines *)

(** Every character of a text satisfies [p]. *)
Fixpoint every (p : ascii -> bool) (s : string) : bool :=
  match s with
  | EmptyString => true
  | String c rest => p c && every p rest
  end.

(** A character that can stand in a mnemonic, a register name, a label or
    a literal: neither whitespace, nor the comma that separates two
    operands, nor the comment marker, nor the end of a C string. *)
Definition token_char (c : ascii) : bool :=
  negb (isspace c) && negb (Ascii.eqb c ",") && negb (Ascii.eqb c "#")
  && negb (Ascii.eqb c "000").

(** A token: a non-empty text of such characters. *)
Definition is_token (s : string) : bool :=
  match s with
  | EmptyString => false
  | _ => every token_char s
  end.

(** The lines of the source format, one form for each group of mnemonics,
    with the operands the second pass requires: a register name where a
    register stands, a label of the table where a jump target stands, a
    label or a literal that [int] holds elsewhere. *)
Inductive instruction_line (tbl : symbol_table) : string -> string -> Prop :=
| line_HALT : instruction_line tbl "HALT" "HALT"
| line_register_immediate (m reg operand : string) (value : Z) :
    In m ["LOAD"; "STORE"; "ADD"; "SUB"]%string ->
    In reg register_names -> is_token operand = true ->
    label_or_literal tbl operand = Ok value ->
    instruction_line tbl m (m ++ " " ++ reg ++ ", " ++ operand)%string
| line_register_register (m reg1 reg2 : string) :
    In m ["LOADI"; "STOREI"; "ADDR"; "SUBR"]%string ->
    In reg1 register_names -> In reg2 register_names ->
    instruction_line tbl m (m ++ " " ++ reg1 ++ ", " ++ reg2)%string
| line_jump (m target : string) (addr : Z) :
    In m ["JMP"; "JMPZ"; "JMPN"; "JMPO"]%string ->
    is_token target = true -> find_label tbl target = Some addr ->
    instruction_line tbl m (m ++ " " ++ target)%string
| line_immediate (m operand : string) (value : Z) :
    In m ["OUT"; "OUTC"; "DATA"]%string ->
    is_token operand = true ->
    label_or_literal tbl operand = Ok value ->
    instruction_line tbl m (m ++ " " ++ operand)%string
| line_register (m reg : string) :
    In m ["OUTR"; "OUTRC"; "OUTI"; "OUTIC"]%string ->
    In reg register_names ->
    instruction_line tbl m (m ++ " " ++ reg)%string.

(** *** Decimal literals *)

(** The decimal text of an integer: its digits, after a minus sign when
    it is negative. *)
Definition decimal (n : Z) : string := NilZero.string_of_int (Z.to_int n).

(** *** Reading the source *)

(** [fgets(buffer, n + 1, stdin)]: at most [n] characters, up to and
    including the first newline; the characters read and the input that
    remains. *)
Fixpoint fgets (n : nat) (input : string) : string * string :=
  match n, input with
  | O, _ => (EmptyString, input)
  | S _, EmptyString => (EmptyString, EmptyString)
  | S n', String c rest =>
      if Ascii.eqb c "010" then (String c EmptyString, rest)
      else let (chunk, remaining) := fgets n' rest in
           (String c chunk, remaining)
  end.

(** A character that neither ends a C string nor is the newline. *)
Definition in_line (c : ascii) : bool :=
  negb (Ascii.eqb c "000") && negb (Ascii.eqb c "010").

(** The C string left in the buffer by [buffer[strcspn(buffer, "\n")] = 0]. *)
Definition cut_at_newline (buffer : string) : string := fst (span in_line buffer).

(** The number of entries of the array [lines] of [main]. *)
Definition MAX_LINES : nat := 1024.

(** The [fgets] loop of [main] of sasm.c, with [room] entries of [lines]
    not yet filled.  At the end of the input [fgets] stores nothing and
    the loop ends.  Otherwise it stores a line in [lines[line_count]],
    and the loop makes no test of [line_count]: once the array is full
    the line is written beyond its last entry. *)
Fixpoint read_lines (room : nat) (input : string) : asm (list string) :=
  match input with
  | EmptyString => Ok []
  | _ =>
      match room with
      | O => Undef (Line_outside MAX_LINES)
      | S room' =>
          let (buffer, remaining) := fgets 99 input in
          rest <- read_lines room' remaining ;;
          Ok (cut_at_newline buffer :: rest)
      end
  end.

Definition read_stdin (input : string) : asm (list string) :=
  read_lines MAX_LINES input.

(** [main] of sasm.c on the text of stdin. *)
Definition sasm (input : string) : run :=
  match read_stdin input with
  | Ok lines => sasm_main lines
  | Exit d => ([], Exit d)
  | Undef u => ([], Undef u)
  end.

(** The text of the lines [ls], each followed by a newline. *)
Fixpoint unlines (ls : list string) : string :=
  match ls with
  | [] => EmptyString
  | l :: rest => (l ++ String "010" (unlines rest))%string
  end.

(** A text made of characters that can stand inside a line. *)
Fixpoint plain (s : string) : bool :=
  match s with
  | EmptyString => true
  | String c rest => in_line c && plain rest
  end.

(* ================================================================= *)
(** * Properties of the virtual machine *)

Lemma land_sign (x : Z) :
  Z.land x 0x8000 = if sign_bit x then 32768 else 0.
Proof.
  unfold sign_bit. change 0x8000 with (2 ^ 15).
  apply Z.bits_inj'. intros n Hn.
  rewrite Z.land_spec, Z.pow2_bits_eqb by lia.
  destruct (Z.eqb_spec 15 n) as [<- | Hne].
  - rewrite andb_true_r. destruct (Z.testbit x 15).
    + rewrite Z.pow2_bits_eqb by lia. now rewrite Z.eqb_refl.
    + now rewrite Z.bits_0.
  - rewrite andb_false_r. destruct (Z.testbit x 15).
    + rewrite Z.pow2_bits_eqb by lia. symmetry. now apply Z.eqb_neq.
    + now rewrite Z.bits_0.
Qed.

Lemma sign_test_zero (x : Z) :
  negb (Z.land x 0x8000 =? 0) = sign_bit x.
Proof. rewrite land_sign. now destruct (sign_bit x). Qed.

Lemma sign_test_eq (x y : Z) :
  (Z.land x 0x8000 =? Z.land y 0x8000) = Bool.eqb (sign_bit x) (sign_bit y).
Proof. rewrite !land_sign. now destruct (sign_bit x), (sign_bit y). Qed.

(** [set_flags] computes Z, N and O as the specification words them. *)
Lemma set_flags_spec (c : CPU) (a b r : Z) (op : operation) :
  set_flags c a b r op =
  mkCPU (REG1 c) (REG2 c) (ADDR1 c) (ADDR2 c) (PC c)
        (c_bool (r =? 0)) (c_bool (sign_bit r)) (c_bool (overflow op a b r)).
Proof.
  unfold set_flags, overflow. rewrite sign_test_zero, !sign_test_eq.
  destruct op; simpl; try reflexivity;
    now destruct (Bool.eqb (sign_bit a) (sign_bit b)),
                 (Bool.eqb (sign_bit r) (sign_bit a)).
Qed.

Lemma fetch_byte_inside (s : machine) :
  in_memory (PC (cpu s)) = true ->
  fetch_byte s =
  Ok (code_byte s 0,
      mkMachine (set_PC (cpu s) (PC (cpu s) + 1)) (memory s) (stdout s)).
Proof.
  intros H. unfold fetch_byte, mem_read, code_byte. rewrite H. simpl.
  unfold in_memory, MEMORY_SIZE in H.
  apply andb_true_iff in H as [H1 H2].
  apply Z.leb_le in H1. apply Z.ltb_lt in H2.
  rewrite Z.add_0_r. unfold uint16. rewrite Z.mod_small by lia. reflexivity.
Qed.

Lemma in_memory_true (i : Z) : 0 <= i < MEMORY_SIZE -> in_memory i = true.
Proof.
  intros [H1 H2]. unfold in_memory.
  apply andb_true_iff. split; [now apply Z.leb_le | now apply Z.ltb_lt].
Qed.

Lemma fetchImmediate_inside (m : mem) (a : Z) :
  a + 1 < MEMORY_SIZE ->
  fetchImmediate m a = Ok (uint16 (Z.lor (Z.shiftl (m a) 8) (m (a + 1)))).
Proof.
  intros Ha. unfold fetchImmediate.
  destruct (a + 1 >=? MEMORY_SIZE) eqn:E; [|reflexivity].
  apply Z.geb_le in E. lia.
Qed.

Lemma fetchImmediate_outside (m : mem) (a : Z) :
  MEMORY_SIZE <= a + 1 ->
  fetchImmediate m a = Exit (Memory_access_out_of_bounds a).
Proof.
  intros Ha. unfold fetchImmediate.
  destruct (a + 1 >=? MEMORY_SIZE) eqn:E; [reflexivity|].
  rewrite Z.geb_leb in E. apply Z.leb_gt in E. lia.
Qed.

Lemma fetchImmediate_range (m : mem) (a v : Z) :
  fetchImmediate m a = Ok v -> 0 <= v < 65536.
Proof.
  unfold fetchImmediate. destruct (a + 1 >=? MEMORY_SIZE); [discriminate|].
  intros [= <-]. unfold uint16. apply Z.mod_pos_bound. lia.
Qed.

Lemma fetch_byte_at (s : machine) (k : Z) :
  0 <= PC (cpu s) + k < MEMORY_SIZE ->
  fetch_byte (at_pc s k) = Ok (code_byte s k, at_pc s (k + 1)).
Proof.
  intros H. unfold fetch_byte, mem_read, at_pc. cbn [cpu memory stdout PC set_PC].
  rewrite in_memory_true by exact H. cbn [bind].
  unfold code_byte, uint16, set_PC. cbn [REG1 REG2 ADDR1 ADDR2 PC flag_Z flag_N flag_O].
  unfold MEMORY_SIZE in H. rewrite Z.mod_small by lia.
  now rewrite Z.add_assoc.
Qed.

Lemma fetch_operand16_at (s : machine) (k : Z) :
  0 <= PC (cpu s) + k -> PC (cpu s) + k + 1 < MEMORY_SIZE ->
  fetch_operand16 (at_pc s k) =
  (immediate <- fetchImmediate (memory s) (PC (cpu s) + k) ;;
   Ok (immediate, at_pc s (k + 2))).
Proof.
  intros H0 H. unfold fetch_operand16, at_pc. cbn [cpu memory stdout PC set_PC].
  unfold uint16, set_PC. cbn [REG1 REG2 ADDR1 ADDR2 PC flag_Z flag_N flag_O].
  unfold MEMORY_SIZE in H. rewrite Z.mod_small by lia.
  now rewrite Z.add_assoc.
Qed.

Lemma step_at (s : machine) :
  in_memory (PC (cpu s)) = true ->
  step s = execute (code_byte s 0) (PC (cpu s)) (at_pc s 1).
Proof.
  intros H. unfold step. now rewrite (fetch_byte_inside s H).
Qed.

(** C10. An ADD or SUB instruction lying inside memory whose register byte
    is neither R1 nor R2 raises no error and only advances PC by 4: the
    next state is [at_pc s 4], which has the registers, the flags, the
    memory and the output of [s]. *)
Theorem add_sub_other_register_is_noop (s : machine) :
  0 <= PC (cpu s) -> PC (cpu s) + 3 < MEMORY_SIZE ->
  code_byte s 0 = ADD \/ code_byte s 0 = SUB ->
  code_byte s 1 <> R1 -> code_byte s 1 <> R2 ->
  step s = Ok (Running, at_pc s 4).
Proof.
  intros H0 H3 Hop Hr1 Hr2.
  rewrite step_at by (apply in_memory_true; lia).
  assert (Hbody : forall op, arith_immediate (at_pc s 1) op = Ok (at_pc s 4)).
  { intros op. unfold arith_immediate.
    rewrite fetch_byte_at by lia. cbn [bind].
    rewrite fetch_operand16_at by lia.
    rewrite fetchImmediate_inside by lia. cbn [bind].
    apply Z.eqb_neq in Hr1, Hr2. now rewrite Hr1, Hr2. }
  destruct Hop as [-> | ->].
  - change (execute ADD (PC (cpu s)) (at_pc s 1))
      with (s' <- arith_immediate (at_pc s 1) op_plus ;; Ok (Running, s')).
    now rewrite Hbody.
  - change (execute SUB (PC (cpu s)) (at_pc s 1))
      with (s' <- arith_immediate (at_pc s 1) op_minus ;; Ok (Running, s')).
    now rewrite Hbody.
Qed.

(** The no-op at an ADD whose register byte names A2. *)
Lemma add_sub_other_register_is_noop_witness :
  let s := boot [ADD; A2; 0; 5] in
  (0 <= PC (cpu s) /\ PC (cpu s) + 3 < MEMORY_SIZE /\
   code_byte s 0 = ADD /\ code_byte s 1 <> R1 /\ code_byte s 1 <> R2) /\
  step s = Ok (Running, at_pc s 4).
Proof.
  intros s.
  assert (H0 : 0 <= PC (cpu s)) by (vm_compute; congruence).
  assert (H3 : PC (cpu s) + 3 < MEMORY_SIZE) by (vm_compute; reflexivity).
  assert (Hop : code_byte s 0 = ADD) by (vm_compute; reflexivity).
  assert (Hr1 : code_byte s 1 <> R1) by (vm_compute; congruence).
  assert (Hr2 : code_byte s 1 <> R2) by (vm_compute; congruence).
  split; [now repeat split|].
  exact (add_sub_other_register_is_noop s H0 H3 (or_introl Hop) Hr1 Hr2).
Defined.

Lemma execute_immediate (op : operation) (pc : Z) (s : machine) :
  op = op_plus \/ op = op_minus ->
  execute (immediate_opcode op) pc s =
  (s' <- arith_immediate s op ;; Ok (Running, s')).
Proof. now intros [-> | ->]. Qed.

Lemma execute_register (op : operation) (pc : Z) (s : machine) :
  op = op_plus \/ op = op_minus ->
  execute (register_opcode op) pc s =
  (s' <- arith_register s op ;; Ok (Running, s')).
Proof. now intros [-> | ->]. Qed.

Lemma arith_immediate_data (s : machine) (op : operation) (immediate : Z) :
  op = op_plus \/ op = op_minus ->
  0 <= PC (cpu s) -> PC (cpu s) + 3 < MEMORY_SIZE ->
  is_data_register (code_byte s 1) = true ->
  fetchImmediate (memory s) (PC (cpu s) + 2) = Ok immediate ->
  arith_immediate (at_pc s 1) op =
  Ok (with_cpu s
        (arithmetic_result (cpu (at_pc s 4)) (code_byte s 1) op
           (data_register (cpu s) (code_byte s 1)) immediate)).
Proof.
  intros Hop H0 H3 Hreg Himm. unfold arith_immediate.
  rewrite fetch_byte_at by lia. cbn [bind].
  rewrite fetch_operand16_at by lia.
  replace (PC (cpu s) + (1 + 1)) with (PC (cpu s) + 2) by lia.
  rewrite Himm. cbn [bind].
  unfold is_data_register in Hreg. unfold data_register, arithmetic_result.
  destruct (code_byte s 1 =? R1) eqn:E1.
  - rewrite set_flags_spec. unfold with_cpu, at_pc, wrapped, uint16.
    destruct Hop as [-> | ->]; reflexivity.
  - simpl in Hreg. rewrite Hreg. rewrite set_flags_spec.
    unfold with_cpu, at_pc, wrapped, uint16.
    destruct Hop as [-> | ->]; reflexivity.
Qed.

Lemma arith_register_spec (s : machine) (op : operation) :
  op = op_plus \/ op = op_minus ->
  0 <= PC (cpu s) -> PC (cpu s) + 1 < MEMORY_SIZE ->
  arith_register (at_pc s 1) op =
  Ok (with_cpu s
        (arithmetic_result (cpu (at_pc s 2)) (field_low (code_byte s 1)) op
           (data_register (cpu s) (field_low (code_byte s 1)))
           (data_register (cpu s) (field_high (code_byte s 1))))).
Proof.
  intros Hop H0 H1. unfold arith_register.
  rewrite fetch_byte_at by lia. cbn [bind].
  unfold data_register, arithmetic_result, field_low, field_high.
  rewrite set_flags_spec.
  destruct (Z.land (code_byte s 1) 3 =? R1) eqn:E1;
    unfold with_cpu, at_pc, wrapped, uint16;
    destruct Hop as [-> | ->]; reflexivity.
Qed.

(** C5. An ADD or SUB on a data register, and an ADDR or SUBR on data
    registers, leave the wrapped 16-bit result in the destination, set Z
    and N from that result and set O to the signed overflow of the
    specification ([arithmetic_result]); and the program ADD R1, 32767;
    ADD R1, 1 started with R1 = 0 ends with R1 = 32768, O = 1, N = 1 and
    Z = 0. *)
Theorem arithmetic_sets_flags (s : machine) (op : operation) :
  op = op_plus \/ op = op_minus ->
  0 <= PC (cpu s) ->
  (forall immediate,
      PC (cpu s) + 3 < MEMORY_SIZE ->
      code_byte s 0 = immediate_opcode op ->
      is_data_register (code_byte s 1) = true ->
      fetchImmediate (memory s) (PC (cpu s) + 2) = Ok immediate ->
      step s =
      Ok (Running,
          with_cpu s
            (arithmetic_result (cpu (at_pc s 4)) (code_byte s 1) op
               (data_register (cpu s) (code_byte s 1)) immediate)))
  /\
  (PC (cpu s) + 1 < MEMORY_SIZE ->
   code_byte s 0 = register_opcode op ->
   is_data_register (field_low (code_byte s 1)) = true ->
   is_data_register (field_high (code_byte s 1)) = true ->
   step s =
   Ok (Running,
       with_cpu s
         (arithmetic_result (cpu (at_pc s 2)) (field_low (code_byte s 1)) op
            (data_register (cpu s) (field_low (code_byte s 1)))
            (data_register (cpu s) (field_high (code_byte s 1))))))
  /\
  final_cpu (svm_main 3 (fst (sasm_main overflow_program))) =
  Some (mkCPU 32768 0 0 0 9 0 1 1).
Proof.
  intros Hop H0. split; [|split].
  - intros immediate H3 Hcode Hreg Himm.
    rewrite step_at by (apply in_memory_true; lia).
    rewrite Hcode, execute_immediate by exact Hop.
    now rewrite (arith_immediate_data s op immediate).
  - intros H1 Hcode _ _.
    rewrite step_at by (apply in_memory_true; lia).
    rewrite Hcode, execute_register by exact Hop.
    now rewrite arith_register_spec.
  - vm_compute. reflexivity.
Qed.

Lemma arithmetic_sets_flags_witness :
  let s := between_additions in
  (0 <= PC (cpu s) /\ PC (cpu s) + 3 < MEMORY_SIZE /\
   code_byte s 0 = ADD /\ code_byte s 1 = R1 /\
   fetchImmediate (memory s) (PC (cpu s) + 2) = Ok 1) /\
  exists s',
    step s = Ok (Running, s') /\
    REG1 (cpu s') = 32768 /\
    flag_O (cpu s') = 1 /\ flag_N (cpu s') = 1 /\ flag_Z (cpu s') = 0.
Proof.
  intros s. split.
  - repeat split; vm_compute; congruence.
  - eexists. split.
    + apply (proj1 (arithmetic_sets_flags s op_plus (or_introl eq_refl)
                      ltac:(vm_compute; congruence)) 1).
      * vm_compute. reflexivity.
      * vm_compute. reflexivity.
      * vm_compute. reflexivity.
      * vm_compute. reflexivity.
    + vm_compute. repeat split.
Defined.

Lemma load_program_from_spec (stream : list Z) :
  forall (a : Z) (m : mem) (i : Z),
    0 <= a <= MEMORY_SIZE ->
    load_program_from a stream m i =
    if (a <=? i) && (i <? Z.min (a + Z.of_nat (List.length stream)) MEMORY_SIZE)
    then uint8 (nth (Z.to_nat (i - a)) stream 0)
    else m i.
Proof.
  unfold MEMORY_SIZE.
  induction stream as [|byte rest IH]; intros a m i Ha.
  - simpl. rewrite Z.add_0_r.
    destruct (Z.leb_spec a i), (Z.ltb_spec i (Z.min a 32768)); simpl; try reflexivity; lia.
  - cbn [load_program_from]. unfold MEMORY_SIZE.
    destruct (Z.ltb_spec a 32768) as [Hlt | Hge].
    + unfold uint16. rewrite (Z.mod_small (a + 1)) by lia.
      rewrite IH by lia. unfold mem_set.
      rewrite length_cons, Nat2Z.inj_succ.
      replace (a + 1 + Z.of_nat (List.length rest))
        with (a + Z.succ (Z.of_nat (List.length rest))) by lia.
      destruct (Z.ltb_spec i (Z.min (a + Z.succ (Z.of_nat (List.length rest))) 32768)) as [Hi | Hi];
        destruct (Z.leb_spec (a + 1) i) as [Hs | Hs];
        destruct (Z.leb_spec a i) as [Hl | Hl];
        destruct (Z.eqb_spec i a) as [He | He];
        try lia; cbn [andb]; try reflexivity.
      * replace (Z.to_nat (i - a)) with (S (Z.to_nat (i - (a + 1)))) by lia.
        reflexivity.
      * subst i. now rewrite Z.sub_diag.
    + destruct (Z.leb_spec a i), (Z.ltb_spec i (Z.min (a + Z.of_nat (List.length (byte :: rest))) 32768));
        simpl; try reflexivity; lia.
Qed.

(** C9. The loader copies the stream into memory from address 0 and
    stops at the capacity: cell [i] below the length of the stream and
    below 32768 receives byte [i], every other cell keeps its content, so
    a stream of exactly 32768 bytes is loaded whole and a longer one gives
    the same memory as its first 32768 bytes; [load_program] is total, it
    has no error result. *)
Theorem load_program_truncates (stream : list Z) (m : mem) (i : Z) :
  load_program stream m i =
    (if (0 <=? i) && (i <? Z.min (Z.of_nat (List.length stream)) MEMORY_SIZE)
     then uint8 (nth (Z.to_nat i) stream 0)
     else m i)
  /\ load_program stream m i
     = load_program (firstn (Z.to_nat MEMORY_SIZE) stream) m i.
Proof.
  assert (H : forall st,
    load_program st m i =
    if (0 <=? i) && (i <? Z.min (Z.of_nat (List.length st)) MEMORY_SIZE)
    then uint8 (nth (Z.to_nat i) st 0) else m i).
  { intros st. unfold load_program.
    rewrite load_program_from_spec by (unfold MEMORY_SIZE; lia).
    now rewrite Z.sub_0_r. }
  split; [apply H|].
  rewrite (H stream), (H (firstn (Z.to_nat MEMORY_SIZE) stream)).
  assert (Hn : Z.of_nat (Z.to_nat MEMORY_SIZE) = MEMORY_SIZE)
    by (apply Z2Nat.id; unfold MEMORY_SIZE; lia).
  revert Hn. generalize (Z.to_nat MEMORY_SIZE) as n. intros n Hn.
  rewrite length_firstn, Nat2Z.inj_min, Hn.
  replace (Z.min (Z.min MEMORY_SIZE (Z.of_nat (List.length stream))) MEMORY_SIZE)
    with (Z.min (Z.of_nat (List.length stream)) MEMORY_SIZE) by lia.
  destruct (Z.leb_spec 0 i); [|reflexivity].
  destruct (Z.ltb_spec i (Z.min (Z.of_nat (List.length stream)) MEMORY_SIZE));
    [|reflexivity].
  cbn [andb]. f_equal.
  rewrite <- (firstn_skipn n stream) at 1.
  rewrite app_nth1; [reflexivity|].
  rewrite length_firstn. lia.
Qed.

(** Whatever the state, a store of a 16-bit value at an address at or
    beyond the end of memory reaches [memory[address]] untested. *)
Lemma store16_outside (s : machine) (a v : Z) :
  MEMORY_SIZE <= a -> store16 s a v = Undef (Write_outside a).
Proof.
  intros H. unfold store16, mem_write, in_memory.
  destruct (Z.ltb_spec a MEMORY_SIZE); [lia|].
  now rewrite andb_false_r.
Qed.

(** C1. A store at or beyond the end of memory is not diagnosed: STORE to
    32768, STORE to 32767 (whose second byte falls on 32768) and STOREI
    through an address register holding 40000 each index [memory] outside
    the array without any test, where a 16-bit read from the same address
    exits with the out-of-bounds diagnostic. *)
Theorem stores_outside_memory_are_not_diagnosed :
  ending (svm_main 3 (fst (sasm_main store_beyond_program)))
    = Some (Undef (Write_outside 32768)) /\
  ending (svm_main 3 (fst (sasm_main store_straddling_program)))
    = Some (Undef (Write_outside 32768)) /\
  ending (svm_main 3 (fst (sasm_main storei_beyond_program)))
    = Some (Undef (Write_outside 40000)) /\
  ending (svm_main 3 (fst (sasm_main loadi_beyond_program)))
    = Some (Exit (Memory_access_out_of_bounds 40000)).
Proof. repeat split; vm_compute; reflexivity. Qed.

Lemma field_cases (b : Z) :
  Z.land b 0x03 = R2 \/ Z.land b 0x03 = R1 \/
  Z.land b 0x03 = A2 \/ Z.land b 0x03 = A1.
Proof.
  change 0x03 with (Z.ones 2). rewrite Z.land_ones by lia.
  unfold R1, R2, A1, A2.
  pose proof (Z.mod_pos_bound b (2 ^ 2) ltac:(lia)). lia.
Qed.

Lemma accepts_bind {A B : Type} (r : vm A) (k : A -> vm B) :
  accepts_registers r -> (forall a, accepts_registers (k a)) ->
  accepts_registers (bind r k).
Proof. destruct r; simpl; auto. Qed.

Lemma accepts_fetch_byte (s : machine) : accepts_registers (fetch_byte s).
Proof.
  unfold fetch_byte, mem_read. now destruct (in_memory _).
Qed.

Lemma accepts_fetchImmediate (m : mem) (a : Z) :
  accepts_registers (fetchImmediate m a).
Proof. unfold fetchImmediate. now destruct (_ >=? _). Qed.

Lemma accepts_fetch_operand16 (s : machine) :
  accepts_registers (fetch_operand16 s).
Proof.
  unfold fetch_operand16. apply accepts_bind; [apply accepts_fetchImmediate|].
  now intros.
Qed.

Lemma accepts_mem_read (m : mem) (a : Z) : accepts_registers (mem_read m a).
Proof. unfold mem_read. now destruct (in_memory _). Qed.

Lemma accepts_store16 (s : machine) (a v : Z) : accepts_registers (store16 s a v).
Proof.
  unfold store16, mem_write.
  destruct (in_memory a); [|exact I]. cbn [bind].
  now destruct (in_memory (a + 1)).
Qed.

Lemma address_register_field (c : CPU) (b : Z) (d : diagnostic) :
  exists v, address_register c (Z.land b 0x03) d = Ok v.
Proof.
  unfold address_register.
  destruct (field_cases b) as [-> | [-> | [-> | ->]]]; simpl; eauto.
Qed.

Lemma load_register_field (s : machine) (b v : Z) (otherwise : vm machine) :
  exists s', load_register s (Z.land b 0x03) v otherwise = Ok s'.
Proof.
  unfold load_register.
  destruct (field_cases b) as [-> | [-> | [-> | ->]]]; simpl; eauto.
Qed.

Lemma accepts_load_register (s : machine) (reg v : Z) :
  accepts_registers (load_register s reg v (Ok s)).
Proof.
  unfold load_register.
  now destruct (reg =? R1), (reg =? R2), (reg =? A1), (reg =? A2).
Qed.

Lemma accepts_arith_immediate (s : machine) (op : operation) :
  accepts_registers (arith_immediate s op).
Proof.
  unfold arith_immediate.
  apply accepts_bind; [apply accepts_fetch_byte | intros [reg s1]].
  apply accepts_bind; [apply accepts_fetch_operand16 | intros [imm s2]].
  now destruct (reg =? R1), (reg =? R2).
Qed.

Lemma accepts_arith_register (s : machine) (op : operation) :
  accepts_registers (arith_register s op).
Proof.
  unfold arith_register.
  apply accepts_bind; [apply accepts_fetch_byte | now intros [reg s1]].
Qed.

Ltac accepts_step :=
  first
    [ exact I
    | reflexivity
    | apply accepts_fetch_byte
    | apply accepts_fetch_operand16
    | apply accepts_fetchImmediate
    | apply accepts_mem_read
    | apply accepts_store16
    | apply accepts_load_register
    | apply accepts_arith_immediate
    | apply accepts_arith_register
    | apply accepts_bind; [| intros ]
    | match goal with
      | p : (_ * _)%type |- _ => destruct p
      | |- accepts_registers (if ?b then _ else _) => destruct b
      | |- accepts_registers (let _ := _ in _) => cbv zeta
      end ].

Lemma accepts_execute (opcode pc : Z) (s : machine) :
  accepts_registers (execute opcode pc s).
Proof.
  unfold execute.
  destruct (opcode =? HALT); [exact I|].
  destruct (opcode =? LOAD); [repeat accepts_step|].
  destruct (opcode =? LOADI).
  { apply accepts_bind; [apply accepts_fetch_byte | intros [reg_byte s1]].
    cbv zeta.
    destruct (address_register_field (cpu s1) (Z.shiftr reg_byte 6)
                (Invalid_address_register_in_LOADI
                   (Z.land (Z.shiftr reg_byte 6) 3))) as [v ->].
    cbn [bind].
    apply accepts_bind; [apply accepts_fetchImmediate | intros value].
    destruct (load_register_field s1 reg_byte value
                (Exit (Invalid_destination_register_in_LOADI
                         (Z.land reg_byte 3)))) as [s2 ->].
    exact I. }
  destruct (opcode =? STORE); [repeat accepts_step|].
  destruct (opcode =? STOREI).
  { apply accepts_bind; [apply accepts_fetch_byte | intros [reg_byte s1]].
    cbv zeta.
    destruct (address_register_field (cpu s1) (Z.shiftr reg_byte 6)
                (Invalid_address_register_in_STOREI
                   (Z.land (Z.shiftr reg_byte 6) 3))) as [v ->].
    cbn [bind].
    apply accepts_bind; [| intros; repeat accepts_step].
    destruct (field_cases reg_byte) as [-> | [-> | [-> | ->]]]; exact I. }
  repeat accepts_step.
Qed.

Lemma accepts_step_total (s : machine) : accepts_registers (step s).
Proof.
  unfold step. apply accepts_bind; [apply accepts_fetch_byte|].
  intros [opcode s1]. apply accepts_execute.
Qed.

(** C2, as the code has it. No instruction ever exits on a diagnostic
    that rejects a register code: each 2-bit field of the packed byte of
    LOADI and STOREI names one of the four registers.  ADDR and SUBR test
    nothing: whenever the opcode and the packed byte lie inside memory
    they execute, a field equal to R1 standing for REG1 and any other
    code for REG2. *)
Theorem register_codes_are_never_rejected (s : machine) (op : operation) :
  accepts_registers (step s) /\
  (op = op_plus \/ op = op_minus ->
   0 <= PC (cpu s) -> PC (cpu s) + 1 < MEMORY_SIZE ->
   code_byte s 0 = register_opcode op ->
   step s =
   Ok (Running,
       with_cpu s
         (arithmetic_result (cpu (at_pc s 2)) (field_low (code_byte s 1)) op
            (data_register (cpu s) (field_low (code_byte s 1)))
            (data_register (cpu s) (field_high (code_byte s 1)))))).
Proof.
  split; [apply accepts_step_total|].
  intros Hop H0 H1 Hcode.
  rewrite step_at by (apply in_memory_true; lia).
  rewrite Hcode, execute_register by exact Hop.
  now rewrite arith_register_spec.
Qed.

Lemma register_codes_are_never_rejected_witness :
  let s := before_aliasing in
  (0 <= PC (cpu s) /\ PC (cpu s) + 1 < MEMORY_SIZE /\
   code_byte s 0 = ADDR /\ code_byte s 1 = 0xC3) /\
  exists s',
    step s = Ok (Running, s') /\
    REG1 (cpu s') = 0 /\ REG2 (cpu s') = 10 /\
    ADDR1 (cpu s') = 7 /\ ADDR2 (cpu s') = 0 /\ PC (cpu s') = 10.
Proof.
  intros s. split.
  - repeat split; vm_compute; congruence.
  - eexists. split.
    + apply (proj2 (register_codes_are_never_rejected s op_plus)
               (or_introl eq_refl)).
      * vm_compute. congruence.
      * vm_compute. reflexivity.
      * vm_compute. reflexivity.
    + vm_compute. repeat split.
Defined.

(** Counterexample to C2: [ADDR A1, A1] is assembled into the packed byte 0xC3, whose
    two fields name the address register A1 and no data register; the
    machine executes it without a diagnostic, adding REG2 to itself, and
    runs on to HALT. *)
Lemma addr_runs_on_address_register_codes :
  fst (sasm_main aliasing_program)
    = [LOAD; R2; 0; 5; LOAD; A1; 0; 7; ADDR; 0xC3; HALT] /\
  is_data_register (field_low 0xC3) = false /\
  is_data_register (field_high 0xC3) = false /\
  final_cpu (svm_main 4 (fst (sasm_main aliasing_program)))
    = Some (mkCPU 0 10 7 0 11 0 0 0).
Proof. repeat split; vm_compute; reflexivity. Qed.

(* ================================================================= *)
(** * Properties of the assembler *)

(** ** Scanning *)

Lemma skip_space_head (s : string) (c : ascii) (r : string) :
  skip_space s = String c r -> isspace c = false.
Proof.
  induction s as [|d s IH]; simpl; [discriminate|].
  destruct (isspace d) eqn:E; [exact IH|].
  now intros [= <- <-].
Qed.

Lemma skip_space_fixed (c : ascii) (r : string) :
  isspace c = false -> skip_space (String c r) = String c r.
Proof. intros H. simpl. now rewrite H. Qed.

Lemma skip_space_idem (s : string) : skip_space (skip_space s) = skip_space s.
Proof.
  destruct (skip_space s) as [|c r] eqn:E; [reflexivity|].
  apply skip_space_fixed. exact (skip_space_head s c r E).
Qed.

Lemma scan_word_skip (s : string) : scan_word (skip_space s) = scan_word s.
Proof. unfold scan_word. now rewrite skip_space_idem. Qed.

Lemma sscanf_word_first (s : string) :
  sscanf_word s = match first_word s with Some a => [a] | None => [] end.
Proof.
  unfold sscanf_word, first_word. rewrite scan_word_skip.
  now destruct (scan_word s) as [[a r]|].
Qed.

(** A text that begins with a character other than whitespace has a
    first word. *)
Lemma first_word_exists (c : ascii) (r : string) :
  isspace c = false -> exists w, first_word (String c r) = Some w.
Proof.
  intros H. unfold first_word, scan_word. rewrite skip_space_fixed by exact H.
  simpl. rewrite H. simpl.
  destruct (span (fun c0 => negb (isspace c0)) r) as [tok tail]. simpl. eauto.
Qed.

Lemma trim_whitespace_head (s : string) :
  trim_whitespace s = EmptyString \/
  exists c r, trim_whitespace s = String c r /\ isspace c = false.
Proof.
  unfold trim_whitespace. destruct (skip_space s) as [|c r] eqn:E; [now left|].
  right. exists c, (drop_trailing_space r). split; [reflexivity|].
  exact (skip_space_head s c r E).
Qed.

Lemma sscanf_word_rest_cases (l : string) :
  match sscanf_word_rest l with
  | [] => first_word l = None
  | [w] => first_word l = Some w
  | [w; rest] =>
      first_word l = Some w /\ exists m, first_word rest = Some m
  | _ => False
  end.
Proof.
  unfold sscanf_word_rest, first_word.
  destruct (scan_word l) as [[w s1]|]; [|reflexivity]. simpl.
  unfold scan_until, nonempty.
  destruct (skip_space s1) as [|c r] eqn:E; [reflexivity|].
  pose proof (skip_space_head s1 c r E) as Hc.
  simpl. destruct (negb (Ascii.eqb c "010")); [|reflexivity].
  destruct (span (fun d => negb (Ascii.eqb d "010")) r) as [tok tail]. simpl.
  split; [reflexivity|].
  exact (first_word_exists c tok Hc).
Qed.

(** ** First pass *)

Lemma streq_eq (a b : string) : streq a b = true -> a = b.
Proof. apply String.eqb_eq. Qed.

Ltac split_tests H :=
  cbn [existsb] in H;
  repeat match type of H with
         | (_ || _) = false => apply orb_false_iff in H; destruct H as [? H]
         end.

Ltac use_tests :=
  repeat match goal with
         | E : streq ?m ?k = false |- context [streq ?m ?k] => rewrite E
         end.

(** The two ladders of [first_pass] are the length table. *)
Lemma sizes_agree (m : string) :
  size_two_fields m = mnemonic_length m /\ size_one_field m = mnemonic_length m.
Proof.
  destruct (is_instruction m) eqn:E.
  - apply existsb_exists in E. destruct E as [k [Hin Hk]].
    apply streq_eq in Hk. subst k. simpl in Hin.
    repeat (destruct Hin as [<- | Hin]; [split; reflexivity|]).
    contradiction.
  - unfold is_instruction in E. split_tests E.
    unfold size_two_fields, size_one_field, mnemonic_length, four_bytes, two_bytes.
    cbn [existsb]. use_tests. split; reflexivity.
Qed.

Lemma mnemonic_length_known (m : string) :
  is_instruction m = true <-> mnemonic_length m <> None.
Proof.
  destruct (is_instruction m) eqn:E.
  - split; [intros _|reflexivity].
    apply existsb_exists in E. destruct E as [k [Hin Hk]].
    apply streq_eq in Hk. subst k. simpl in Hin.
    repeat (destruct Hin as [<- | Hin]; [discriminate|]).
    contradiction.
  - split; [discriminate|]. intros H. exfalso. apply H.
    unfold is_instruction in E. split_tests E.
    unfold mnemonic_length. cbn [existsb]. use_tests. reflexivity.
Qed.

Lemma advance_spec (size : string -> option Z) (s : string) (lc : Z)
  (tbl : symbol_table) (kept : string) (m : string) :
  first_word s = Some m ->
  advance size s lc tbl kept =
  match size m with
  | Some n => Ok (mkPass1 (uint16 (lc + n)) tbl kept (Some lc))
  | None => Exit (Unknown_instruction_in_first_pass m)
  end.
Proof. intros H. unfold advance. now rewrite sscanf_word_first, H. Qed.

(** One iteration of [first_pass] in terms of the label and the mnemonic
    of the line. *)
Lemma first_pass_line_spec (lc : Z) (tbl : symbol_table) (line : string) :
  first_pass_line lc tbl line =
  match mnemonic_of line with
  | None => Ok (mkPass1 lc tbl line None)
  | Some m =>
      tbl' <- match label_of line with
              | Some name => add_label tbl name lc
              | None => Ok tbl
              end ;;
      match mnemonic_length m with
      | Some n =>
          Ok (mkPass1 (uint16 (lc + n)) tbl' (second_pass_input line) (Some lc))
      | None => Exit (Unknown_instruction_in_first_pass m)
      end
  end.
Proof.
  unfold first_pass_line, mnemonic_of, label_of, second_pass_input.
  set (l := trim_whitespace (strip_comments line)).
  pose proof (sscanf_word_rest_cases l) as Hc.
  destruct (trim_whitespace_head (strip_comments line)) as [He | [c [r [He Hsp]]]];
    fold l in He.
  - rewrite He in *. reflexivity.
  - assert (Hlen : (String.length l =? 0)%nat = false) by now rewrite He.
    rewrite Hlen.
    destruct (sscanf_word_rest l) as [|w [|rest [|x xs]]].
    + rewrite He in Hc. destruct (first_word_exists c r Hsp) as [w Hw].
      congruence.
    + rewrite Hc. cbn [bind].
      rewrite (advance_spec _ l lc tbl line w Hc).
      now rewrite (proj2 (sizes_agree w)).
    + destruct Hc as [Hw [m Hm]].
      destruct (is_instruction w) eqn:Ei; cbn [negb bind].
      * rewrite (advance_spec _ l lc tbl l w Hw).
        now rewrite (proj1 (sizes_agree w)).
      * rewrite Hm. destruct (add_label tbl w lc) as [tbl'| |]; cbn [bind];
          try reflexivity.
        rewrite (advance_spec _ rest lc tbl' rest m Hm).
        now rewrite (proj1 (sizes_agree m)).
    + contradiction.
Qed.

Lemma span_no_space (s : string) :
  no_space s = true ->
  span (fun c => negb (isspace c)) s = (s, EmptyString).
Proof.
  induction s as [|c s IH]; simpl; [reflexivity|].
  intros H. apply andb_true_iff in H. destruct H as [Hc Hs].
  now rewrite Hc, (IH Hs).
Qed.

(** A token alone on its line is the only field [sscanf] stores. *)
Lemma sscanf_word_rest_lone (token : string) :
  token <> EmptyString -> no_space token = true ->
  sscanf_word_rest token = [token] /\ first_word token = Some token.
Proof.
  intros Hne Hns. destruct token as [|c r]; [contradiction|].
  pose proof Hns as Hc. simpl in Hc. apply andb_true_iff in Hc.
  destruct Hc as [Hc _]. apply negb_true_iff in Hc.
  unfold sscanf_word_rest, first_word, scan_word.
  rewrite (skip_space_fixed c r Hc), (span_no_space _ Hns). simpl.
  split; reflexivity.
Qed.

Lemma add_label_cases (tbl : symbol_table) (name : string) (addr : Z) :
  add_label tbl name addr = Exit Symbol_table_overflow \/
  add_label tbl name addr = Ok (tbl ++ [mkLabel name addr]).
Proof. unfold add_label. destruct (_ <=? _)%nat; auto. Qed.

(** The table that an accepted line leaves: one entry more exactly when
    the line bears a label. *)
Lemma first_pass_line_table (lc : Z) (tbl : symbol_table) (line : string)
  (r : pass1) :
  first_pass_line lc tbl line = Ok r ->
  table r = match label_of line with
            | Some name => tbl ++ [mkLabel name lc]
            | None => tbl
            end.
Proof.
  rewrite first_pass_line_spec.
  destruct (mnemonic_of line) as [m|] eqn:Em.
  - destruct (label_of line) as [name|].
    + destruct (add_label_cases tbl name lc) as [-> | ->]; cbn [bind];
        [discriminate|].
      destruct (mnemonic_length m); [|discriminate]. now intros [= <-].
    + cbn [bind]. destruct (mnemonic_length m); [|discriminate].
      now intros [= <-].
  - intros [= <-]. cbn [table].
    unfold mnemonic_of, label_of in *.
    pose proof (sscanf_word_rest_cases (trim_whitespace (strip_comments line))) as Hc.
    destruct (sscanf_word_rest _) as [|w [|rest [|x xs]]]; try reflexivity.
    destruct (is_instruction w); [reflexivity|].
    destruct Hc as [_ [m Hm]]. congruence.
Qed.

(** C8. A line that, once its comment is stripped and it is trimmed, is
    a single token other than a reserved mnemonic bears no label: the
    first pass registers nothing and exits on the token as an unknown
    instruction.  A label is registered only for a line on which
    [sscanf] stores the token and further content after it. *)
Theorem lone_token_is_not_a_label (lc : Z) (tbl : symbol_table)
  (line token : string) :
  trim_whitespace (strip_comments line) = token ->
  token <> EmptyString -> no_space token = true ->
  is_instruction token = false ->
  label_of line = None /\
  first_pass_line lc tbl line = Exit (Unknown_instruction_in_first_pass token) /\
  (forall line' r,
      first_pass_line lc tbl line' = Ok r ->
      table r = tbl \/
      exists name rest m,
        sscanf_word_rest (trim_whitespace (strip_comments line')) = [name; rest]
        /\ first_word rest = Some m
        /\ table r = tbl ++ [mkLabel name lc]).
Proof.
  intros Hl Hne Hns Hins.
  destruct (sscanf_word_rest_lone token Hne Hns) as [Hs Hw].
  assert (Hlab : label_of line = None) by (unfold label_of; now rewrite Hl, Hs).
  split; [exact Hlab|]. split.
  - rewrite first_pass_line_spec, Hlab. unfold mnemonic_of.
    rewrite Hl, Hs, Hw. cbn [bind].
    destruct (mnemonic_length token) eqn:E; [|reflexivity].
    assert (is_instruction token = true)
      by (apply mnemonic_length_known; congruence).
    congruence.
  - intros line' r Hr. rewrite (first_pass_line_table _ _ _ _ Hr).
    unfold label_of.
    pose proof (sscanf_word_rest_cases (trim_whitespace (strip_comments line'))) as Hc.
    destruct (sscanf_word_rest (trim_whitespace (strip_comments line')))
      as [|w [|rest [|x xs]]];
      [now left | now left | | contradiction].
    destruct (is_instruction w); [now left|].
    destruct Hc as [_ [m Hm]]. right. now exists w, rest, m.
Qed.

Lemma lone_token_is_not_a_label_witness :
  (trim_whitespace (strip_comments "  loop   # alone") = "loop" /\
   "loop" <> EmptyString /\ no_space "loop" = true /\
   is_instruction "loop" = false)%string /\
  label_of "  loop   # alone" = None /\
  first_pass_line 0 [] "  loop   # alone"
    = Exit (Unknown_instruction_in_first_pass "loop").
Proof.
  assert (H1 : trim_whitespace (strip_comments "  loop   # alone") = "loop"%string)
    by (vm_compute; reflexivity).
  assert (H2 : "loop"%string <> EmptyString) by (vm_compute; congruence).
  assert (H3 : no_space "loop" = true) by (vm_compute; reflexivity).
  assert (H4 : is_instruction "loop" = false) by (vm_compute; reflexivity).
  split; [now repeat split|].
  destruct (lone_token_is_not_a_label 0 [] _ _ H1 H2 H3 H4) as [Ha [Hb _]].
  split; [exact Ha | exact Hb].
Defined.

(** An iteration of [first_pass] ends normally or on one of the two
    diagnostics of the pass; an unknown mnemonic always ends it on one. *)
Lemma first_pass_line_outcome (lc : Z) (tbl : symbol_table) (line : string) :
  match first_pass_line lc tbl line with
  | Ok r =>
      match mnemonic_of line with
      | Some m => is_instruction m = true
      | None => True
      end
  | Exit d => first_pass_diagnostic d
  | Undef _ => False
  end.
Proof.
  rewrite first_pass_line_spec.
  destruct (mnemonic_of line) as [m|]; [|exact I].
  assert (Hm : match mnemonic_length m with
               | Some _ => is_instruction m = true
               | None => is_instruction m = false
               end).
  { pose proof (mnemonic_length_known m) as Hk.
    destruct (mnemonic_length m).
    - apply Hk. discriminate.
    - destruct (is_instruction m); [|reflexivity].
      exfalso. now apply (proj1 Hk). }
  destruct (label_of line) as [name|].
  - destruct (add_label_cases tbl name lc) as [-> | ->]; cbn [bind].
    + now left.
    + destruct (mnemonic_length m); [exact Hm|]. right. now exists m.
  - cbn [bind]. destruct (mnemonic_length m); [exact Hm|]. right. now exists m.
Qed.

Lemma first_pass_from_unknown (lines : list string) (line m : string) :
  In line lines -> mnemonic_of line = Some m -> is_instruction m = false ->
  forall lc tbl,
  exists d, first_pass_from lc tbl lines = Exit d /\ first_pass_diagnostic d.
Proof.
  intros Hin Hm Hins.
  induction lines as [|l rest IH]; [contradiction|].
  intros lc tbl. cbn [first_pass_from].
  pose proof (first_pass_line_outcome lc tbl l) as Ho.
  destruct (first_pass_line lc tbl l) as [r|d|u]; cbn [bind].
  - destruct Hin as [-> | Hin].
    + rewrite Hm in Ho. congruence.
    + destruct (IH Hin (location_counter r) (table r)) as [d [Hd Hk]].
      rewrite Hd. cbn [bind]. now exists d.
  - now exists d.
  - contradiction.
Qed.

(** C7. A program that has a line whose mnemonic is not a reserved one is
    rejected in the first pass, on one of the diagnostics of that pass,
    and the run of the assembler has written no byte. *)
Theorem unknown_mnemonic_aborts_first_pass (lines : list string)
  (line m : string) :
  In line lines -> mnemonic_of line = Some m -> is_instruction m = false ->
  exists d,
    first_pass lines = Exit d /\ first_pass_diagnostic d /\
    sasm_main lines = ([], Exit d).
Proof.
  intros Hin Hm Hins.
  destruct (first_pass_from_unknown lines line m Hin Hm Hins 0 [])
    as [d [Hd Hk]].
  exists d. unfold sasm_main, first_pass in *. now rewrite Hd.
Qed.

Lemma unknown_mnemonic_aborts_first_pass_witness :
  (In "start FOO R1" unknown_mnemonic_program /\
   mnemonic_of "start FOO R1" = Some "FOO" /\
   is_instruction "FOO" = false)%string /\
  sasm_main unknown_mnemonic_program
    = ([], Exit (Unknown_instruction_in_first_pass "FOO")).
Proof.
  assert (H1 : In "start FOO R1"%string unknown_mnemonic_program)
    by (right; left; reflexivity).
  assert (H2 : mnemonic_of "start FOO R1" = Some "FOO"%string)
    by (vm_compute; reflexivity).
  assert (H3 : is_instruction "FOO" = false) by (vm_compute; reflexivity).
  split; [now repeat split|].
  destruct (unknown_mnemonic_aborts_first_pass _ _ _ H1 H2 H3)
    as [d [Hd [_ Hs]]].
  rewrite Hs. vm_compute in Hd. now injection Hd as <-.
Defined.

(** ** Symbol table *)

Lemma first_pass_from_labels (lines : list string) :
  forall lc tbl lc' tbl' lines' addresses,
    first_pass_from lc tbl lines = Ok (lc', tbl', lines', addresses) ->
    map label tbl' = map label tbl ++ labels_of lines.
Proof.
  induction lines as [|l rest IH]; intros lc tbl lc' tbl' lines' addresses.
  - cbn. intros [= _ <- _ _]. now rewrite app_nil_r.
  - cbn [first_pass_from labels_of].
    destruct (first_pass_line lc tbl l) as [r| |] eqn:Er; cbn [bind];
      try discriminate.
    destruct (first_pass_from (location_counter r) (table r) rest)
      as [[[[lc1 tbl1] lines1] addr1]| |] eqn:Ef; cbn [bind]; try discriminate.
    intros [= _ <- _ _].
    rewrite (IH _ _ _ _ _ _ Ef), (first_pass_line_table _ _ _ _ Er).
    destruct (label_of l) as [name|]; [|reflexivity].
    rewrite map_app, <- app_assoc. reflexivity.
Qed.

Lemma find_label_first (tbl : symbol_table) (name : string) :
  find_label tbl name =
  option_map address (find (fun e => streq (label e) name) tbl).
Proof.
  induction tbl as [|e tbl IH]; [reflexivity|].
  simpl. now destruct (streq (label e) name).
Qed.

(** C3, as the code has it. The symbol table of an accepted program holds
    one entry for each label-bearing line, in source order, whatever the
    names: no test for duplicates is made.  [find_label] resolves a name
    to the earliest entry that bears it. *)
Theorem symbol_table_lists_every_label (lines : list string) (lc : Z)
  (tbl : symbol_table) (lines' : list string) (addresses : list (option Z)) :
  first_pass lines = Ok (lc, tbl, lines', addresses) ->
  map label tbl = labels_of lines /\
  forall name,
    find_label tbl name =
    option_map address (find (fun e => streq (label e) name) tbl).
Proof.
  intros H. split.
  - exact (first_pass_from_labels lines 0 [] lc tbl lines' addresses H).
  - intros name. apply find_label_first.
Qed.

Lemma symbol_table_lists_every_label_witness :
  first_pass duplicate_label_program
    = Ok (5, [mkLabel "x" 0; mkLabel "x" 4], ["LOAD R1, 1"; "HALT"]%string,
          [Some 0; Some 4]) /\
  map label [mkLabel "x" 0; mkLabel "x" 4] = labels_of duplicate_label_program /\
  find_label [mkLabel "x" 0; mkLabel "x" 4] "x" = Some 0.
Proof.
  assert (H : first_pass duplicate_label_program
              = Ok (5, [mkLabel "x" 0; mkLabel "x" 4],
                    ["LOAD R1, 1"; "HALT"]%string, [Some 0; Some 4]))
    by (vm_compute; reflexivity).
  split; [exact H|].
  destruct (symbol_table_lists_every_label _ _ _ _ _ H) as [Hl Hf].
  split; [exact Hl|]. rewrite Hf. vm_compute. reflexivity.
Defined.

(** Counterexample to C3: a program that defines the label [x] on two lines is
    accepted, both entries are in the symbol table after the first pass,
    and the run of the assembler ends normally. *)
Lemma duplicate_labels_are_accepted :
  exists lc tbl lines' addresses,
    first_pass duplicate_label_program = Ok (lc, tbl, lines', addresses) /\
    snd (sasm_main duplicate_label_program) = Ok tt /\
    ~ NoDup (map label tbl).
Proof.
  exists 5, [mkLabel "x" 0; mkLabel "x" 4], ["LOAD R1, 1"; "HALT"]%string,
    [Some 0; Some 4].
  split; [vm_compute; reflexivity|]. split; [vm_compute; reflexivity|].
  simpl. intros H. inversion H as [|? ? Hn _]. apply Hn. now left.
Qed.

(** ** Second pass *)

Ltac one_of H :=
  repeat match type of H with
         | (_ || _) = true => apply orb_true_iff in H; destruct H as [H | H]
         end;
  first [discriminate H | apply streq_eq in H; subst].

(** *** Literal operands *)

Lemma high_byte (v : Z) : Z.land (Z.shiftr v 8) 0xFF = (v / 256) mod 256.
Proof.
  change 0xFF with (Z.ones 8). rewrite Z.land_ones by lia.
  rewrite Z.shiftr_div_pow2 by lia. reflexivity.
Qed.

Lemma low_byte (v : Z) : Z.land v 0xFF = v mod 256.
Proof. change 0xFF with (Z.ones 8). now rewrite Z.land_ones by lia. Qed.

Lemma atoi_digits_acc (d : Decimal.uint) :
  forall acc : positive,
    atoi_digits (Z.pos acc) (NilEmpty.string_of_uint d)
    = Z.pos (Pos.of_uint_acc d acc).
Proof.
  induction d as [|d IH|d IH|d IH|d IH|d IH|d IH|d IH|d IH|d IH|d IH];
    intros acc; [reflexivity|..];
    cbn [NilEmpty.string_of_uint atoi_digits Pos.of_uint_acc];
    change (digit _) with (Some 0) || change (digit _) with (Some 1)
    || change (digit _) with (Some 2) || change (digit _) with (Some 3)
    || change (digit _) with (Some 4) || change (digit _) with (Some 5)
    || change (digit _) with (Some 6) || change (digit _) with (Some 7)
    || change (digit _) with (Some 8) || change (digit _) with (Some 9);
    rewrite <- IH; f_equal; lia.
Qed.

Lemma atoi_digits_uint (d : Decimal.uint) :
  atoi_digits 0 (NilEmpty.string_of_uint d) = Z.of_uint d.
Proof.
  unfold Z.of_uint.
  induction d as [|d IH|d IH|d IH|d IH|d IH|d IH|d IH|d IH|d IH|d IH];
    [reflexivity|exact IH|..];
    cbn [NilEmpty.string_of_uint atoi_digits Pos.of_uint];
    (change (digit _) with (Some 1) || change (digit _) with (Some 2)
     || change (digit _) with (Some 3) || change (digit _) with (Some 4)
     || change (digit _) with (Some 5) || change (digit _) with (Some 6)
     || change (digit _) with (Some 7) || change (digit _) with (Some 8)
     || change (digit _) with (Some 9));
    cbn [Z.mul Z.add Z.of_N]; apply atoi_digits_acc.
Qed.

Lemma atoi_value_uint (d : Decimal.uint) :
  atoi_value (NilZero.string_of_uint d) = Z.of_uint d
  /\ atoi_value (String "-" (NilZero.string_of_uint d)) = - Z.of_uint d.
Proof.
  assert (H : atoi_digits 0 (NilZero.string_of_uint d) = Z.of_uint d).
  { destruct d; try apply atoi_digits_uint. reflexivity. }
  split.
  - rewrite <- H. now destruct d.
  - rewrite <- H. reflexivity.
Qed.

(** [atoi] reads back the decimal text of every integer. *)
Lemma atoi_value_decimal (n : Z) : atoi_value (decimal n) = n.
Proof.
  rewrite <- (DecimalZ.of_to n) at 2. unfold decimal.
  destruct (Z.to_int n) as [d | d]; cbn [NilZero.string_of_int Z.of_int];
    apply atoi_value_uint.
Qed.

Lemma label_or_literal_miss (tbl : symbol_table) (operand : string) :
  find_label tbl operand = None ->
  label_or_literal tbl operand
  = if (INT_MIN <=? atoi_value operand) && (atoi_value operand <=? INT_MAX)
    then Ok (uint16 (atoi_value operand))
    else Undef (Not_an_int (atoi_value operand)).
Proof.
  intros H. unfold label_or_literal, atoi. rewrite H.
  now destruct ((INT_MIN <=? atoi_value operand) && (atoi_value operand <=? INT_MAX)).
Qed.

Lemma write16_uint16 (value : Z) :
  write16 (uint16 value) = [(value / 256) mod 256; value mod 256].
Proof.
  unfold write16, uint16. rewrite high_byte, low_byte.
  assert (E : value mod 65536
              = value mod 256 + (value / 256) mod 256 * 256).
  { change 65536 with (256 * 256). rewrite Z.rem_mul_r by lia. lia. }
  pose proof (Z.mod_pos_bound value 256 ltac:(lia)) as Hb.
  rewrite E. f_equal; [|f_equal].
  - rewrite Z.div_add by lia. rewrite (Z.div_small (value mod 256)) by lia.
    cbn [Z.add]. now rewrite Z.mod_mod by lia.
  - rewrite Z.mod_add by lia. now rewrite Z.mod_mod by lia.
Qed.

(** C6. An operand that the symbol table does not hold ends the
    translation on the undefined-label diagnostic when the mnemonic is
    JMP, JMPZ, JMPN or JMPO.  For OUT, OUTC, DATA and, with a valid
    register, LOAD, STORE, ADD and SUB no diagnostic is ever given: the
    operand is read by [atoi] as a decimal literal and, the number read
    being one that [int] holds, the instruction is emitted with the two
    bytes of that number modulo 65536, high byte first.  The number read
    from the decimal text of an integer is that integer. *)
Theorem undefined_operand_asymmetry (tbl : symbol_table)
  (instruction operand : string) (opcode : Z) :
  find_label tbl operand = None ->
  (In (instruction, opcode)
      [("JMP", JMP); ("JMPZ", JMPZ); ("JMPN", JMPN); ("JMPO", JMPO)]%string ->
   one_operand tbl instruction operand = Exit (Undefined_label operand)) /\
  (forall d,
     (In (instruction, opcode) [("OUT", OUT); ("OUTC", OUTC)]%string
      \/ instruction = "DATA"%string ->
      one_operand tbl instruction operand <> Exit d) /\
     (In (instruction, opcode)
         [("LOAD", LOAD); ("STORE", STORE); ("ADD", ADD); ("SUB", SUB)]%string ->
      forall reg,
        get_register_code reg <> 0xFF ->
        two_operands tbl instruction reg operand <> Exit d)) /\
  (let value := atoi_value operand in
   INT_MIN <= value <= INT_MAX ->
   (In (instruction, opcode) [("OUT", OUT); ("OUTC", OUTC)]%string ->
    one_operand tbl instruction operand
    = Ok [opcode; 0; (value / 256) mod 256; value mod 256]) /\
   (instruction = "DATA"%string ->
    one_operand tbl instruction operand
    = Ok [(value / 256) mod 256; value mod 256]) /\
   (In (instruction, opcode)
       [("LOAD", LOAD); ("STORE", STORE); ("ADD", ADD); ("SUB", SUB)]%string ->
    forall reg,
      get_register_code reg <> 0xFF ->
      two_operands tbl instruction reg operand
      = Ok [opcode; get_register_code reg;
            (value / 256) mod 256; value mod 256])) /\
  (forall n, operand = decimal n -> atoi_value operand = n).
Proof.
  intros Hfind. pose proof (label_or_literal_miss tbl operand Hfind) as Hl.
  split; [|split; [|split]].
  - intros Hin. simpl in Hin.
    repeat (destruct Hin as [[= <- <-] | Hin];
            [unfold one_operand; simpl; now rewrite Hfind|]).
    contradiction.
  - intros d. split.
    + intros [Hin | ->].
      * simpl in Hin.
        repeat (destruct Hin as [[= <- <-] | Hin];
                [unfold one_operand; simpl; rewrite Hl;
                 now destruct (_ && _)|]).
        contradiction.
      * unfold one_operand. simpl. rewrite Hl. now destruct (_ && _).
    + intros Hin reg Hreg. apply Z.eqb_neq in Hreg. simpl in Hin.
      repeat (destruct Hin as [[= <- <-] | Hin];
              [unfold two_operands;
               cbn [streq String.eqb Ascii.eqb Bool.eqb orb];
               rewrite Hreg, Hl; now destruct (_ && _)|]).
      contradiction.
  - intros value [Hlo Hhi].
    assert (Hr : (INT_MIN <=? atoi_value operand)
                 && (atoi_value operand <=? INT_MAX) = true).
    { apply andb_true_iff. split; now apply Z.leb_le. }
    rewrite Hr in Hl. pose proof (write16_uint16 value) as Hw.
    fold value in Hl. split; [|split].
    + intros Hin. simpl in Hin.
      repeat (destruct Hin as [[= <- <-] | Hin];
              [unfold one_operand; simpl; rewrite Hl; cbn [bind];
               now rewrite Hw|]).
      contradiction.
    + intros ->. unfold one_operand. simpl. rewrite Hl. cbn [bind].
      now rewrite Hw.
    + intros Hin reg Hreg. apply Z.eqb_neq in Hreg. simpl in Hin.
      repeat (destruct Hin as [[= <- <-] | Hin];
              [unfold two_operands;
               cbn [streq String.eqb Ascii.eqb Bool.eqb orb];
               rewrite Hreg, Hl; cbn [bind app]; now rewrite Hw|]).
      contradiction.
  - intros n ->. apply atoi_value_decimal.
Qed.

Lemma undefined_operand_asymmetry_witness :
  find_label [] "undefined_label" = None /\
  one_operand [] "JMP" "undefined_label" = Exit (Undefined_label "undefined_label") /\
  one_operand [] "OUT" "undefined_label" = Ok [OUT; 0; 0; 0] /\
  (find_label [] (decimal 300) = None /\ INT_MIN <= 300 <= INT_MAX) /\
  two_operands [] "LOAD" "R1" (decimal 300) = Ok [LOAD; 1; 1; 44] /\
  one_operand [] "DATA" (decimal (-2)) = Ok [255; 254] /\
  sasm_main ["JMP undefined_label"]%string
    = ([], Exit (Undefined_label "undefined_label")) /\
  sasm_main ["OUT undefined_label"]%string = ([OUT; 0; 0; 0], Ok tt) /\
  sasm_main ["LOAD R1, 300"]%string = ([LOAD; 1; 1; 44], Ok tt).
Proof.
  assert (H : find_label [] "undefined_label" = None) by reflexivity.
  assert (H3 : find_label [] (decimal 300) = None) by reflexivity.
  assert (H2 : find_label [] (decimal (-2)) = None) by reflexivity.
  destruct (undefined_operand_asymmetry [] "JMP" "undefined_label" JMP H)
    as [Hj _].
  destruct (undefined_operand_asymmetry [] "OUT" "undefined_label" OUT H)
    as [_ [_ [Ho _]]].
  destruct (undefined_operand_asymmetry [] "LOAD" (decimal 300) LOAD H3)
    as [_ [_ [Hl Hd]]].
  destruct (undefined_operand_asymmetry [] "DATA" (decimal (-2)) 0 H2)
    as [_ [_ [Hm Hd2]]].
  split; [exact H|]. split; [apply Hj; now left|].
  split.
  { assert (Hr : INT_MIN <= atoi_value "undefined_label" <= INT_MAX)
      by (vm_compute; split; discriminate).
    destruct (Ho Hr) as [Ho' _]. rewrite (Ho' (or_introl eq_refl)).
    vm_compute; reflexivity. }
  split; [split; [exact H3 | vm_compute; split; discriminate]|].
  split.
  { assert (Hr : INT_MIN <= atoi_value (decimal 300) <= INT_MAX)
      by (rewrite (Hd 300 eq_refl); vm_compute; split; discriminate).
    destruct (Hl Hr) as [_ [_ Hl']].
    rewrite (Hl' (or_introl eq_refl) "R1"%string) by (vm_compute; discriminate).
    rewrite (Hd 300 eq_refl). reflexivity. }
  split.
  { assert (Hr : INT_MIN <= atoi_value (decimal (-2)) <= INT_MAX)
      by (rewrite (Hd2 (-2) eq_refl); vm_compute; split; discriminate).
    destruct (Hm Hr) as [_ [Hm' _]]. rewrite (Hm' eq_refl).
    rewrite (Hd2 (-2) eq_refl). reflexivity. }
  repeat split; vm_compute; reflexivity.
Defined.

(** *** The line the second pass reads *)

Lemma no_hash_strip (s : string) : no_hash (strip_comments s) = true.
Proof.
  induction s as [|c s IH]; simpl; [reflexivity|].
  destruct (Ascii.eqb c "#") eqn:E; simpl; [reflexivity|]. now rewrite E.
Qed.

Lemma strip_comments_fixed (s : string) :
  no_hash s = true -> strip_comments s = s.
Proof.
  induction s as [|c s IH]; simpl; [reflexivity|].
  intros H. apply andb_true_iff in H. destruct H as [Hc Hs].
  apply negb_true_iff in Hc. now rewrite Hc, (IH Hs).
Qed.

Lemma no_hash_skip_space (s : string) :
  no_hash s = true -> no_hash (skip_space s) = true.
Proof.
  induction s as [|c s IH]; simpl; [reflexivity|].
  intros H. destruct (isspace c); [|exact H].
  apply andb_true_iff in H. now apply IH.
Qed.

Lemma no_hash_drop_trailing_space (s : string) :
  no_hash s = true -> no_hash (drop_trailing_space s) = true.
Proof.
  induction s as [|c s IH]; simpl; [reflexivity|].
  intros H. apply andb_true_iff in H. destruct H as [Hc Hs].
  specialize (IH Hs).
  destruct (drop_trailing_space s) as [|d t].
  - destruct (isspace c); simpl; [reflexivity|]. now rewrite Hc.
  - change (no_hash (String c (String d t)))
      with (negb (Ascii.eqb c "#") && no_hash (String d t)).
    now rewrite Hc, IH.
Qed.

Lemma no_hash_trim_whitespace (s : string) :
  no_hash s = true -> no_hash (trim_whitespace s) = true.
Proof.
  intros H. unfold trim_whitespace.
  pose proof (no_hash_skip_space s H) as Hk.
  destruct (skip_space s) as [|c r]; [reflexivity|].
  simpl in Hk. apply andb_true_iff in Hk. destruct Hk as [Hc Hr].
  cbn [no_hash]. now rewrite Hc, (no_hash_drop_trailing_space r Hr).
Qed.

Lemma no_hash_span (p : ascii -> bool) (s : string) :
  no_hash s = true ->
  no_hash (fst (span p s)) = true /\ no_hash (snd (span p s)) = true.
Proof.
  induction s as [|c s IH]; simpl; [auto|].
  intros H. destruct (p c); [|now split].
  apply andb_true_iff in H. destruct H as [Hc Hs].
  destruct (IH Hs) as [H1 H2].
  destruct (span p s) as [tok tail]. simpl in *. now rewrite Hc, H1.
Qed.

Lemma no_hash_rest (l w rest : string) :
  no_hash l = true -> sscanf_word_rest l = [w; rest] -> no_hash rest = true.
Proof.
  intros H. unfold sscanf_word_rest, scan_word, scan_until, nonempty.
  pose proof (no_hash_span (fun c => negb (isspace c)) (skip_space l)
                (no_hash_skip_space l H)) as [_ H1].
  destruct (span (fun c => negb (isspace c)) (skip_space l)) as [a s1].
  simpl in H1. simpl.
  destruct a as [|a0 a']; [discriminate|].
  pose proof (no_hash_span (fun d => negb (Ascii.eqb d "010")) (skip_space s1)
                (no_hash_skip_space s1 H1)) as [H2 _].
  destruct (span (fun d => negb (Ascii.eqb d "010")) (skip_space s1)) as [b s2].
  simpl in H2. simpl.
  destruct b as [|b0 b']; [discriminate|]. now intros [= _ <-].
Qed.

Lemma span_drop_trailing_space (s : string) :
  fst (span (fun c => negb (isspace c)) (drop_trailing_space s))
  = fst (span (fun c => negb (isspace c)) s).
Proof.
  induction s as [|c s IH]; [reflexivity|].
  cbn [drop_trailing_space].
  destruct (isspace c) eqn:Ec.
  - destruct (drop_trailing_space s); simpl; now rewrite Ec.
  - assert (E : match drop_trailing_space s with
                | EmptyString => String c EmptyString
                | String d t => String c (String d t)
                end = String c (drop_trailing_space s))
      by now destruct (drop_trailing_space s).
    rewrite E. simpl. rewrite Ec. simpl.
    destruct (span _ (drop_trailing_space s)) as [t1 r1].
    destruct (span _ s) as [t2 r2]. simpl in *. now rewrite IH.
Qed.

(** Trimming keeps the first word. *)
Lemma first_word_trim (s : string) :
  first_word (trim_whitespace s) = first_word s.
Proof.
  unfold trim_whitespace, first_word, scan_word.
  destruct (skip_space s) as [|c r] eqn:E; [reflexivity|].
  pose proof (skip_space_head s c r E) as Hc.
  rewrite (skip_space_fixed c _ Hc). simpl. rewrite Hc. simpl.
  pose proof (span_drop_trailing_space r) as Hs.
  destruct (span _ (drop_trailing_space r)) as [t1 r1].
  destruct (span _ r) as [t2 r2]. simpl in *. now rewrite Hs.
Qed.

(** The second pass finds, as the first word of the line it reads, the
    mnemonic the first pass measured. *)
Lemma second_pass_reads_mnemonic (line : string) :
  first_word (trim_whitespace (strip_comments (second_pass_input line)))
  = mnemonic_of line.
Proof.
  unfold second_pass_input, mnemonic_of.
  set (l := trim_whitespace (strip_comments line)).
  assert (Hl : no_hash l = true)
    by (apply no_hash_trim_whitespace, no_hash_strip).
  pose proof (sscanf_word_rest_cases l) as Hc.
  destruct (sscanf_word_rest l) as [|w [|rest [|x xs]]] eqn:Es;
    try reflexivity.
  destruct Hc as [Hw _].
  destruct (is_instruction w).
  - now rewrite (strip_comments_fixed l Hl), first_word_trim.
  - rewrite (strip_comments_fixed rest (no_hash_rest l w rest Hl Es)).
    apply first_word_trim.
Qed.

(** *** The bytes of one line *)

Lemma sscanf_word_operands_first (l a : string) (fields : list string) :
  sscanf_word_operands l = a :: fields -> first_word l = Some a.
Proof.
  unfold sscanf_word_operands, first_word. rewrite scan_word_skip.
  destruct (scan_word l) as [[w s1]|]; [|discriminate]. simpl.
  destruct (scan_until "," (skip_space s1)) as [[b s2]|]; [|now intros [= <- _]].
  destruct s2 as [|d s3]; [now intros [= <- _]|].
  destruct (Ascii.eqb d ",") eqn:Ed.
  - apply Ascii.eqb_eq in Ed. subst d.
    destruct (scan_word (skip_space s3)) as [[c s4]|]; now intros [= <- _].
  - assert (Hd : d <> ","%char) by now apply Ascii.eqb_neq.
    destruct d as [[] [] [] [] [] [] [] []]; try now intros [= <- _].
    now contradiction Hd.
Qed.

Lemma sscanf_word_word_first (l a : string) (fields : list string) :
  sscanf_word_word l = a :: fields -> first_word l = Some a.
Proof.
  unfold sscanf_word_word, first_word. rewrite scan_word_skip.
  destruct (scan_word l) as [[w s1]|]; [|discriminate]. simpl.
  destruct (scan_word (skip_space s1)) as [[b s2]|]; now intros [= <- _].
Qed.

Lemma two_operands_length (tbl : symbol_table) (a b c : string)
  (bytes : list Z) :
  two_operands tbl a b c = Ok bytes ->
  mnemonic_length a = Some (Z.of_nat (List.length bytes)).
Proof.
  unfold two_operands.
  destruct (streq a "LOAD" || streq a "ADD" || streq a "SUB" || streq a "STORE")
    eqn:E1.
  - destruct (get_register_code b =? 255); [discriminate|].
    destruct (label_or_literal tbl c); cbn [bind]; try discriminate.
    intros [= <-]. one_of E1; reflexivity.
  - destruct (streq a "LOADI" || streq a "STOREI" || streq a "ADDR"
              || streq a "SUBR") eqn:E2; [|discriminate].
    destruct ((get_register_code b =? 255) || (get_register_code c =? 255));
      [discriminate|].
    intros [= <-]. one_of E2; reflexivity.
Qed.

Lemma one_operand_length (tbl : symbol_table) (a b : string) (bytes : list Z) :
  one_operand tbl a b = Ok bytes ->
  mnemonic_length a = Some (Z.of_nat (List.length bytes)).
Proof.
  unfold one_operand.
  destruct (streq a "JMP" || streq a "JMPZ" || streq a "JMPN" || streq a "JMPO"
            || streq a "DATA" || streq a "OUTR" || streq a "OUTRC"
            || streq a "OUTI" || streq a "OUTIC" || streq a "OUT"
            || streq a "OUTC") eqn:E; [|discriminate].
  destruct (streq a "OUTR" || streq a "OUTRC" || streq a "OUTI"
            || streq a "OUTIC") eqn:E1.
  { destruct (get_register_code b =? 255); [discriminate|].
    intros [= <-]. one_of E1; reflexivity. }
  destruct (streq a "OUT" || streq a "OUTC") eqn:E2.
  { destruct (label_or_literal tbl b); cbn [bind]; try discriminate.
    intros [= <-]. one_of E2; reflexivity. }
  destruct (streq a "DATA") eqn:E3.
  { destruct (label_or_literal tbl b); cbn [bind]; try discriminate.
    intros [= <-]. apply streq_eq in E3. subst. reflexivity. }
  destruct (find_label tbl b); [|discriminate].
  intros [= <-]. one_of E; try reflexivity; try discriminate.
Qed.

(** The number of bytes the second pass writes for a line is the length
    of the first word of the line in the table. *)
Lemma second_pass_line_length (tbl : symbol_table) (line : string)
  (bytes : list Z) :
  second_pass_line tbl line = Ok bytes ->
  match first_word (trim_whitespace (strip_comments line)) with
  | None => bytes = []
  | Some m => mnemonic_length m = Some (Z.of_nat (List.length bytes))
  end.
Proof.
  unfold second_pass_line.
  set (l := trim_whitespace (strip_comments line)).
  destruct (trim_whitespace_head (strip_comments line)) as [He | [c [r [He Hsp]]]];
    fold l in He.
  - rewrite He. simpl. now intros [= <-].
  - assert (Hlen : (String.length l =? 0)%nat = false) by now rewrite He.
    rewrite Hlen.
    destruct (sscanf_word_operands l) as [|a [|b [|c0 [|x xs]]]] eqn:E3.
    4: { rewrite (sscanf_word_operands_first l a _ E3).
         apply two_operands_length. }
    all: destruct (sscanf_word_word l) as [|a2 [|b2 [|x2 xs2]]] eqn:E2.
    all: try (rewrite (sscanf_word_word_first l a2 _ E2);
              apply one_operand_length).
    all: rewrite sscanf_word_first;
      destruct (first_word l) as [m|]; try discriminate;
      destruct (streq m "HALT") eqn:Eh; try discriminate;
      intros [= <-]; apply streq_eq in Eh; subst; reflexivity.
Qed.

(** *** Tokens and the lines made of them *)

Lemma string_app_assoc (a b c : string) :
  ((a ++ b) ++ c = a ++ (b ++ c))%string.
Proof. induction a as [|x a IH]; [reflexivity|]. cbn [append]. now rewrite IH. Qed.

Lemma string_app_nil (a : string) : (a ++ EmptyString)%string = a.
Proof. induction a as [|x a IH]; [reflexivity|]. cbn [append]. now rewrite IH. Qed.

Lemma every_app (p : ascii -> bool) (a b : string) :
  every p (a ++ b) = every p a && every p b.
Proof.
  induction a as [|c a IH]; [reflexivity|].
  cbn [append every]. now rewrite IH, andb_assoc.
Qed.

Lemma every_impl (p q : ascii -> bool) (s : string) :
  (forall c, p c = true -> q c = true) -> every p s = true -> every q s = true.
Proof.
  intros Hpq. induction s as [|c s IH]; [reflexivity|].
  cbn [every]. intros H. apply andb_true_iff in H. destruct H as [Hc Hs].
  now rewrite (Hpq c Hc), (IH Hs).
Qed.

Lemma span_every (p : ascii -> bool) (s : string) :
  every p s = true -> span p s = (s, EmptyString).
Proof.
  induction s as [|c s IH]; [reflexivity|].
  cbn [every span]. intros H. apply andb_true_iff in H. destruct H as [Hc Hs].
  now rewrite Hc, (IH Hs).
Qed.

Lemma span_every_stop (p : ascii -> bool) (w : string) (c : ascii) (r : string) :
  every p w = true -> p c = false ->
  span p (w ++ String c r) = (w, String c r).
Proof.
  intros Hw Hc. induction w as [|d w IH]; cbn [append span].
  - now rewrite Hc.
  - cbn [every] in Hw. apply andb_true_iff in Hw. destruct Hw as [Hd Hw].
    now rewrite Hd, (IH Hw).
Qed.

Lemma token_char_cases (c : ascii) :
  token_char c = true ->
  isspace c = false /\ Ascii.eqb c "," = false /\ Ascii.eqb c "#" = false
  /\ Ascii.eqb c "010" = false.
Proof.
  unfold token_char. intros H.
  apply andb_true_iff in H. destruct H as [H _].
  apply andb_true_iff in H. destruct H as [H H3].
  apply andb_true_iff in H. destruct H as [H1 H2].
  apply negb_true_iff in H1, H2, H3. repeat split; try assumption.
  destruct (Ascii.eqb c "010") eqn:E; [|reflexivity].
  apply Ascii.eqb_eq in E. subst c. discriminate H1.
Qed.

Lemma is_token_cases (s : string) :
  is_token s = true ->
  exists c r, s = String c r /\ token_char c = true /\ every token_char s = true.
Proof.
  destruct s as [|c r]; [discriminate|]. intros H. exists c, r.
  split; [reflexivity|]. split; [|exact H].
  cbn [is_token every] in H. now apply andb_true_iff in H.
Qed.

Lemma token_no_hash (s : string) : every token_char s = true -> no_hash s = true.
Proof.
  induction s as [|c s IH]; [reflexivity|]. cbn [every no_hash].
  intros H. apply andb_true_iff in H. destruct H as [Hc Hs].
  destruct (token_char_cases c Hc) as [_ [_ [Hh _]]]. now rewrite Hh, (IH Hs).
Qed.

Lemma no_hash_app (a b : string) : no_hash (a ++ b) = no_hash a && no_hash b.
Proof.
  induction a as [|c a IH]; [reflexivity|].
  cbn [append no_hash]. now rewrite IH, andb_assoc.
Qed.

Lemma token_not_space (s : string) :
  every token_char s = true -> every (fun c => negb (isspace c)) s = true.
Proof.
  apply every_impl. intros c H.
  destruct (token_char_cases c H) as [H1 _]. now rewrite H1.
Qed.

Lemma token_not_comma (s : string) :
  every token_char s = true -> every (fun c => negb (Ascii.eqb c ",")) s = true.
Proof.
  apply every_impl. intros c H.
  destruct (token_char_cases c H) as [_ [H1 _]]. now rewrite H1.
Qed.

Lemma token_not_newline (s : string) :
  every token_char s = true -> every (fun c => negb (Ascii.eqb c "010")) s = true.
Proof.
  apply every_impl. intros c H.
  destruct (token_char_cases c H) as [_ [_ [_ H1]]]. now rewrite H1.
Qed.

(** Nothing is trimmed at the end of a text that ends with a token. *)
Lemma drop_trailing_space_token (s : string) :
  every token_char s = true -> drop_trailing_space s = s.
Proof.
  induction s as [|c s IH]; [reflexivity|]. cbn [every drop_trailing_space].
  intros H. apply andb_true_iff in H. destruct H as [Hc Hs].
  rewrite (IH Hs). destruct (token_char_cases c Hc) as [H1 _].
  destruct s; [now rewrite H1 | reflexivity].
Qed.

Lemma drop_trailing_space_app (a b : string) :
  is_token b = true -> drop_trailing_space (a ++ b) = (a ++ b)%string.
Proof.
  intros Hb. destruct (is_token_cases b Hb) as [c [r [-> [_ He]]]].
  induction a as [|d a IH]; cbn [append].
  - now apply drop_trailing_space_token.
  - cbn [drop_trailing_space]. rewrite IH.
    now destruct a.
Qed.

(** A line that begins with a token and ends with one, and has no comment
    marker, is what the passes parse. *)
Lemma preprocess_fixed (m body last : string) :
  is_token m = true -> is_token last = true -> no_hash body = true ->
  trim_whitespace (strip_comments (m ++ body ++ last))
  = (m ++ body ++ last)%string.
Proof.
  intros Hm Hl Hb.
  destruct (is_token_cases m Hm) as [c [r [-> [Hc Hem]]]].
  destruct (is_token_cases last Hl) as [c' [r' [_ [_ Hel]]]].
  rewrite strip_comments_fixed.
  - unfold trim_whitespace. cbn [append].
    destruct (token_char_cases c Hc) as [H1 _].
    rewrite skip_space_fixed by exact H1. f_equal.
    rewrite <- string_app_assoc. apply drop_trailing_space_app. exact Hl.
  - rewrite !no_hash_app, Hb, (token_no_hash _ Hem), (token_no_hash _ Hel).
    reflexivity.
Qed.

Lemma skip_space_token (m rest : string) :
  is_token m = true -> skip_space (m ++ rest) = (m ++ rest)%string.
Proof.
  intros Hm. destruct (is_token_cases m Hm) as [c [r [-> [Hc _]]]].
  destruct (token_char_cases c Hc) as [H1 _].
  cbn [append]. now apply skip_space_fixed.
Qed.

(** [%s] on a token followed by whitespace, and on a token that ends the
    text. *)
Lemma scan_word_token (m : string) (c : ascii) (rest : string) :
  is_token m = true -> isspace c = true ->
  scan_word (m ++ String c rest) = Some (m, String c rest).
Proof.
  intros Hm Hc. unfold scan_word. rewrite skip_space_token by exact Hm.
  destruct (is_token_cases m Hm) as [d [r [E [_ He]]]].
  rewrite span_every_stop; [|now apply token_not_space | now rewrite Hc].
  subst m. reflexivity.
Qed.

Lemma scan_word_last (m : string) :
  is_token m = true -> scan_word m = Some (m, EmptyString).
Proof.
  intros Hm. unfold scan_word.
  rewrite <- (string_app_nil m) at 1. rewrite skip_space_token by exact Hm.
  rewrite string_app_nil.
  destruct (is_token_cases m Hm) as [d [r [E [_ He]]]].
  rewrite span_every by now apply token_not_space.
  subst m. reflexivity.
Qed.

Lemma nonempty_token (a rest : string) :
  is_token a = true -> nonempty (a, rest) = Some (a, rest).
Proof. destruct a; [discriminate | reflexivity]. Qed.

Lemma skip_space_blank (a rest : string) :
  is_token a = true -> skip_space (String " " (a ++ rest)) = (a ++ rest)%string.
Proof.
  intros Ha. cbn [skip_space]. change (isspace " ") with true. cbn iota.
  now apply skip_space_token.
Qed.

(** The fields the formats of the two passes find on a line made of a
    mnemonic and one operand, and of a mnemonic and two operands. *)
Lemma fields_of_one_operand (m a : string) :
  is_token m = true -> is_token a = true ->
  let l := (m ++ " " ++ a)%string in
  sscanf_word_rest l = [m; a] /\ first_word l = Some m /\
  sscanf_word_operands l = [m; a] /\ sscanf_word_word l = [m; a].
Proof.
  intros Hm Ha l. subst l. cbn [append].
  pose proof (scan_word_token m " " a Hm eq_refl) as Hs.
  pose proof (scan_word_last a Ha) as Hl.
  destruct (is_token_cases a Ha) as [c [r [_ [_ He]]]].
  pose proof (skip_space_blank a EmptyString Ha) as Hk.
  rewrite string_app_nil in Hk.
  repeat split.
  - unfold sscanf_word_rest, scan_until. rewrite Hs, Hk.
    rewrite (span_every _ a (token_not_newline a He)).
    now rewrite nonempty_token.
  - unfold first_word. now rewrite Hs.
  - unfold sscanf_word_operands, scan_until. rewrite scan_word_skip, Hs, Hk.
    rewrite (span_every _ a (token_not_comma a He)).
    now rewrite nonempty_token.
  - unfold sscanf_word_word. now rewrite scan_word_skip, Hs, Hk, Hl.
Qed.

Lemma fields_of_two_operands (m a b : string) :
  is_token m = true -> is_token a = true -> is_token b = true ->
  let l := (m ++ " " ++ a ++ ", " ++ b)%string in
  sscanf_word_rest l = [m; (a ++ ", " ++ b)%string] /\ first_word l = Some m /\
  sscanf_word_operands l = [m; a; b].
Proof.
  intros Hm Ha Hb l. subst l. cbn [append].
  pose proof (scan_word_token m " " (a ++ String "," (String " " b)) Hm eq_refl)
    as Hs.
  pose proof (scan_word_last b Hb) as Hl.
  destruct (is_token_cases a Ha) as [c [r [Ea [_ He]]]].
  destruct (is_token_cases b Hb) as [c' [r' [_ [_ He']]]].
  pose proof (skip_space_blank a (String "," (String " " b)) Ha) as Hk.
  pose proof (skip_space_blank b EmptyString Hb) as Hkb.
  rewrite string_app_nil in Hkb.
  assert (Hn : every (fun d => negb (Ascii.eqb d "010"))
                 (a ++ String "," (String " " b)) = true).
  { rewrite every_app, (token_not_newline a He). cbn [every andb].
    change (negb (Ascii.eqb "," "010")) with true.
    change (negb (Ascii.eqb " " "010")) with true. cbn [andb].
    now apply token_not_newline. }
  repeat split.
  - unfold sscanf_word_rest, scan_until. rewrite Hs, Hk.
    rewrite (span_every _ _ Hn). rewrite Ea. reflexivity.
  - unfold first_word. now rewrite Hs.
  - unfold sscanf_word_operands, scan_until. rewrite scan_word_skip, Hs, Hk.
    rewrite (span_every_stop _ a "," _ (token_not_comma a He) eq_refl).
    rewrite nonempty_token by exact Ha. now rewrite Hkb, Hl.
Qed.

(** The first pass on a line that begins with a mnemonic and that needs no
    preprocessing: the counter advances by the length in the table, and
    the line goes to the second pass as it is. *)
Lemma first_pass_line_mnemonic (lc : Z) (tbl : symbol_table)
  (l m : string) (fields : list string) (n : Z) :
  trim_whitespace (strip_comments l) = l ->
  first_word l = Some m ->
  sscanf_word_rest l = m :: fields ->
  mnemonic_length m = Some n ->
  first_pass_line lc tbl l = Ok (mkPass1 (uint16 (lc + n)) tbl l (Some lc)).
Proof.
  intros Hp Hw Hf Hn.
  assert (Hi : is_instruction m = true).
  { apply mnemonic_length_known. congruence. }
  unfold first_pass_line. rewrite Hp.
  assert (Hlen : (String.length l =? 0)%nat = false)
    by (destruct l; [discriminate Hw | reflexivity]).
  rewrite Hlen, Hf.
  pose proof (sscanf_word_rest_cases l) as Hc. rewrite Hf in Hc.
  destruct fields as [|rest [|x xs]].
  - rewrite (advance_spec _ l lc tbl l m Hw).
    now rewrite (proj2 (sizes_agree m)), Hn.
  - rewrite Hi. cbn [negb bind].
    rewrite (advance_spec _ l lc tbl l m Hw).
    now rewrite (proj1 (sizes_agree m)), Hn.
  - contradiction.
Qed.

Lemma second_pass_line_fixed (tbl : symbol_table) (l m : string) :
  trim_whitespace (strip_comments l) = l ->
  first_word l = Some m ->
  second_pass_line tbl l =
  match sscanf_word_operands l with
  | [instruction; operand1; operand2] =>
      two_operands tbl instruction operand1 operand2
  | _ =>
      match sscanf_word_word l with
      | [instruction; operand1] => one_operand tbl instruction operand1
      | _ =>
          match sscanf_word l with
          | [instruction] =>
              if streq instruction "HALT" then Ok [HALT]
              else Exit (Unknown_instruction instruction)
          | _ => Exit (Invalid_instruction_format l)
          end
      end
  end.
Proof.
  intros Hp Hw. unfold second_pass_line. rewrite Hp.
  assert (Hlen : (String.length l =? 0)%nat = false)
    by (destruct l; [discriminate Hw | reflexivity]).
  now rewrite Hlen.
Qed.

Lemma operands_assoc (a b : string) :
  (" " ++ a ++ ", " ++ b = (" " ++ a ++ ", ") ++ b)%string.
Proof. cbn [append]. f_equal. symmetry. apply string_app_assoc. Qed.

Lemma register_name_token (reg : string) :
  In reg register_names ->
  is_token reg = true /\ (get_register_code reg =? 0xFF) = false.
Proof.
  intros H. simpl in H.
  repeat (destruct H as [<- | H]; [split; reflexivity|]). contradiction.
Qed.

(** Both passes on the lines of the source format. *)
Lemma instruction_line_passes (lc : Z) (tbl tbl2 : symbol_table)
  (m line : string) :
  instruction_line tbl2 m line ->
  exists n bytes,
    mnemonic_length m = Some n /\
    first_pass_line lc tbl line
    = Ok (mkPass1 (uint16 (lc + n)) tbl line (Some lc)) /\
    second_pass_line tbl2 line = Ok bytes /\
    Z.of_nat (List.length bytes) = n.
Proof.
  intros H. destruct H as [ | m reg operand value Hm Hreg Ho Hv
                            | m reg1 reg2 Hm Hr1 Hr2
                            | m target addr Hm Ht Hf
                            | m operand value Hm Ho Hv
                            | m reg Hm Hreg ].
  - exists 1, [HALT]. repeat split; vm_compute; reflexivity.
  - destruct (register_name_token reg Hreg) as [Hrt Hrc].
    assert (Hmt : is_token m = true /\ mnemonic_length m = Some 4 /\
                  exists opcode,
                    two_operands tbl2 m reg operand
                    = Ok ([opcode; get_register_code reg] ++ write16 value)).
    { simpl in Hm.
      repeat (destruct Hm as [<- | Hm];
              [repeat split; eexists; unfold two_operands;
               cbn [streq String.eqb Ascii.eqb Bool.eqb orb];
               rewrite Hrc, Hv; reflexivity|]).
      contradiction. }
    destruct Hmt as [Hmt [Hn [opcode Hb]]].
    destruct (fields_of_two_operands m reg operand Hmt Hrt Ho) as [F1 [F2 F3]].
    assert (Hp : trim_whitespace (strip_comments (m ++ " " ++ reg ++ ", " ++ operand))
                 = (m ++ " " ++ reg ++ ", " ++ operand)%string).
    { rewrite (operands_assoc reg operand).
      apply preprocess_fixed; try assumption.
      destruct (is_token_cases reg Hrt) as [c [r [_ [_ He]]]].
      cbn [append no_hash]. rewrite no_hash_app, (token_no_hash reg He).
      reflexivity. }
    exists 4, ([opcode; get_register_code reg] ++ write16 value).
    split; [exact Hn|]. split.
    + exact (first_pass_line_mnemonic lc tbl _ m _ 4 Hp F2 F1 Hn).
    + rewrite (second_pass_line_fixed tbl2 _ m Hp F2), F3. now split.
  - destruct (register_name_token reg1 Hr1) as [Ht1 Hc1].
    destruct (register_name_token reg2 Hr2) as [Ht2 Hc2].
    assert (Hmt : is_token m = true /\ mnemonic_length m = Some 2 /\
                  exists bytes,
                    two_operands tbl2 m reg1 reg2 = Ok bytes /\
                    List.length bytes = 2%nat).
    { simpl in Hm.
      repeat (destruct Hm as [<- | Hm];
              [repeat split; eexists; unfold two_operands;
               cbn [streq String.eqb Ascii.eqb Bool.eqb orb];
               rewrite Hc1, Hc2; cbn [orb]; split; reflexivity|]).
      contradiction. }
    destruct Hmt as [Hmt [Hn [bytes [Hb Hl]]]].
    destruct (fields_of_two_operands m reg1 reg2 Hmt Ht1 Ht2) as [F1 [F2 F3]].
    assert (Hp : trim_whitespace (strip_comments (m ++ " " ++ reg1 ++ ", " ++ reg2))
                 = (m ++ " " ++ reg1 ++ ", " ++ reg2)%string).
    { rewrite (operands_assoc reg1 reg2).
      apply preprocess_fixed; try assumption.
      destruct (is_token_cases reg1 Ht1) as [c [r [_ [_ He]]]].
      cbn [append no_hash]. rewrite no_hash_app, (token_no_hash reg1 He).
      reflexivity. }
    exists 2, bytes. split; [exact Hn|]. split.
    + exact (first_pass_line_mnemonic lc tbl _ m _ 2 Hp F2 F1 Hn).
    + rewrite (second_pass_line_fixed tbl2 _ m Hp F2), F3. split; [exact Hb|].
      now rewrite Hl.
  - assert (Hmt : is_token m = true /\ mnemonic_length m = Some 4 /\
                  exists opcode,
                    one_operand tbl2 m target = Ok ([opcode; 0] ++ write16 addr)).
    { simpl in Hm.
      repeat (destruct Hm as [<- | Hm];
              [repeat split; eexists; unfold one_operand;
               cbn [streq String.eqb Ascii.eqb Bool.eqb orb];
               rewrite Hf; reflexivity|]).
      contradiction. }
    destruct Hmt as [Hmt [Hn [opcode Hb]]].
    destruct (fields_of_one_operand m target Hmt Ht) as [F1 [F2 [F3 F4]]].
    assert (Hp : trim_whitespace (strip_comments (m ++ " " ++ target))
                 = (m ++ " " ++ target)%string)
      by now apply preprocess_fixed.
    exists 4, ([opcode; 0] ++ write16 addr). split; [exact Hn|]. split.
    + exact (first_pass_line_mnemonic lc tbl _ m _ 4 Hp F2 F1 Hn).
    + rewrite (second_pass_line_fixed tbl2 _ m Hp F2), F3, F4. now split.
  - assert (Hmt : is_token m = true /\
                  exists bytes,
                    one_operand tbl2 m operand = Ok bytes /\
                    mnemonic_length m = Some (Z.of_nat (List.length bytes))).
    { simpl in Hm.
      repeat (destruct Hm as [<- | Hm];
              [split; [reflexivity|]; eexists; unfold one_operand;
               cbn [streq String.eqb Ascii.eqb Bool.eqb orb];
               rewrite Hv; cbn [bind]; split; reflexivity|]).
      contradiction. }
    destruct Hmt as [Hmt [bytes [Hb Hn]]].
    destruct (fields_of_one_operand m operand Hmt Ho) as [F1 [F2 [F3 F4]]].
    assert (Hp : trim_whitespace (strip_comments (m ++ " " ++ operand))
                 = (m ++ " " ++ operand)%string)
      by now apply preprocess_fixed.
    exists (Z.of_nat (List.length bytes)), bytes. split; [exact Hn|]. split.
    + exact (first_pass_line_mnemonic lc tbl _ m _ _ Hp F2 F1 Hn).
    + rewrite (second_pass_line_fixed tbl2 _ m Hp F2), F3, F4. now split.
  - destruct (register_name_token reg Hreg) as [Hrt Hrc].
    assert (Hmt : is_token m = true /\ mnemonic_length m = Some 2 /\
                  exists opcode,
                    one_operand tbl2 m reg = Ok [opcode; get_register_code reg]).
    { simpl in Hm.
      repeat (destruct Hm as [<- | Hm];
              [repeat split; eexists; unfold one_operand;
               cbn [streq String.eqb Ascii.eqb Bool.eqb orb];
               rewrite Hrc; reflexivity|]).
      contradiction. }
    destruct Hmt as [Hmt [Hn [opcode Hb]]].
    destruct (fields_of_one_operand m reg Hmt Hrt) as [F1 [F2 [F3 F4]]].
    assert (Hp : trim_whitespace (strip_comments (m ++ " " ++ reg))
                 = (m ++ " " ++ reg)%string)
      by now apply preprocess_fixed.
    exists 2, [opcode; get_register_code reg]. split; [exact Hn|]. split.
    + exact (first_pass_line_mnemonic lc tbl _ m _ 2 Hp F2 F1 Hn).
    + rewrite (second_pass_line_fixed tbl2 _ m Hp F2), F3, F4. now split.
Qed.

(** C4. For every mnemonic the number of bytes the first pass adds to the
    location counter is the number of bytes the second pass writes, and
    it is the length of the mnemonic in the table of the specification
    ([mnemonic_length]: 1 for HALT, 4 for LOAD, STORE, JMP, JMPZ, JMPN,
    JMPO, ADD, SUB, OUT and OUTC, 2 for LOADI, STOREI, ADDR, SUBR, OUTR,
    OUTRC, OUTI, OUTIC and DATA).  First, whatever the line, when both
    passes accept it the counter advances by that length and that many
    bytes are written; a blank line advances nothing and writes nothing.
    Second, both passes do accept the lines of the source format: on each
    of them the first pass advances the counter by the length of the
    mnemonic and hands the line over as it is, and the second pass writes
    that many bytes.  Third, every mnemonic has such a line. *)
Theorem pass_lengths_agree :
  (forall (lc : Z) (tbl tbl2 : symbol_table) (line : string) (r : pass1)
          (bytes : list Z),
     first_pass_line lc tbl line = Ok r ->
     second_pass_line tbl2 (line_out r) = Ok bytes ->
     match mnemonic_of line with
     | None => location_counter r = lc /\ bytes = []
     | Some m =>
         is_instruction m = true /\
         exists n,
           mnemonic_length m = Some n /\
           location_counter r = uint16 (lc + n) /\
           Z.of_nat (List.length bytes) = n
     end) /\
  (forall (lc : Z) (tbl tbl2 : symbol_table) (m line : string),
     instruction_line tbl2 m line ->
     exists n bytes,
       mnemonic_length m = Some n /\
       first_pass_line lc tbl line
       = Ok (mkPass1 (uint16 (lc + n)) tbl line (Some lc)) /\
       second_pass_line tbl2 line = Ok bytes /\
       Z.of_nat (List.length bytes) = n) /\
  (forall m : string,
     is_instruction m = true ->
     exists line, instruction_line [mkLabel "x" 0] m line).
Proof.
  split; [|split].
  - intros lc tbl tbl2 line r bytes H1 H2.
    pose proof (first_pass_line_outcome lc tbl line) as Ho.
    rewrite H1 in Ho. rewrite first_pass_line_spec in H1.
    pose proof (second_pass_reads_mnemonic line) as Hm.
    revert H1. destruct (mnemonic_of line) as [m|] eqn:Em.
    + intros H1. split; [exact Ho|]. revert H1.
      assert (Hb : forall (t : asm symbol_table) (k : symbol_table -> asm pass1),
                 bind t k = Ok r -> exists tbl', k tbl' = Ok r).
      { intros [t| |] k; cbn [bind]; try discriminate. eauto. }
      intros H1. apply Hb in H1. destruct H1 as [tbl' H1]. revert H1.
      destruct (mnemonic_length m) as [n|] eqn:En; [|discriminate].
      intros [= <-]. cbn [line_out location_counter] in *.
      apply second_pass_line_length in H2. rewrite Hm in H2.
      exists n. repeat split. congruence.
    + intros [= <-]. cbn [line_out location_counter] in *.
      split; [reflexivity|].
      apply second_pass_line_length in H2.
      unfold mnemonic_of in Em.
      pose proof (sscanf_word_rest_cases (trim_whitespace (strip_comments line))) as Hc.
      destruct (sscanf_word_rest (trim_whitespace (strip_comments line)))
        as [|w [|rest [|x xs]]].
      * now rewrite Em in H2.
      * now rewrite Em in H2.
      * destruct Hc as [Hw [m Hm']]. destruct (is_instruction w); congruence.
      * contradiction.
  - intros lc tbl tbl2 m line H. now apply instruction_line_passes.
  - intros m H. apply existsb_exists in H. destruct H as [k [Hin Hk]].
    apply streq_eq in Hk. subst k. simpl in Hin.
    repeat (destruct Hin as [<- | Hin];
            [eexists;
             first
               [ apply line_HALT
               | apply (line_register_immediate _ _ "R1" "0" 0);
                 [simpl; tauto | simpl; tauto | reflexivity | reflexivity]
               | apply (line_register_register _ _ "R1" "A1");
                 simpl; tauto
               | apply (line_jump _ _ "x" 0);
                 [simpl; tauto | reflexivity | reflexivity]
               | apply (line_immediate _ _ "0" 0);
                 [simpl; tauto | reflexivity | reflexivity]
               | apply (line_register _ _ "R1"); simpl; tauto ]|]).
    contradiction.
Qed.

Lemma pass_lengths_agree_witness :
  let r := mkPass1 4 [mkLabel "loop" 0] "JMP loop" (Some 0) in
  (first_pass_line 0 [] "loop  JMP loop  # again" = Ok r /\
   second_pass_line [mkLabel "loop" 0] (line_out r) = Ok [JMP; 0; 0; 0]) /\
  mnemonic_of "loop  JMP loop  # again" = Some "JMP"%string /\
  mnemonic_length "JMP" = Some 4 /\
  location_counter r = uint16 (0 + 4) /\
  Z.of_nat (List.length [JMP; 0; 0; 0]) = 4 /\
  instruction_line [] "LOAD" "LOAD R1, 5" /\
  first_pass_line 0 [] "LOAD R1, 5"
  = Ok (mkPass1 (uint16 (0 + 4)) [] "LOAD R1, 5" (Some 0)) /\
  exists bytes,
    second_pass_line [] "LOAD R1, 5" = Ok bytes /\
    Z.of_nat (List.length bytes) = 4.
Proof.
  intros r.
  destruct pass_lengths_agree as [Ha [Hb _]].
  assert (H1 : first_pass_line 0 [] "loop  JMP loop  # again" = Ok r)
    by (vm_compute; reflexivity).
  assert (H2 : second_pass_line [mkLabel "loop" 0] (line_out r)
               = Ok [JMP; 0; 0; 0]) by (vm_compute; reflexivity).
  split; [now split|].
  pose proof (Ha 0 [] [mkLabel "loop" 0] _ r _ H1 H2) as H.
  assert (Em : mnemonic_of "loop  JMP loop  # again" = Some "JMP"%string)
    by (vm_compute; reflexivity).
  rewrite Em in H. destruct H as [_ [n [Hn [Hlc Hlen]]]].
  split; [exact Em|].
  assert (En : n = 4) by (vm_compute in Hn; congruence).
  rewrite En in Hn, Hlc, Hlen.
  split; [exact Hn|]. split; [exact Hlc|]. split; [exact Hlen|].
  assert (Hl : instruction_line [] "LOAD" "LOAD R1, 5").
  { apply (line_register_immediate [] "LOAD" "R1" "5" 5);
      [simpl; tauto | simpl; tauto | reflexivity | reflexivity]. }
  split; [exact Hl|].
  destruct (Hb 0 [] [] _ _ Hl) as [n' [bytes [Hn' [Hf [Hs Hlb]]]]].
  assert (En' : n' = 4) by (vm_compute in Hn'; congruence).
  rewrite En' in Hf, Hlb.
  split; [exact Hf|]. now exists bytes.
Defined.

(* ================================================================= *)
(** * Further properties of the virtual machine *)

(** ** Sixteen-bit words in memory *)

Lemma lor_bytes (hi lo : Z) :
  0 <= lo < 256 -> Z.lor (Z.shiftl hi 8) lo = hi * 256 + lo.
Proof.
  intros Hlo.
  assert (Hland : Z.land (Z.shiftl hi 8) lo = 0).
  { apply Z.bits_inj'. intros n Hn. rewrite Z.land_spec, Z.bits_0.
    destruct (Z.ltb_spec n 8).
    - rewrite Z.shiftl_spec_low by lia. reflexivity.
    - replace (Z.testbit lo n) with false; [apply andb_false_r|].
      symmetry. destruct (Z.eq_dec lo 0) as [-> | Hne]; [apply Z.bits_0|].
      apply Z.bits_above_log2; [lia|].
      assert (Z.log2 lo < 8) by (apply Z.log2_lt_pow2; lia). lia. }
  rewrite <- Z.lxor_lor by exact Hland.
  rewrite <- Z.add_nocarry_lxor by exact Hland.
  rewrite Z.shiftl_mul_pow2 by lia. reflexivity.
Qed.

Lemma bytes_of_word (v : Z) :
  ((v / 256) mod 256) * 256 + v mod 256 = v mod 65536.
Proof.
  change 65536 with (256 * 256).
  rewrite (Z.rem_mul_r v 256 256) by lia. lia.
Qed.

(** X1. The bytes [write16] emits, found in two cells inside memory, are
    read back by [fetchImmediate] as the value emitted. *)
Theorem write16_fetchImmediate (m : mem) (a v : Z) :
  0 <= v < 65536 -> a + 1 < MEMORY_SIZE ->
  [m a; m (a + 1)] = write16 v ->
  fetchImmediate m a = Ok v.
Proof.
  intros Hv Ha Hm. unfold write16 in Hm. injection Hm as H1 H2.
  rewrite fetchImmediate_inside by exact Ha.
  rewrite H1, H2, high_byte, low_byte.
  rewrite lor_bytes by (apply Z.mod_pos_bound; lia).
  rewrite bytes_of_word. unfold uint16.
  rewrite Z.mod_mod by lia. now rewrite Z.mod_small by lia.
Qed.

Lemma mem_write_inside (m : mem) (i v : Z) :
  0 <= i < MEMORY_SIZE -> mem_write m i v = Ok (mem_set m i (uint8 v)).
Proof. intros H. unfold mem_write. now rewrite in_memory_true. Qed.

Lemma store16_inside (s : machine) (a v : Z) :
  0 <= a -> a + 1 < MEMORY_SIZE ->
  store16 s a v =
  Ok (mkMachine (cpu s)
        (mem_set (mem_set (memory s) a ((v / 256) mod 256)) (a + 1) (v mod 256))
        (stdout s)).
Proof.
  intros H0 H1. unfold store16.
  rewrite mem_write_inside by lia. cbn [bind].
  rewrite mem_write_inside by lia. cbn [bind].
  rewrite high_byte, low_byte. unfold uint8.
  now rewrite !Z.mod_mod by lia.
Qed.

(** X2. A 16-bit store inside memory followed by a 16-bit read at the same
    address gives back the value stored, reduced modulo 65536; the store
    touches the two cells of the word and nothing else of the machine. *)
Theorem store16_fetchImmediate (s : machine) (a v : Z) :
  0 <= a -> a + 1 < MEMORY_SIZE ->
  exists s',
    store16 s a v = Ok s' /\
    fetchImmediate (memory s') a = Ok (uint16 v) /\
    (forall i, i <> a -> i <> a + 1 -> memory s' i = memory s i) /\
    cpu s' = cpu s /\ stdout s' = stdout s.
Proof.
  intros H0 H1. eexists. split; [apply store16_inside; assumption|].
  cbn [memory cpu stdout]. repeat split.
  - rewrite fetchImmediate_inside by exact H1. unfold mem_set.
    rewrite Z.eqb_refl.
    destruct (Z.eqb_spec a (a + 1)); [lia|]. rewrite Z.eqb_refl.
    rewrite lor_bytes by (apply Z.mod_pos_bound; lia).
    rewrite bytes_of_word. unfold uint16. now rewrite Z.mod_mod by lia.
  - intros i Hi1 Hi2. unfold mem_set.
    destruct (Z.eqb_spec i (a + 1)); [contradiction|].
    destruct (Z.eqb_spec i a); [contradiction | reflexivity].
Qed.

Lemma store16_fetchImmediate_witness :
  let s := boot [] in
  (0 <= 100 /\ 100 + 1 < MEMORY_SIZE) /\
  exists s',
    store16 s 100 0xBEEF = Ok s' /\
    fetchImmediate (memory s') 100 = Ok 0xBEEF.
Proof.
  intros s.
  assert (H0 : 0 <= 100) by lia.
  assert (H1 : 100 + 1 < MEMORY_SIZE) by (vm_compute; reflexivity).
  split; [now split|].
  destruct (store16_fetchImmediate s 100 0xBEEF H0 H1) as [s' [Hs [Hf _]]].
  exists s'. split; [exact Hs | exact Hf].
Defined.

Lemma write16_fetchImmediate_witness :
  let m := load_program (write16 0x1234) mem_zero in
  (0 <= 0x1234 < 65536 /\ 0 + 1 < MEMORY_SIZE /\
   [m 0; m (0 + 1)] = write16 0x1234) /\
  fetchImmediate m 0 = Ok 0x1234.
Proof.
  intros m.
  assert (Hv : 0 <= 0x1234 < 65536) by lia.
  assert (Ha : 0 + 1 < MEMORY_SIZE) by (vm_compute; reflexivity).
  assert (Hm : [m 0; m (0 + 1)] = write16 0x1234) by (vm_compute; reflexivity).
  split; [now repeat split|].
  exact (write16_fetchImmediate m 0 0x1234 Hv Ha Hm).
Defined.

(** ** Values stay within their C types *)

Lemma on_ok_bind {A B : Type} (P : A -> Prop) (Q : B -> Prop)
  (r : vm A) (k : A -> vm B) :
  on_ok P r -> (forall a, P a -> on_ok Q (k a)) -> on_ok Q (bind r k).
Proof. destruct r; simpl; auto. Qed.

Lemma word16_uint16 (x : Z) : word16 (uint16 x).
Proof. unfold word16, uint16. apply Z.mod_pos_bound. lia. Qed.

Lemma word8_uint8 (x : Z) : word8 (uint8 x).
Proof. unfold word8, uint8. apply Z.mod_pos_bound. lia. Qed.

Lemma bit_c_bool (b : bool) : bit (c_bool b).
Proof. destruct b; [now right | now left]. Qed.

Lemma bit_if (b : bool) : bit (if b then 1 else 0).
Proof. destruct b; [now right | now left]. Qed.

Ltac wf_split :=
  unfold well_formed in *;
  repeat match goal with
         | H : _ /\ _ |- _ => destruct H
         end;
  cbn [cpu memory stdout REG1 REG2 ADDR1 ADDR2 PC flag_Z flag_N flag_O
       set_PC set_REG1 set_REG2 set_ADDR1 set_ADDR2 with_cpu print
       set_flags set_flags_for_load];
  repeat match goal with
         | |- _ /\ _ => split
         end;
  first [ assumption | apply word16_uint16 | apply bit_c_bool | apply bit_if
        | left; reflexivity | idtac ].

Lemma wf_fetch_byte (s : machine) :
  well_formed s ->
  on_ok (fun p => word8 (fst p) /\ well_formed (snd p)) (fetch_byte s).
Proof.
  intros H. unfold fetch_byte, mem_read.
  destruct (in_memory (PC (cpu s))); [|exact I]. cbn [bind on_ok fst snd].
  split; [apply word8_uint8|]. wf_split.
Qed.

Lemma wf_fetchImmediate (m : mem) (a : Z) : on_ok word16 (fetchImmediate m a).
Proof.
  unfold fetchImmediate. destruct (_ >=? _); [exact I|]. apply word16_uint16.
Qed.

Lemma wf_fetch_operand16 (s : machine) :
  well_formed s ->
  on_ok (fun p => word16 (fst p) /\ well_formed (snd p)) (fetch_operand16 s).
Proof.
  intros H. unfold fetch_operand16.
  pose proof (wf_fetchImmediate (memory s) (PC (cpu s))) as Hf.
  destruct (fetchImmediate (memory s) (PC (cpu s))); try exact I.
  cbn [bind on_ok fst snd] in *. split; [exact Hf|]. wf_split.
Qed.

Lemma word8_mem_set (m : mem) (a v : Z) :
  (forall i, word8 (m i)) -> forall i, word8 (mem_set m a (uint8 v) i).
Proof.
  intros H i. unfold mem_set. destruct (i =? a); [apply word8_uint8 | apply H].
Qed.

Lemma wf_store16 (s : machine) (a v : Z) :
  well_formed s -> on_ok well_formed (store16 s a v).
Proof.
  intros H. unfold store16, mem_write.
  destruct (in_memory a); [|exact I]. cbn [bind].
  destruct (in_memory (a + 1)); [|exact I]. cbn [bind on_ok].
  wf_split. now apply word8_mem_set, word8_mem_set.
Qed.

Lemma wf_load_register (s : machine) (reg v : Z) (otherwise : vm machine) :
  well_formed s -> word16 v -> on_ok well_formed otherwise ->
  on_ok well_formed (load_register s reg v otherwise).
Proof.
  intros H Hv Ho. unfold load_register.
  destruct (reg =? R1); [cbn [on_ok]; wf_split|].
  destruct (reg =? R2); [cbn [on_ok]; wf_split|].
  destruct (reg =? A1); [cbn [on_ok]; wf_split|].
  destruct (reg =? A2); [cbn [on_ok]; wf_split|].
  exact Ho.
Qed.

Lemma wf_address_register (c : CPU) (s : machine) (reg2 : Z) (d : diagnostic) :
  well_formed s -> c = cpu s -> on_ok word16 (address_register c reg2 d).
Proof.
  intros H ->. unfold address_register.
  destruct (reg2 =? A1); [cbn [on_ok]; wf_split; tauto|].
  destruct (reg2 =? A2); [cbn [on_ok]; wf_split; tauto|].
  destruct (reg2 =? R1); [cbn [on_ok]; wf_split; tauto|].
  destruct (reg2 =? R2); [cbn [on_ok]; wf_split; tauto|].
  exact I.
Qed.

Lemma wf_arith_immediate (s : machine) (op : operation) :
  well_formed s -> on_ok well_formed (arith_immediate s op).
Proof.
  intros H. unfold arith_immediate.
  eapply on_ok_bind; [apply wf_fetch_byte, H|]. intros [reg s1] [_ H1].
  eapply on_ok_bind; [apply wf_fetch_operand16, H1|]. intros [imm s2] [_ H2].
  cbn [fst snd] in *.
  destruct (reg =? R1); [cbn [on_ok]; destruct op; wf_split|].
  destruct (reg =? R2); [cbn [on_ok]; destruct op; wf_split|].
  exact H2.
Qed.

Lemma wf_arith_register (s : machine) (op : operation) :
  well_formed s -> on_ok well_formed (arith_register s op).
Proof.
  intros H. unfold arith_register.
  eapply on_ok_bind; [apply wf_fetch_byte, H|]. intros [reg s1] [_ H1].
  cbn [fst snd on_ok] in *. cbv zeta.
  destruct (Z.land reg 3 =? R1); destruct op; wf_split.
Qed.

Lemma on_ok_any {A : Type} (r : vm A) : on_ok (fun _ => True) r.
Proof. now destruct r. Qed.

Lemma wf_skip (s : machine) (x : Z) :
  well_formed s -> well_formed (with_cpu s (set_PC (cpu s) (uint16 x))).
Proof. intros H. wf_split. Qed.

Lemma wf_jump (s : machine) (x : Z) :
  well_formed s -> word16 x -> well_formed (with_cpu s (set_PC (cpu s) x)).
Proof. intros H Hx. wf_split. Qed.

Lemma wf_print (s : machine) (o : output) :
  well_formed s -> well_formed (print s o).
Proof. intros H. wf_split. Qed.

Ltac wf_step :=
  first
    [ exact I
    | assumption
    | apply wf_print; assumption
    | apply wf_jump; assumption
    | apply wf_store16; assumption
    | apply wf_arith_immediate; assumption
    | apply wf_arith_register; assumption
    | apply wf_load_register; [assumption | assumption | ]
    | eapply on_ok_bind; [apply wf_fetch_byte; assumption | intros [? ?] [? ?]]
    | eapply on_ok_bind;
      [apply wf_fetch_operand16; assumption | intros [? ?] [? ?]]
    | eapply on_ok_bind; [apply wf_fetchImmediate | intros ? ?]
    | eapply on_ok_bind;
      [eapply wf_address_register; [eassumption | reflexivity] | intros ? ?]
    | eapply on_ok_bind; [apply wf_store16; assumption | intros ? ?]
    | eapply on_ok_bind; [apply wf_arith_immediate; assumption | intros ? ?]
    | eapply on_ok_bind; [apply wf_arith_register; assumption | intros ? ?]
    | eapply on_ok_bind;
      [apply wf_load_register; [assumption | assumption | ] | intros ? ?]
    | match goal with
      | |- on_ok _ (if ?b then _ else _) => destruct b
      | |- on_ok _ (let _ := _ in _) => cbv zeta
      | |- on_ok _ (Ok _) => cbn [on_ok fst snd] in *
      end ].

Lemma wf_execute (opcode pc : Z) (s : machine) :
  well_formed s ->
  on_ok (fun p => well_formed (snd p)) (execute opcode pc s).
Proof.
  intros H. unfold execute.
  destruct (opcode =? HALT); [exact H|].
  destruct (opcode =? LOAD); [repeat wf_step|].
  destruct (opcode =? LOADI); [repeat wf_step|].
  destruct (opcode =? STORE); [repeat wf_step|].
  destruct (opcode =? STOREI).
  { repeat wf_step.
    eapply on_ok_bind; [apply on_ok_any | intros ? _]. repeat wf_step. }
  destruct (opcode =? ADD); [repeat wf_step|].
  destruct (opcode =? ADDR); [repeat wf_step|].
  destruct (opcode =? SUB); [repeat wf_step|].
  destruct (opcode =? SUBR); [repeat wf_step|].
  destruct ((opcode =? JMP) || (opcode =? JMPZ) || (opcode =? JMPN)
            || (opcode =? JMPO)); [repeat wf_step|].
  destruct (opcode =? OUT).
  { cbv zeta. pose proof (wf_skip s (PC (cpu s) + 1) H). repeat wf_step. }
  destruct (opcode =? OUTC).
  { cbv zeta. pose proof (wf_skip s (PC (cpu s) + 1) H). repeat wf_step. }
  destruct (opcode =? OUTR); [repeat wf_step|].
  destruct (opcode =? OUTRC); [repeat wf_step|].
  destruct (opcode =? OUTI); [repeat wf_step|].
  destruct (opcode =? OUTIC).
  { repeat wf_step.
    eapply on_ok_bind; [apply on_ok_any | intros ? _]. repeat wf_step. }
  exact I.
Qed.

Lemma word8_load_program_from (stream : list Z) :
  forall a m, (forall i, word8 (m i)) ->
              forall i, word8 (load_program_from a stream m i).
Proof.
  induction stream as [|b rest IH]; intros a m Hm i; [apply Hm|].
  cbn [load_program_from]. destruct (a <? MEMORY_SIZE); [|apply Hm].
  apply IH. now apply word8_mem_set.
Qed.

Lemma wf_step_ok (s : machine) (st : status) (s' : machine) :
  well_formed s -> step s = Ok (st, s') -> well_formed s'.
Proof.
  intros H Hs.
  assert (Ho : on_ok (fun p => well_formed (snd p)) (step s)).
  { unfold step.
    eapply on_ok_bind; [apply wf_fetch_byte, H | intros [opcode s1] [_ H1]].
    now apply wf_execute. }
  now rewrite Hs in Ho.
Qed.

(** X3. The machine that [main] starts on any stream has every register
    within 16 bits, every flag 0 or 1 and every memory cell within a
    byte, and a step or a whole run that ends normally from a machine in
    that condition ends in such a machine. *)
Theorem well_formed_is_invariant :
  (forall stream, well_formed (boot stream)) /\
  (forall s, well_formed s ->
     (forall st s', step s = Ok (st, s') -> well_formed s') /\
     (forall fuel s', processor_cycle fuel s = Some (Ok s') -> well_formed s')).
Proof.
  split.
  - intros stream. unfold boot, well_formed.
    cbn [cpu memory REG1 REG2 ADDR1 ADDR2 PC flag_Z flag_N flag_O initialize_cpu].
    repeat match goal with |- _ /\ _ => split end;
      try (unfold word16; lia); try (now left).
    apply word8_load_program_from. intros i. unfold word8, mem_zero. lia.
  - intros s H. split; [intros st s'; now apply wf_step_ok|].
    intros fuel. revert s H.
    induction fuel as [|fuel IH]; intros s H s' Hr; [discriminate Hr|].
    cbn [processor_cycle] in Hr.
    destruct (step s) as [[[|] s1]| |] eqn:E; try discriminate Hr.
    + apply (IH s1); [now apply (wf_step_ok s Running s1)|exact Hr].
    + injection Hr as <-. now apply (wf_step_ok s Halted s1).
Qed.

Lemma well_formed_is_invariant_witness :
  let s := boot (fst (sasm_main overflow_program)) in
  well_formed s /\
  exists s', processor_cycle 3 s = Some (Ok s') /\ well_formed s'.
Proof.
  intros s.
  destruct well_formed_is_invariant as [Hboot Hinv].
  assert (Hs : well_formed s) by apply Hboot.
  split; [exact Hs|].
  destruct (processor_cycle 3 s) as [[s'| |]|] eqn:E;
    try (vm_compute in E; discriminate E).
  exists s'. split; [reflexivity|].
  exact (proj2 (Hinv s Hs) 3%nat s' E).
Defined.

(** ** What a step does to PC, memory and output *)

Lemma fetch_byte_cases (s : machine) (k : Z) :
  fetch_byte (at_pc s k) =
  if in_memory (PC (cpu s) + k)
  then Ok (code_byte s k, at_pc s (k + 1))
  else Undef (Read_outside (PC (cpu s) + k)).
Proof.
  destruct (in_memory (PC (cpu s) + k)) eqn:E.
  - apply fetch_byte_at. unfold in_memory in E.
    apply andb_true_iff in E. destruct E as [E1 E2].
    apply Z.leb_le in E1. apply Z.ltb_lt in E2. lia.
  - unfold fetch_byte, mem_read, at_pc. cbn [cpu memory PC set_PC].
    now rewrite E.
Qed.

Lemma fetch_operand16_cases (s : machine) (k : Z) :
  0 <= PC (cpu s) + k ->
  fetch_operand16 (at_pc s k) =
  if PC (cpu s) + k + 1 >=? MEMORY_SIZE
  then Exit (Memory_access_out_of_bounds (PC (cpu s) + k))
  else (immediate <- fetchImmediate (memory s) (PC (cpu s) + k) ;;
        Ok (immediate, at_pc s (k + 2))).
Proof.
  intros H0. destruct (PC (cpu s) + k + 1 >=? MEMORY_SIZE) eqn:E.
  - unfold fetch_operand16, fetchImmediate, at_pc. cbn [cpu memory PC set_PC].
    now rewrite E.
  - apply fetch_operand16_at; [exact H0|].
    rewrite Z.geb_leb in E. apply Z.leb_gt in E. lia.
Qed.

Lemma skip_byte_at (s : machine) (k : Z) :
  0 <= PC (cpu s) + k < 65535 ->
  with_cpu (at_pc s k)
    (set_PC (cpu (at_pc s k)) (uint16 (PC (cpu (at_pc s k)) + 1)))
  = at_pc s (k + 1).
Proof.
  intros H. unfold with_cpu, at_pc, set_PC, uint16, MEMORY_SIZE in *.
  cbn [cpu memory stdout REG1 REG2 ADDR1 ADDR2 PC flag_Z flag_N flag_O].
  rewrite Z.mod_small by lia. now rewrite Z.add_assoc.
Qed.

Lemma step_cases (s : machine) :
  step s =
  if in_memory (PC (cpu s))
  then execute (code_byte s 0) (PC (cpu s)) (at_pc s 1)
  else Undef (Read_outside (PC (cpu s))).
Proof.
  destruct (in_memory (PC (cpu s))) eqn:E; [now apply step_at|].
  unfold step, fetch_byte, mem_read. now rewrite E.
Qed.

Lemma in_memory_bounds (i : Z) : in_memory i = true -> 0 <= i < MEMORY_SIZE.
Proof.
  unfold in_memory. intros H. apply andb_true_iff in H. destruct H as [H1 H2].
  apply Z.leb_le in H1. apply Z.ltb_lt in H2. lia.
Qed.

Lemma jump_ladder (opcode : Z) (c : CPU) :
  (if opcode =? JMP then true
   else if (opcode =? JMPZ) && negb (flag_Z c =? 0) then true
   else if (opcode =? JMPN) && negb (flag_N c =? 0) then true
   else if (opcode =? JMPO) && negb (flag_O c =? 0) then true
   else false) = jump_taken opcode c.
Proof.
  unfold jump_taken.
  destruct (opcode =? JMP); [reflexivity|].
  destruct ((opcode =? JMPZ) && negb (flag_Z c =? 0)); [reflexivity|].
  destruct ((opcode =? JMPN) && negb (flag_N c =? 0)); [reflexivity|].
  now destruct ((opcode =? JMPO) && negb (flag_O c =? 0)).
Qed.

(** Reading the hypothesis [H : ... = Ok (st, s')] of a handler down to
    its final state. *)
Ltac crunch H :=
  repeat first
    [ discriminate H
    | rewrite fetch_byte_cases in H
    | rewrite fetch_operand16_cases in H by lia
    | rewrite skip_byte_at in H by (unfold MEMORY_SIZE in *; lia)
    | progress cbn [bind] in H
    | match goal with
      | E : in_memory _ = true |- _ => apply in_memory_bounds in E
      end
    | match type of H with
      | context [if ?b then _ else _] => destruct b eqn:?
      | context [bind (fetchImmediate ?m ?a) _] =>
          destruct (fetchImmediate m a) as [?| |] eqn:?
      end ].

Ltac constants :=
  repeat match goal with
         | |- context [is_jump ?c] =>
             let v := eval vm_compute in (is_jump c) in
             change (is_jump c) with v
         | |- context [is_opcode ?c] =>
             let v := eval vm_compute in (is_opcode c) in
             change (is_opcode c) with v
         | |- context [opcode_length ?c] =>
             let v := eval vm_compute in (opcode_length c) in
             change (opcode_length c) with v
         | |- context [stores ?c] =>
             let v := eval vm_compute in (stores c) in
             change (stores c) with v
         | |- context [prints ?c] =>
             let v := eval vm_compute in (prints c) in
             change (prints c) with v
         end;
  cbn [andb].

Ltac effect_done :=
  unfold opcode_effect; constants;
  try match goal with
      | Ej : jump_taken _ _ = _ |- _ => rewrite Ej
      end;
  cbn [cpu memory stdout REG1 REG2 ADDR1 ADDR2 PC flag_Z flag_N flag_O
       set_PC set_REG1 set_REG2 set_ADDR1 set_ADDR2 with_cpu print at_pc
       set_flags set_flags_for_load];
  repeat match goal with |- _ /\ _ => split end;
  first
    [ reflexivity
    | lia
    | assumption
    | match goal with
      | E : (_ <? _) = true |- _ => apply Z.ltb_lt in E; exact E
      end
    | split; intros _; reflexivity
    | split; intros X; first [discriminate X | vm_compute in X; discriminate X]
    | intros _; reflexivity
    | discriminate
    | exists []; rewrite app_nil_r; repeat split; cbn; lia
    | eexists [_]; repeat split; first [cbn; lia | discriminate]
    | idtac ].

Ltac handler H :=
  unfold load_register, address_register, store16, mem_write, mem_read,
    arith_immediate, arith_register in H;
  crunch H; injection H as <- <-; effect_done.

Ltac this_opcode E := apply Z.eqb_eq in E; subst.

Lemma execute_effect (opcode pc : Z) (s : machine) (st : status)
  (s' : machine) :
  0 <= PC (cpu s) < MEMORY_SIZE ->
  execute opcode pc (at_pc s 1) = Ok (st, s') ->
  opcode_effect opcode s st s'.
Proof.
  intros Hpc H. unfold execute in H.
  destruct (opcode =? HALT) eqn:E0; [this_opcode E0; handler H|].
  destruct (opcode =? LOAD) eqn:E1; [this_opcode E1; handler H|].
  destruct (opcode =? LOADI) eqn:E2; [this_opcode E2; handler H|].
  destruct (opcode =? STORE) eqn:E3; [this_opcode E3; handler H|].
  destruct (opcode =? STOREI) eqn:E4; [this_opcode E4; handler H|].
  destruct (opcode =? ADD) eqn:E5; [this_opcode E5; handler H|].
  destruct (opcode =? ADDR) eqn:E6; [this_opcode E6; handler H|].
  destruct (opcode =? SUB) eqn:E7; [this_opcode E7; handler H|].
  destruct (opcode =? SUBR) eqn:E8; [this_opcode E8; handler H|].
  destruct ((opcode =? JMP) || (opcode =? JMPZ) || (opcode =? JMPN)
            || (opcode =? JMPO)) eqn:E9.
  { assert (Hj : forall k, jump_taken opcode (cpu (at_pc s k))
                          = jump_taken opcode (cpu s)) by reflexivity.
    rewrite fetch_byte_cases in H.
    destruct (in_memory (PC (cpu s) + 1)) eqn:Em; [|discriminate H].
    apply in_memory_bounds in Em. cbn [bind] in H.
    destruct (PC (cpu (at_pc s (1 + 1))) >=? MEMORY_SIZE); [discriminate H|].
    rewrite fetch_operand16_cases in H by lia.
    destruct (PC (cpu s) + (1 + 1) + 1 >=? MEMORY_SIZE); [discriminate H|].
    destruct (fetchImmediate (memory s) (PC (cpu s) + (1 + 1)))
      as [immediate| |] eqn:Ef; cbn [bind] in H; try discriminate H.
    rewrite jump_ladder, Hj in H.
    destruct (jump_taken opcode (cpu s)) eqn:Ej.
    - destruct (immediate <? MEMORY_SIZE) eqn:Ei; [|discriminate H].
      injection H as <- <-.
      repeat (apply orb_true_iff in E9; destruct E9 as [E9 | E9]).
      all: this_opcode E9; effect_done.
    - injection H as <- <-.
      repeat (apply orb_true_iff in E9; destruct E9 as [E9 | E9]).
      all: this_opcode E9; effect_done. }
  destruct (opcode =? OUT) eqn:E10; [this_opcode E10; handler H|].
  destruct (opcode =? OUTC) eqn:E11; [this_opcode E11; handler H|].
  destruct (opcode =? OUTR) eqn:E12; [this_opcode E12; handler H|].
  destruct (opcode =? OUTRC) eqn:E13; [this_opcode E13; handler H|].
  destruct (opcode =? OUTI) eqn:E14; [this_opcode E14; handler H|].
  destruct (opcode =? OUTIC) eqn:E15; [this_opcode E15; handler H|].
  discriminate H.
Qed.

Lemma step_has_effect (s : machine) (st : status) (s' : machine) :
  step s = Ok (st, s') -> step_effect s st s'.
Proof.
  intros H. rewrite step_cases in H.
  destruct (in_memory (PC (cpu s))) eqn:E; [|discriminate H].
  split; [exact E|].
  apply (execute_effect _ (PC (cpu s))); [|exact H].
  now apply in_memory_bounds.
Qed.

(** X4. Unless it takes a jump, a step that ends normally advances PC by
    exactly the length of the instruction at PC: 1 for HALT, 2 for the
    register forms, 4 for the forms with a 16-bit operand and for the
    jumps that are not taken. *)
Theorem step_advances_pc (s : machine) (st : status) (s' : machine) :
  step s = Ok (st, s') ->
  is_jump (code_byte s 0) && jump_taken (code_byte s 0) (cpu s) = false ->
  PC (cpu s') = PC (cpu s) + opcode_length (code_byte s 0).
Proof.
  intros H Hj. apply step_has_effect in H.
  destruct H as [_ [_ [_ [Hpc _]]]]. now rewrite Hj in Hpc.
Qed.

(** X5. A step that ends normally leaves memory as it was unless the
    opcode is STORE or STOREI, and leaves what was written on stdout in
    place: it appends at most one item, and none unless the opcode is one
    of the six OUT forms. *)
Theorem step_frame (s : machine) (st : status) (s' : machine) :
  step s = Ok (st, s') ->
  (stores (code_byte s 0) = false -> memory s' = memory s) /\
  exists l,
    stdout s' = stdout s ++ l /\ (List.length l <= 1)%nat /\
    (prints (code_byte s 0) = false -> l = []).
Proof.
  intros H. apply step_has_effect in H.
  destruct H as [_ [_ [_ [_ [Hm Ho]]]]]. now split.
Qed.

(** X6. The loop of the interpreter stops normally on the opcode HALT and
    on no other: a step ends in [Halted] exactly when the byte at PC is
    HALT, and a step that ends normally at all found one of the nineteen
    opcodes there. *)
Theorem step_halts_on_HALT (s : machine) (st : status) (s' : machine) :
  step s = Ok (st, s') ->
  is_opcode (code_byte s 0) = true /\
  (st = Halted <-> code_byte s 0 = HALT).
Proof.
  intros H. apply step_has_effect in H.
  destruct H as [_ [Hop [Hh _]]]. now split.
Qed.

(** X7. A byte at PC that is none of the nineteen opcodes ends the run on
    the unknown-opcode diagnostic, which carries that byte and the PC it
    was read at. *)
Theorem unknown_opcode_exits (s : machine) :
  in_memory (PC (cpu s)) = true ->
  is_opcode (code_byte s 0) = false ->
  step s = Exit (Unknown_opcode (code_byte s 0) (PC (cpu s))).
Proof.
  intros Hin Hop. rewrite step_cases, Hin.
  unfold is_opcode in Hop.
  apply orb_false_iff in Hop. destruct Hop as [Hh Hr].
  apply Z.eqb_neq in Hh.
  assert (Hout : code_byte s 0 < LOAD \/ OUTIC < code_byte s 0).
  { apply andb_false_iff in Hr. destruct Hr as [Hr | Hr].
    - apply Z.leb_gt in Hr. now left.
    - apply Z.leb_gt in Hr. now right. }
  assert (Hne : forall c, c = HALT \/ LOAD <= c <= OUTIC ->
                          (code_byte s 0 =? c) = false).
  { intros c Hc. apply Z.eqb_neq. unfold HALT, LOAD, OUTIC in *. lia. }
  unfold execute.
  rewrite !Hne by (vm_compute; intuition congruence).
  reflexivity.
Qed.

Lemma step_advances_pc_witness :
  let s := boot [LOAD; R1; 0; 7; HALT] in
  exists st s',
    step s = Ok (st, s') /\
    is_jump (code_byte s 0) && jump_taken (code_byte s 0) (cpu s) = false /\
    PC (cpu s') = 4.
Proof.
  intros s.
  destruct (step s) as [[st s']| |] eqn:E; try (vm_compute in E; discriminate E).
  assert (Hj : is_jump (code_byte s 0) && jump_taken (code_byte s 0) (cpu s)
               = false) by (vm_compute; reflexivity).
  exists st, s'. split; [reflexivity|]. split; [exact Hj|].
  rewrite (step_advances_pc s st s' E Hj). vm_compute. reflexivity.
Defined.

Lemma step_frame_witness :
  let s := boot [OUT; 0; 0; 65] in
  exists st s',
    step s = Ok (st, s') /\
    memory s' = memory s /\
    exists l, stdout s' = stdout s ++ l /\ (List.length l <= 1)%nat.
Proof.
  intros s.
  destruct (step s) as [[st s']| |] eqn:E; try (vm_compute in E; discriminate E).
  exists st, s'. split; [reflexivity|].
  destruct (step_frame s st s' E) as [Hm [l [Hl [Hn _]]]].
  split; [apply Hm; vm_compute; reflexivity|].
  exists l. now split.
Defined.

Lemma step_halts_on_HALT_witness :
  let s := boot [HALT] in
  exists st s', step s = Ok (st, s') /\ st = Halted.
Proof.
  intros s.
  destruct (step s) as [[st s']| |] eqn:E; try (vm_compute in E; discriminate E).
  exists st, s'. split; [reflexivity|].
  apply (step_halts_on_HALT s st s' E). vm_compute. reflexivity.
Defined.

Lemma unknown_opcode_exits_witness :
  let s := boot [0x42] in
  (in_memory (PC (cpu s)) = true /\ is_opcode (code_byte s 0) = false) /\
  step s = Exit (Unknown_opcode 0x42 0).
Proof.
  intros s.
  assert (H1 : in_memory (PC (cpu s)) = true) by (vm_compute; reflexivity).
  assert (H2 : is_opcode (code_byte s 0) = false) by (vm_compute; reflexivity).
  split; [now split|].
  exact (unknown_opcode_exits s H1 H2).
Defined.

(** ** Jumps and loads *)

(** The handler of a jump instruction that lies inside memory. *)
Lemma execute_jump (s : machine) (target pc : Z) :
  0 <= PC (cpu s) -> PC (cpu s) + 3 < MEMORY_SIZE ->
  is_jump (code_byte s 0) = true ->
  fetchImmediate (memory s) (PC (cpu s) + 2) = Ok target ->
  execute (code_byte s 0) pc (at_pc s 1) =
  if jump_taken (code_byte s 0) (cpu s)
  then if target <? MEMORY_SIZE
       then Ok (Running, with_cpu s (set_PC (cpu s) target))
       else Exit (Jump_to_invalid_memory target)
  else Ok (Running, at_pc s 4).
Proof.
  intros H0 H3 Hj Hf.
  unfold execute. unfold is_jump in Hj.
  assert (Hn : forall c, In c [HALT; LOAD; LOADI; STORE; STOREI; ADD; ADDR;
                               SUB; SUBR] ->
                         (code_byte s 0 =? c) = false).
  { intros c Hc. apply Z.eqb_neq. intros Heq. rewrite Heq in Hj.
    simpl in Hc.
    repeat (destruct Hc as [<- | Hc]; [discriminate Hj|]). contradiction. }
  rewrite !Hn by (simpl; tauto). rewrite Hj.
  rewrite fetch_byte_cases, in_memory_true by lia. cbn [bind].
  change (PC (cpu (at_pc s (1 + 1)))) with (PC (cpu s) + (1 + 1)).
  destruct (PC (cpu s) + (1 + 1) >=? MEMORY_SIZE) eqn:E.
  { apply Z.geb_le in E. lia. }
  rewrite fetch_operand16_cases by lia.
  destruct (PC (cpu s) + (1 + 1) + 1 >=? MEMORY_SIZE) eqn:E'.
  { apply Z.geb_le in E'. lia. }
  change (PC (cpu s) + (1 + 1)) with (PC (cpu s) + 2). rewrite Hf. cbn [bind].
  rewrite jump_ladder.
  change (jump_taken (code_byte s 0) (cpu (at_pc s (1 + 1 + 2))))
    with (jump_taken (code_byte s 0) (cpu s)).
  destruct (jump_taken (code_byte s 0) (cpu s)); reflexivity.
Qed.

(** The step of a jump instruction that lies inside memory. *)
Lemma step_jump (s : machine) (target : Z) :
  0 <= PC (cpu s) -> PC (cpu s) + 3 < MEMORY_SIZE ->
  is_jump (code_byte s 0) = true ->
  fetchImmediate (memory s) (PC (cpu s) + 2) = Ok target ->
  step s =
  if jump_taken (code_byte s 0) (cpu s)
  then if target <? MEMORY_SIZE
       then Ok (Running, with_cpu s (set_PC (cpu s) target))
       else Exit (Jump_to_invalid_memory target)
  else Ok (Running, at_pc s 4).
Proof.
  intros H0 H3 Hj Hf.
  rewrite step_at by (apply in_memory_true; lia).
  now apply execute_jump.
Qed.

(** X8. A jump instruction inside memory transfers control exactly when
    it is JMP, or JMPZ, JMPN or JMPO with its flag set.  A jump taken to a
    target below the capacity sets PC to the target and changes nothing
    else; taken to a target at or beyond the capacity it exits on a
    diagnostic; a jump not taken only moves PC past its four bytes, its
    target being ignored, in range or not. *)
Theorem jump_semantics (s : machine) (target : Z) :
  0 <= PC (cpu s) -> PC (cpu s) + 3 < MEMORY_SIZE ->
  is_jump (code_byte s 0) = true ->
  fetchImmediate (memory s) (PC (cpu s) + 2) = Ok target ->
  step s =
  if jump_taken (code_byte s 0) (cpu s)
  then if target <? MEMORY_SIZE
       then Ok (Running, with_cpu s (set_PC (cpu s) target))
       else Exit (Jump_to_invalid_memory target)
  else Ok (Running, at_pc s 4).
Proof.
  intros H0 H3 Hj Hf.
  rewrite step_at by (apply in_memory_true; lia).
  now apply execute_jump.
Qed.

Lemma jump_semantics_witness :
  let s := mkMachine (mkCPU 0 0 0 0 0 1 0 0)
             (load_program [JMPZ; 0; 0x90; 0x00] mem_zero) [] in
  (0 <= PC (cpu s) /\ PC (cpu s) + 3 < MEMORY_SIZE /\
   is_jump (code_byte s 0) = true /\
   fetchImmediate (memory s) (PC (cpu s) + 2) = Ok 0x9000) /\
  step s = Exit (Jump_to_invalid_memory 0x9000).
Proof.
  intros s.
  assert (H0 : 0 <= PC (cpu s)) by (vm_compute; congruence).
  assert (H3 : PC (cpu s) + 3 < MEMORY_SIZE) by (vm_compute; reflexivity).
  assert (Hj : is_jump (code_byte s 0) = true) by (vm_compute; reflexivity).
  assert (Hf : fetchImmediate (memory s) (PC (cpu s) + 2) = Ok 0x9000)
    by (vm_compute; reflexivity).
  split; [now repeat split|].
  rewrite (jump_semantics s 0x9000 H0 H3 Hj Hf). vm_compute. reflexivity.
Defined.

(** The handler of LOAD on an instruction that lies inside memory. *)
Lemma execute_load (s : machine) (immediate pc : Z) :
  0 <= PC (cpu s) -> PC (cpu s) + 3 < MEMORY_SIZE ->
  code_byte s 0 = LOAD ->
  fetchImmediate (memory s) (PC (cpu s) + 2) = Ok immediate ->
  let c := cpu (at_pc s 4) in
  let flags c' :=
    mkCPU (REG1 c') (REG2 c') (ADDR1 c') (ADDR2 c') (PC c')
          (c_bool (immediate =? 0)) (c_bool (sign_bit immediate)) (flag_O c') in
  execute LOAD pc (at_pc s 1) =
  Ok (Running,
      with_cpu s
        (if code_byte s 1 =? R1 then flags (set_REG1 c immediate)
         else if code_byte s 1 =? R2 then flags (set_REG2 c immediate)
         else if code_byte s 1 =? A1 then set_ADDR1 c immediate
         else if code_byte s 1 =? A2 then set_ADDR2 c immediate
         else c)).
Proof.
  intros H0 H3 Hop Hf c flags.
  change (execute LOAD pc (at_pc s 1))
    with ('(reg, s1) <- fetch_byte (at_pc s 1) ;;
          '(imm, s2) <- fetch_operand16 s1 ;;
          s3 <- load_register s2 reg imm (Ok s2) ;;
          Ok (Running, s3)).
  rewrite fetch_byte_cases, in_memory_true by lia. cbn [bind].
  rewrite fetch_operand16_cases by lia.
  destruct (PC (cpu s) + (1 + 1) + 1 >=? MEMORY_SIZE) eqn:E.
  { apply Z.geb_le in E. lia. }
  change (PC (cpu s) + (1 + 1)) with (PC (cpu s) + 2). rewrite Hf. cbn [bind].
  unfold load_register, set_flags_for_load. subst c flags. cbv beta.
  rewrite !sign_test_zero.
  destruct (code_byte s 1 =? R1); [reflexivity|].
  destruct (code_byte s 1 =? R2); [reflexivity|].
  destruct (code_byte s 1 =? A1); [reflexivity|].
  destruct (code_byte s 1 =? A2); reflexivity.
Qed.

(** The step of a LOAD instruction that lies inside memory. *)
Lemma step_load (s : machine) (immediate : Z) :
  0 <= PC (cpu s) -> PC (cpu s) + 3 < MEMORY_SIZE ->
  code_byte s 0 = LOAD ->
  fetchImmediate (memory s) (PC (cpu s) + 2) = Ok immediate ->
  let c := cpu (at_pc s 4) in
  let flags c' :=
    mkCPU (REG1 c') (REG2 c') (ADDR1 c') (ADDR2 c') (PC c')
          (c_bool (immediate =? 0)) (c_bool (sign_bit immediate)) (flag_O c') in
  step s =
  Ok (Running,
      with_cpu s
        (if code_byte s 1 =? R1 then flags (set_REG1 c immediate)
         else if code_byte s 1 =? R2 then flags (set_REG2 c immediate)
         else if code_byte s 1 =? A1 then set_ADDR1 c immediate
         else if code_byte s 1 =? A2 then set_ADDR2 c immediate
         else c)).
Proof.
  intros H0 H3 Hop Hf c flags.
  rewrite step_at by (apply in_memory_true; lia).
  rewrite Hop. now apply execute_load.
Qed.

(** X9. LOAD inside memory writes its immediate into the register its
    second byte names; with R1 or R2 it sets Z and N from the value and
    leaves O, with A1 or A2 it leaves the three flags, and with any other
    byte it changes nothing but PC. *)
Theorem load_semantics (s : machine) (immediate : Z) :
  0 <= PC (cpu s) -> PC (cpu s) + 3 < MEMORY_SIZE ->
  code_byte s 0 = LOAD ->
  fetchImmediate (memory s) (PC (cpu s) + 2) = Ok immediate ->
  let c := cpu (at_pc s 4) in
  let flags c' :=
    mkCPU (REG1 c') (REG2 c') (ADDR1 c') (ADDR2 c') (PC c')
          (c_bool (immediate =? 0)) (c_bool (sign_bit immediate)) (flag_O c') in
  step s =
  Ok (Running,
      with_cpu s
        (if code_byte s 1 =? R1 then flags (set_REG1 c immediate)
         else if code_byte s 1 =? R2 then flags (set_REG2 c immediate)
         else if code_byte s 1 =? A1 then set_ADDR1 c immediate
         else if code_byte s 1 =? A2 then set_ADDR2 c immediate
         else c)).
Proof.
  intros H0 H3 Hop Hf c flags.
  rewrite step_at by (apply in_memory_true; lia).
  rewrite Hop. now apply execute_load.
Qed.

Lemma load_semantics_witness :
  let s := boot [LOAD; A1; 0x80; 0x00] in
  (0 <= PC (cpu s) /\ PC (cpu s) + 3 < MEMORY_SIZE /\
   code_byte s 0 = LOAD /\
   fetchImmediate (memory s) (PC (cpu s) + 2) = Ok 0x8000) /\
  exists s',
    step s = Ok (Running, s') /\
    cpu s' = mkCPU 0 0 0x8000 0 4 0 0 0.
Proof.
  intros s.
  assert (H0 : 0 <= PC (cpu s)) by (vm_compute; congruence).
  assert (H3 : PC (cpu s) + 3 < MEMORY_SIZE) by (vm_compute; reflexivity).
  assert (Hop : code_byte s 0 = LOAD) by (vm_compute; reflexivity).
  assert (Hf : fetchImmediate (memory s) (PC (cpu s) + 2) = Ok 0x8000)
    by (vm_compute; reflexivity).
  split; [now repeat split|].
  eexists. split; [exact (load_semantics s 0x8000 H0 H3 Hop Hf)|].
  vm_compute. reflexivity.
Defined.

(** ** Runs *)

(** A run that has ended within some bound ends the same way within any
    larger one. *)
Lemma processor_cycle_more_fuel (fuel fuel' : nat) (s : machine)
  (r : vm machine) :
  processor_cycle fuel s = Some r -> (fuel <= fuel')%nat ->
  processor_cycle fuel' s = Some r.
Proof.
  revert fuel' s. induction fuel as [|fuel IH]; intros fuel' s H Hle.
  - discriminate H.
  - destruct fuel' as [|fuel']; [lia|].
    cbn [processor_cycle] in *.
    destruct (step s) as [[[|] s1]| |]; try exact H.
    apply IH; [exact H | lia].
Qed.

Lemma with_same_pc (s : machine) : with_cpu s (set_PC (cpu s) (PC (cpu s))) = s.
Proof. now destruct s as [[] m o]. Qed.

(** X10. A JMP whose target is its own address never lets the run end:
    whatever the bound on the iterations, the loop is still running when
    the bound is reached. *)
Theorem jump_to_itself_never_halts (s : machine) :
  0 <= PC (cpu s) -> PC (cpu s) + 3 < MEMORY_SIZE ->
  code_byte s 0 = JMP ->
  fetchImmediate (memory s) (PC (cpu s) + 2) = Ok (PC (cpu s)) ->
  forall fuel, processor_cycle fuel s = None.
Proof.
  intros H0 H3 Hop Hf.
  assert (Hs : step s = Ok (Running, s)).
  { assert (Hj : is_jump (code_byte s 0) = true) by now rewrite Hop.
    rewrite (step_jump s (PC (cpu s)) H0 H3 Hj Hf).
    rewrite Hop. change (jump_taken JMP (cpu s)) with true. cbv iota.
    destruct (Z.ltb_spec (PC (cpu s)) MEMORY_SIZE); [|lia].
    now rewrite with_same_pc. }
  induction fuel as [|fuel IH]; [reflexivity|].
  cbn [processor_cycle]. now rewrite Hs.
Qed.

Lemma jump_to_itself_never_halts_witness :
  let s := spinning in
  (0 <= PC (cpu s) /\ PC (cpu s) + 3 < MEMORY_SIZE /\
   code_byte s 0 = JMP /\
   fetchImmediate (memory s) (PC (cpu s) + 2) = Ok (PC (cpu s))) /\
  processor_cycle 1000 s = None.
Proof.
  intros s.
  assert (H0 : 0 <= PC (cpu s)) by (vm_compute; congruence).
  assert (H3 : PC (cpu s) + 3 < MEMORY_SIZE) by (vm_compute; reflexivity).
  assert (Hop : code_byte s 0 = JMP) by (vm_compute; reflexivity).
  assert (Hf : fetchImmediate (memory s) (PC (cpu s) + 2) = Ok (PC (cpu s)))
    by (vm_compute; reflexivity).
  split; [now repeat split|].
  exact (jump_to_itself_never_halts s H0 H3 Hop Hf 1000%nat).
Defined.

(** X11. What a run has written on stdout stays: the output at the end of a
    run that ends at HALT is the output it started with, followed by what
    the run wrote. *)
Theorem processor_cycle_extends_output (fuel : nat) (s s' : machine) :
  processor_cycle fuel s = Some (Ok s') ->
  exists l, stdout s' = stdout s ++ l.
Proof.
  revert s. induction fuel as [|fuel IH]; intros s H; [discriminate H|].
  cbn [processor_cycle] in H.
  destruct (step s) as [[st s1]| |] eqn:E; try discriminate H.
  apply step_has_effect in E.
  destruct E as [_ [_ [_ [_ [_ [l [Hl _]]]]]]].
  destruct st.
  - destruct (IH s1 H) as [l' Hl']. exists (l ++ l').
    now rewrite Hl', Hl, app_assoc.
  - injection H as <-. now exists l.
Qed.

Lemma processor_cycle_extends_output_witness :
  let s := mkMachine initialize_cpu
             (load_program [OUT; 0; 0; 7; HALT] mem_zero) [PrintChar 65] in
  exists s',
    processor_cycle 2 s = Some (Ok s') /\
    exists l, stdout s' = [PrintChar 65] ++ l.
Proof.
  intros s.
  destruct (processor_cycle 2 s) as [[s'| |]|] eqn:E;
    try (vm_compute in E; discriminate E).
  exists s'. split; [reflexivity|].
  exact (processor_cycle_extends_output 2 s s' E).
Defined.

(* ================================================================= *)
(** * Further properties of the assembler *)

(** ** Registers *)

Lemma get_register_code_cases (reg : string) :
  (reg = "R1"%string /\ get_register_code reg = 1) \/
  (reg = "R2"%string /\ get_register_code reg = 0) \/
  (reg = "A1"%string /\ get_register_code reg = 3) \/
  (reg = "A2"%string /\ get_register_code reg = 2) \/
  (~ In reg register_names /\ get_register_code reg = 0xFF).
Proof.
  unfold get_register_code, streq.
  destruct (String.eqb_spec reg "R1"); [now left|].
  destruct (String.eqb_spec reg "R2"); [now right; left|].
  destruct (String.eqb_spec reg "A1"); [now right; right; left|].
  destruct (String.eqb_spec reg "A2"); [now right; right; right; left|].
  right; right; right; right. split; [|reflexivity].
  simpl. intuition congruence.
Qed.

Lemma get_register_code_range (reg : string) :
  (get_register_code reg = 0xFF <-> ~ In reg register_names) /\
  (In reg register_names -> 0 <= get_register_code reg < 4).
Proof.
  pose proof (get_register_code_cases reg) as H.
  repeat split.
  - intros E.
    destruct H as [[-> H] | [[-> H] | [[-> H] | [[-> H] | [H _]]]]];
      try exact H; rewrite H in E; discriminate E.
  - intros Hn.
    destruct H as [[-> H] | [[-> H] | [[-> H] | [[-> H] | [_ H]]]]];
      try exact H; exfalso; apply Hn; simpl; tauto.
  - destruct H as [[-> H] | [[-> H] | [[-> H] | [[-> H] | [Hn _]]]]];
      try (rewrite H; lia). contradiction.
  - destruct H as [[-> H] | [[-> H] | [[-> H] | [[-> H] | [Hn _]]]]];
      try (rewrite H; lia). contradiction.
Qed.

(** X12. [get_register_code] returns the error value 0xFF exactly for the
    texts that are not one of R1, R2, A1, A2; the codes of the four
    names fit two bits and are pairwise distinct. *)
Theorem get_register_code_valid (reg reg' : string) :
  (get_register_code reg = 0xFF <-> ~ In reg register_names) /\
  (In reg register_names -> 0 <= get_register_code reg < 4) /\
  (In reg register_names -> In reg' register_names ->
   get_register_code reg = get_register_code reg' -> reg = reg').
Proof.
  destruct (get_register_code_range reg) as [Hv Hr].
  split; [exact Hv|]. split; [exact Hr|].
  pose proof (get_register_code_cases reg) as H.
  pose proof (get_register_code_cases reg') as H'.
  intros Hin Hin' E.
  destruct H as [[-> H] | [[-> H] | [[-> H] | [[-> H] | [Hn _]]]]];
    try contradiction;
    destruct H' as [[-> H'] | [[-> H'] | [[-> H'] | [[-> H'] | [Hn' _]]]]];
    try contradiction; try reflexivity;
    rewrite H, H' in E; discriminate E.
Qed.

Lemma get_register_code_valid_witness :
  In "A1"%string register_names /\ 0 <= get_register_code "A1" < 4.
Proof.
  assert (H : In "A1"%string register_names) by (simpl; tauto).
  split; [exact H|].
  exact (proj1 (proj2 (get_register_code_valid "A1" "A1")) H).
Defined.

Lemma packed_fields (r1 r2 : Z) :
  0 <= r1 < 4 -> 0 <= r2 < 4 ->
  let b := uint8 (Z.lor (Z.shiftl r2 6) (Z.land r1 0x03)) in
  field_low b = r1 /\ field_high b = r2.
Proof.
  intros H1 H2.
  assert (C1 : r1 = 0 \/ r1 = 1 \/ r1 = 2 \/ r1 = 3) by lia.
  assert (C2 : r2 = 0 \/ r2 = 1 \/ r2 = 2 \/ r2 = 3) by lia.
  destruct C1 as [-> | [-> | [-> | ->]]];
    destruct C2 as [-> | [-> | [-> | ->]]]; split; reflexivity.
Qed.

(** X13. For LOADI, STOREI, ADDR and SUBR with two register names, the
    second pass emits the opcode and one byte from which the interpreter's
    field extraction gives back the code of the first operand (bits 1-0)
    and the code of the second (bits 7-6); with a text that is not a
    register name in either place it exits on a diagnostic. *)
Theorem packed_operands_round_trip (tbl : symbol_table)
  (instruction operand1 operand2 : string) (opcode : Z) :
  In (instruction, opcode) packed_forms ->
  (In operand1 register_names -> In operand2 register_names ->
   exists reg_byte,
     two_operands tbl instruction operand1 operand2 = Ok [opcode; reg_byte] /\
     0 <= reg_byte < 256 /\
     field_low reg_byte = get_register_code operand1 /\
     field_high reg_byte = get_register_code operand2) /\
  (~ In operand1 register_names \/ ~ In operand2 register_names ->
   two_operands tbl instruction operand1 operand2 =
   Exit (Invalid_register_in_instruction instruction operand1 operand2)).
Proof.
  intros Hin.
  assert (Hbody :
    two_operands tbl instruction operand1 operand2 =
    if (get_register_code operand1 =? 0xFF) || (get_register_code operand2 =? 0xFF)
    then Exit (Invalid_register_in_instruction instruction operand1 operand2)
    else Ok [opcode;
             uint8 (Z.lor (Z.shiftl (get_register_code operand2) 6)
                          (Z.land (get_register_code operand1) 0x03))]).
  { simpl in Hin.
    repeat (destruct Hin as [[= <- <-] | Hin]; [reflexivity|]).
    contradiction. }
  rewrite Hbody.
  destruct (get_register_code_range operand1) as [Hv1 Hr1].
  destruct (get_register_code_range operand2) as [Hv2 Hr2].
  split.
  - intros H1 H2. specialize (Hr1 H1). specialize (Hr2 H2).
    destruct (Z.eqb_spec (get_register_code operand1) 0xFF); [lia|].
    destruct (Z.eqb_spec (get_register_code operand2) 0xFF); [lia|].
    cbn [orb]. eexists. split; [reflexivity|].
    split; [apply Z.mod_pos_bound; lia|].
    now apply packed_fields.
  - intros [H | H].
    + apply Hv1 in H. rewrite H. reflexivity.
    + apply Hv2 in H. rewrite H. now rewrite orb_true_r.
Qed.

Lemma packed_operands_round_trip_witness :
  (In ("STOREI", STOREI)%string packed_forms /\
   In "R1"%string register_names /\ In "A2"%string register_names) /\
  exists reg_byte,
    two_operands [] "STOREI" "R1" "A2" = Ok [STOREI; reg_byte] /\
    field_low reg_byte = R1 /\ field_high reg_byte = A2.
Proof.
  assert (H0 : In ("STOREI", STOREI)%string packed_forms) by (simpl; tauto).
  assert (H1 : In "R1"%string register_names) by (simpl; tauto).
  assert (H2 : In "A2"%string register_names) by (simpl; tauto).
  split; [now repeat split|].
  destruct (proj1 (packed_operands_round_trip [] "STOREI" "R1" "A2" STOREI H0)
              H1 H2) as [b [Hb [_ [Hl Hh]]]].
  exists b. split; [exact Hb|]. split; [exact Hl | exact Hh].
Defined.

(** ** Symbol table *)

Lemma find_label_app (t1 t2 : symbol_table) (name : string) :
  find_label (t1 ++ t2) name =
  match find_label t1 name with
  | Some a => Some a
  | None => find_label t2 name
  end.
Proof.
  induction t1 as [|e t1 IH]; [reflexivity|].
  simpl. now destruct (streq (label e) name).
Qed.

Lemma find_label_in (tbl : symbol_table) (name : string) :
  (exists a, find_label tbl name = Some a) <-> In name (map label tbl).
Proof.
  induction tbl as [|e tbl IH]; simpl.
  - split; [intros [a H]; discriminate H | contradiction].
  - unfold streq. destruct (String.eqb_spec (label e) name) as [E | E].
    + split; [now left | intros _; eauto].
    + rewrite IH. split; [now right | intros [H | H]; [contradiction | exact H]].
Qed.

(** X14. [add_label] fails, on the overflow diagnostic, exactly when the
    table already holds 256 entries.  Otherwise the table has one entry
    more, a name that was absent now resolves to the address given, a
    name that was present keeps the address it had, and every other name
    resolves as before. *)
Theorem add_label_then_find_label (tbl : symbol_table) (name : string)
  (addr : Z) :
  (add_label tbl name addr = Exit Symbol_table_overflow
   <-> (256 <= List.length tbl)%nat) /\
  ((List.length tbl < 256)%nat ->
   exists tbl',
     add_label tbl name addr = Ok tbl' /\
     List.length tbl' = S (List.length tbl) /\
     find_label tbl' name
     = Some (match find_label tbl name with Some a => a | None => addr end) /\
     forall other, other <> name -> find_label tbl' other = find_label tbl other).
Proof.
  unfold add_label, MAX_LABELS.
  destruct (Nat.leb_spec 256 (List.length tbl)) as [Hge | Hlt].
  - split; [tauto | lia].
  - split; [split; [discriminate | lia]|]. intros _.
    exists (tbl ++ [mkLabel name addr]). split; [reflexivity|].
    split; [rewrite length_app; simpl; lia|]. split.
    + rewrite find_label_app. destruct (find_label tbl name); [reflexivity|].
      simpl. unfold streq. now rewrite String.eqb_refl.
    + intros other Hne. rewrite find_label_app.
      destruct (find_label tbl other); [reflexivity|].
      simpl. unfold streq.
      destruct (String.eqb_spec name other); [congruence | reflexivity].
Qed.

Lemma add_label_then_find_label_witness :
  (List.length [mkLabel "loop" 0] < 256)%nat /\
  exists tbl',
    add_label [mkLabel "loop" 0] "loop" 8 = Ok tbl' /\
    find_label tbl' "loop" = Some 0 /\
    find_label tbl' "end" = None.
Proof.
  assert (H : (List.length [mkLabel "loop" 0] < 256)%nat) by (simpl; lia).
  split; [exact H|].
  destruct (proj2 (add_label_then_find_label [mkLabel "loop" 0] "loop" 8) H)
    as [tbl' [Ha [_ [Hf Ho]]]].
  exists tbl'. split; [exact Ha|]. split; [exact Hf|].
  rewrite Ho by discriminate. reflexivity.
Defined.

Lemma first_pass_line_bound (lc : Z) (tbl : symbol_table) (line : string)
  (r : pass1) :
  first_pass_line lc tbl line = Ok r ->
  (List.length tbl <= 256)%nat -> (List.length (table r) <= 256)%nat.
Proof.
  intros H Hb. pose proof (first_pass_line_table lc tbl line r H) as Ht.
  rewrite first_pass_line_spec in H.
  destruct (mnemonic_of line) as [m|].
  - destruct (label_of line) as [name|]; [|now rewrite Ht].
    unfold add_label, MAX_LABELS in H.
    destruct (Nat.leb_spec 256 (List.length tbl)); [discriminate H|].
    rewrite Ht, length_app. simpl. lia.
  - injection H as <-. exact Hb.
Qed.

Lemma first_pass_from_bound (lines : list string) :
  forall lc tbl lc' tbl' lines' addresses,
    first_pass_from lc tbl lines = Ok (lc', tbl', lines', addresses) ->
    (List.length tbl <= 256)%nat -> (List.length tbl' <= 256)%nat.
Proof.
  induction lines as [|l rest IH]; intros lc tbl lc' tbl' lines' addresses.
  - cbn. now intros [= _ <- _ _].
  - cbn [first_pass_from].
    destruct (first_pass_line lc tbl l) as [r| |] eqn:Er; cbn [bind];
      try discriminate.
    destruct (first_pass_from (location_counter r) (table r) rest)
      as [[[[lc1 tbl1] lines1] addr1]| |] eqn:Ef; cbn [bind]; try discriminate.
    intros [= _ <- _ _] Hb.
    apply (IH _ _ _ _ _ _ Ef). now apply (first_pass_line_bound lc tbl l).
Qed.

Lemma first_pass_from_defined (lines : list string) :
  forall lc tbl u, first_pass_from lc tbl lines <> Undef u.
Proof.
  induction lines as [|l rest IH]; intros lc tbl u; [discriminate|].
  cbn [first_pass_from].
  pose proof (first_pass_line_outcome lc tbl l) as Ho.
  destruct (first_pass_line lc tbl l) as [r| |]; cbn [bind];
    [|discriminate|contradiction].
  specialize (IH (location_counter r) (table r) u).
  destruct (first_pass_from (location_counter r) (table r) rest)
    as [[[[lc1 tbl1] lines1] addr1]| |]; cbn [bind]; congruence.
Qed.

(** X15. The symbol table of an accepted program has exactly as many
    entries as the program has label-bearing lines, and at most 256; a
    program with more than 256 label-bearing lines is rejected in the
    first pass. *)
Theorem symbol_table_capacity (lines : list string) :
  (forall lc tbl lines' addresses,
      first_pass lines = Ok (lc, tbl, lines', addresses) ->
      List.length tbl = List.length (labels_of lines) /\
      (List.length tbl <= 256)%nat) /\
  ((256 < List.length (labels_of lines))%nat ->
   exists d, first_pass lines = Exit d).
Proof.
  assert (Hok : forall lc tbl lines' addresses,
      first_pass lines = Ok (lc, tbl, lines', addresses) ->
      List.length tbl = List.length (labels_of lines) /\
      (List.length tbl <= 256)%nat).
  { intros lc tbl lines' addresses H. split.
    - pose proof (first_pass_from_labels lines 0 [] lc tbl lines' addresses H)
        as Hl.
      simpl in Hl. now rewrite <- Hl, length_map.
    - apply (first_pass_from_bound lines 0 [] lc tbl lines' addresses H).
      simpl. lia. }
  split; [exact Hok|].
  intros Hmany. unfold first_pass in *.
  destruct (first_pass_from 0 [] lines) as [[[[lc tbl] lines'] addr]|d|u] eqn:E.
  - destruct (Hok lc tbl lines' addr eq_refl). lia.
  - now exists d.
  - exfalso. exact (first_pass_from_defined lines 0 [] u E).
Qed.

Lemma symbol_table_capacity_witness :
  first_pass duplicate_label_program
    = Ok (5, [mkLabel "x" 0; mkLabel "x" 4], ["LOAD R1, 1"; "HALT"]%string,
          [Some 0; Some 4]) /\
  List.length [mkLabel "x" 0; mkLabel "x" 4]
    = List.length (labels_of duplicate_label_program).
Proof.
  assert (H : first_pass duplicate_label_program
              = Ok (5, [mkLabel "x" 0; mkLabel "x" 4],
                    ["LOAD R1, 1"; "HALT"]%string, [Some 0; Some 4]))
    by (vm_compute; reflexivity).
  split; [exact H|].
  exact (proj1 (proj1 (symbol_table_capacity duplicate_label_program)
                  _ _ _ _ H)).
Defined.

(** X16. After the first pass every label of the program resolves,
    wherever in the source it is defined, and no other name does: a
    reference may precede the definition of its label. *)
Theorem labels_resolve (lines : list string) (lc : Z) (tbl : symbol_table)
  (lines' : list string) (addresses : list (option Z)) (name : string) :
  first_pass lines = Ok (lc, tbl, lines', addresses) ->
  (In name (labels_of lines) <-> exists a, find_label tbl name = Some a).
Proof.
  intros H.
  pose proof (first_pass_from_labels lines 0 [] lc tbl lines' addresses H) as Hl.
  simpl in Hl. rewrite <- Hl. symmetry. apply find_label_in.
Qed.

Lemma labels_resolve_witness :
  let lines := ["JMP end"; "LOAD R1, 1"; "end HALT"]%string in
  first_pass lines
    = Ok (9, [mkLabel "end" 8], ["JMP end"; "LOAD R1, 1"; "HALT"]%string,
          [Some 0; Some 4; Some 8]) /\
  In "end"%string (labels_of lines) /\
  exists a, find_label [mkLabel "end" 8] "end" = Some a.
Proof.
  intros lines.
  assert (H : first_pass lines
              = Ok (9, [mkLabel "end" 8],
                    ["JMP end"; "LOAD R1, 1"; "HALT"]%string,
                    [Some 0; Some 4; Some 8])) by (vm_compute; reflexivity).
  assert (Hin : In "end"%string (labels_of lines)) by (vm_compute; tauto).
  split; [exact H|]. split; [exact Hin|].
  exact (proj1 (labels_resolve lines _ _ _ _ "end" H) Hin).
Defined.

(** ** The two passes over a whole program *)

Lemma second_pass_from_written (tbl : symbol_table) (lines : list string) :
  forall written,
    second_pass_from tbl lines written =
    (written ++ fst (second_pass_from tbl lines []),
     snd (second_pass_from tbl lines [])).
Proof.
  induction lines as [|l rest IH]; intros written.
  - simpl. now rewrite app_nil_r.
  - cbn [second_pass_from].
    destruct (second_pass_line tbl l) as [bytes| |];
      [|simpl; now rewrite app_nil_r..].
    rewrite (IH (written ++ bytes)), (IH ([] ++ bytes)).
    cbn [fst snd app]. now rewrite app_assoc.
Qed.

Lemma second_pass_from_app (tbl : symbol_table) (l1 l2 : list string) :
  forall written out,
    second_pass_from tbl (l1 ++ l2) written = (out, Ok tt) ->
    exists mid,
      second_pass_from tbl l1 written = (mid, Ok tt) /\
      second_pass_from tbl l2 mid = (out, Ok tt).
Proof.
  induction l1 as [|l rest IH]; intros written out H.
  - exists written. now split.
  - cbn [app second_pass_from] in *.
    destruct (second_pass_line tbl l) as [bytes| |]; try discriminate H.
    now apply IH.
Qed.

(** X17. When the second pass fails on a line, what it has written is
    exactly the encoding of the lines before it: the lines after the
    failing one are not examined, and nothing of the failing line is
    written. *)
Theorem second_pass_stops_at_first_error (tbl : symbol_table)
  (before : list string) (line : string) (after : list string)
  (bytes : list Z) (d : asm_diagnostic) :
  second_pass tbl before = (bytes, Ok tt) ->
  second_pass_line tbl line = Exit d ->
  second_pass tbl (before ++ line :: after) = (bytes, Exit d).
Proof.
  unfold second_pass. generalize (@nil Z) as written.
  induction before as [|l rest IH]; intros written Hb Hl.
  - cbn in *. rewrite Hl. now injection Hb as <-.
  - cbn [app second_pass_from] in *.
    destruct (second_pass_line tbl l) as [b| |]; try discriminate Hb.
    now apply IH.
Qed.

Lemma second_pass_stops_at_first_error_witness :
  (second_pass [] ["LOAD R1, 5"]%string = ([LOAD; R1; 0; 5], Ok tt) /\
   second_pass_line [] "JMP nowhere" = Exit (Undefined_label "nowhere")) /\
  second_pass []
    (["LOAD R1, 5"%string] ++ "JMP nowhere"%string :: ["HALT"%string])
    = ([LOAD; R1; 0; 5], Exit (Undefined_label "nowhere")).
Proof.
  assert (H1 : second_pass [] ["LOAD R1, 5"]%string
               = ([LOAD; R1; 0; 5], Ok tt)) by (vm_compute; reflexivity).
  assert (H2 : second_pass_line [] "JMP nowhere"
               = Exit (Undefined_label "nowhere")) by (vm_compute; reflexivity).
  split; [now split|].
  exact (second_pass_stops_at_first_error [] _ _ ["HALT"%string] _ _ H1 H2).
Defined.

Lemma bind_ok {E A B : Type} (t : result E A) (k : A -> result E B) (b : B) :
  bind t k = Ok b -> exists a, t = Ok a /\ k a = Ok b.
Proof. destruct t as [a| |]; cbn [bind]; try discriminate. eauto. Qed.

(** The location counter after a line both passes accept, from the bytes
    the second pass writes for it. *)
Lemma line_advance (lc : Z) (tbl tbl2 : symbol_table) (line : string)
  (r : pass1) (bytes : list Z) :
  0 <= lc < 65536 ->
  first_pass_line lc tbl line = Ok r ->
  second_pass_line tbl2 (line_out r) = Ok bytes ->
  location_counter r = uint16 (lc + Z.of_nat (List.length bytes)).
Proof.
  intros Hlc H1 H2.
  rewrite first_pass_line_spec in H1.
  pose proof (second_pass_reads_mnemonic line) as Hm.
  apply second_pass_line_length in H2.
  revert H1. destruct (mnemonic_of line) as [m|] eqn:Em.
  - intros H1. apply bind_ok in H1. destruct H1 as [tbl' [_ H1]]. revert H1.
    destruct (mnemonic_length m) as [n|] eqn:En; [|discriminate].
    intros [= <-]. cbn [line_out location_counter] in *.
    rewrite Hm in H2. congruence.
  - intros [= <-]. cbn [line_out location_counter] in *.
    assert (Hf : first_word (trim_whitespace (strip_comments line)) = None).
    { unfold mnemonic_of in Em.
      pose proof (sscanf_word_rest_cases (trim_whitespace (strip_comments line)))
        as Hc.
      destruct (sscanf_word_rest (trim_whitespace (strip_comments line)))
        as [|w [|rest [|x xs]]]; try exact Em.
      destruct Hc as [Hw [m Hm']]. destruct (is_instruction w); congruence. }
    rewrite Hf in H2. subst bytes. simpl. rewrite Z.add_0_r.
    unfold uint16. now rewrite Z.mod_small.
Qed.

Lemma first_pass_line_range (lc : Z) (tbl : symbol_table) (line : string)
  (r : pass1) :
  0 <= lc < 65536 -> first_pass_line lc tbl line = Ok r ->
  0 <= location_counter r < 65536.
Proof.
  intros Hlc H. rewrite first_pass_line_spec in H.
  destruct (mnemonic_of line) as [m|].
  - apply bind_ok in H. destruct H as [tbl' [_ H]].
    destruct (mnemonic_length m); [|discriminate H].
    injection H as <-. apply Z.mod_pos_bound. lia.
  - now injection H as <-.
Qed.

Lemma passes_length (lines : list string) :
  forall lc tbl lc' tbl' lines' addresses tbl2 out,
    0 <= lc < 65536 ->
    first_pass_from lc tbl lines = Ok (lc', tbl', lines', addresses) ->
    second_pass_from tbl2 lines' [] = (out, Ok tt) ->
    lc' = uint16 (lc + Z.of_nat (List.length out)).
Proof.
  induction lines as [|l rest IH];
    intros lc tbl lc' tbl' lines' addresses tbl2 out Hlc H1 H2.
  - cbn in H1. injection H1 as <- _ <- _. cbn in H2. injection H2 as <-.
    simpl. rewrite Z.add_0_r. unfold uint16. now rewrite Z.mod_small.
  - cbn [first_pass_from] in H1.
    destruct (first_pass_line lc tbl l) as [r| |] eqn:Er; cbn [bind] in H1;
      try discriminate H1.
    destruct (first_pass_from (location_counter r) (table r) rest)
      as [[[[lc1 tbl1] lines1] addr1]| |] eqn:Ef; cbn [bind] in H1;
      try discriminate H1.
    injection H1 as <- _ <- _.
    cbn [second_pass_from] in H2.
    destruct (second_pass_line tbl2 (line_out r)) as [bytes| |] eqn:Eb;
      try discriminate H2.
    rewrite second_pass_from_written in H2. injection H2 as <- Hs.
    assert (Hrest : second_pass_from tbl2 lines1 []
                    = (fst (second_pass_from tbl2 lines1 []), Ok tt)).
    { rewrite <- Hs. now destruct (second_pass_from tbl2 lines1 []). }
    rewrite (IH _ _ _ _ _ _ tbl2 _ (first_pass_line_range _ _ _ _ Hlc Er)
               Ef Hrest).
    rewrite (line_advance lc tbl tbl2 l r bytes Hlc Er Eb).
    cbn [app]. rewrite length_app, Nat2Z.inj_add. unfold uint16.
    rewrite Zplus_mod_idemp_l. f_equal. lia.
Qed.

(** X18. For a program that both passes accept, the location counter the
    first pass ends with is the number of bytes the second pass has
    written, modulo 65536: the two passes agree on the length of the
    whole program. *)
Theorem output_length_is_location_counter (lines : list string)
  (out : list Z) :
  sasm_main lines = (out, Ok tt) ->
  exists lc tbl lines' addresses,
    first_pass lines = Ok (lc, tbl, lines', addresses) /\
    second_pass tbl lines' = (out, Ok tt) /\
    lc = uint16 (Z.of_nat (List.length out)).
Proof.
  unfold sasm_main, first_pass, second_pass.
  destruct (first_pass_from 0 [] lines) as [[[[lc tbl] lines'] addr]| |] eqn:E;
    try discriminate.
  intros H. exists lc, tbl, lines', addr. split; [reflexivity|].
  split; [exact H|].
  apply (passes_length lines 0 [] lc tbl lines' addr tbl out); try assumption.
  lia.
Qed.

Lemma output_length_is_location_counter_witness :
  sasm_main overflow_program
    = ([ADD; R1; 0x7f; 0xff; ADD; R1; 0; 1; HALT], Ok tt) /\
  exists lc tbl lines' addresses,
    first_pass overflow_program = Ok (lc, tbl, lines', addresses) /\ lc = 9.
Proof.
  assert (H : sasm_main overflow_program
              = ([ADD; R1; 0x7f; 0xff; ADD; R1; 0; 1; HALT], Ok tt))
    by (vm_compute; reflexivity).
  split; [exact H|].
  destruct (output_length_is_location_counter _ _ H)
    as [lc [tbl [lines' [addr [H1 [_ H3]]]]]].
  exists lc, tbl, lines', addr. split; [exact H1|]. rewrite H3. reflexivity.
Defined.

Lemma first_pass_from_app (pre post : list string) :
  forall lc tbl lc' tbl' lines' addresses,
    first_pass_from lc tbl (pre ++ post) = Ok (lc', tbl', lines', addresses) ->
    exists lc1 tbl1 l1 a1 l2 a2,
      first_pass_from lc tbl pre = Ok (lc1, tbl1, l1, a1) /\
      first_pass_from lc1 tbl1 post = Ok (lc', tbl', l2, a2) /\
      lines' = l1 ++ l2 /\ addresses = a1 ++ a2 /\
      List.length l1 = List.length pre.
Proof.
  induction pre as [|l rest IH]; intros lc tbl lc' tbl' lines' addresses H.
  - exists lc, tbl, [], [], lines', addresses. now repeat split.
  - cbn [app first_pass_from] in *.
    destruct (first_pass_line lc tbl l) as [r| |]; cbn [bind] in *;
      try discriminate H.
    apply bind_ok in H. destruct H as [[[[lc2 tbl2] lines2] addr2] [Hf H]].
    injection H as <- <- <- <-.
    destruct (IH _ _ _ _ _ _ Hf) as [lc1 [tbl1 [l1 [a1 [l2 [a2 [H1 [H2 [-> [-> Hlen]]]]]]]]]].
    rewrite H1. cbn [bind].
    exists lc1, tbl1, (line_out r :: l1), (instruction_address r :: a1), l2, a2.
    repeat split; try assumption. simpl. now rewrite Hlen.
Qed.

Lemma first_pass_from_grows (lines : list string) :
  forall lc tbl lc' tbl' lines' addresses,
    first_pass_from lc tbl lines = Ok (lc', tbl', lines', addresses) ->
    exists more, tbl' = tbl ++ more.
Proof.
  induction lines as [|l rest IH]; intros lc tbl lc' tbl' lines' addresses H.
  - cbn in H. injection H as _ <- _ _. exists []. now rewrite app_nil_r.
  - cbn [first_pass_from] in H.
    destruct (first_pass_line lc tbl l) as [r| |] eqn:Er; cbn [bind] in H;
      try discriminate H.
    apply bind_ok in H. destruct H as [[[[lc2 tbl2] lines2] addr2] [Hf H]].
    injection H as _ <- _ _.
    destruct (IH _ _ _ _ _ _ Hf) as [more ->].
    rewrite (first_pass_line_table _ _ _ _ Er).
    destruct (label_of l) as [name|]; [|now exists more].
    exists (mkLabel name lc :: more). now rewrite <- app_assoc.
Qed.

Lemma find_label_unique (tbl : symbol_table) (name : string) (a : Z) :
  NoDup (map label tbl) -> In (mkLabel name a) tbl ->
  find_label tbl name = Some a.
Proof.
  induction tbl as [|e tbl IH]; [contradiction|].
  simpl. intros Hnd Hin. inversion Hnd as [|? ? Hnot Hnd']. subst.
  unfold streq. destruct Hin as [-> | Hin].
  - simpl. now rewrite String.eqb_refl.
  - destruct (String.eqb_spec (label e) name) as [E | E].
    + exfalso. apply Hnot. rewrite E.
      change name with (label (mkLabel name a)). now apply in_map.
    + now apply IH.
Qed.

(** X19. In a program that both passes accept, the address the first pass
    records for the label of a line is the offset, modulo 65536, at which
    the second pass writes the bytes of that line: the number of bytes
    written for the lines before it.  When the labels of the program are
    pairwise distinct, that offset is what [find_label] returns for the
    label. *)
Theorem label_address_is_output_offset (pre : list string) (line : string)
  (post : list string) (name : string) (lc : Z) (tbl : symbol_table)
  (lines' : list string) (addresses : list (option Z)) (out : list Z) :
  first_pass (pre ++ line :: post) = Ok (lc, tbl, lines', addresses) ->
  second_pass tbl lines' = (out, Ok tt) ->
  label_of line = Some name ->
  exists before after,
    out = before ++ after /\
    second_pass tbl (firstn (List.length pre) lines') = (before, Ok tt) /\
    In (mkLabel name (uint16 (Z.of_nat (List.length before)))) tbl /\
    (NoDup (labels_of (pre ++ line :: post)) ->
     find_label tbl name = Some (uint16 (Z.of_nat (List.length before)))).
Proof.
  unfold first_pass, second_pass. intros H1 H2 Hlab.
  pose proof (first_pass_from_labels _ _ _ _ _ _ _ H1) as Hnames.
  destruct (first_pass_from_app pre (line :: post) _ _ _ _ _ _ H1)
    as [lc1 [tbl1 [l1 [a1 [l2 [a2 [Hpre [Hpost [-> [-> Hlen]]]]]]]]]].
  destruct (second_pass_from_app tbl l1 l2 [] out H2) as [before [Hb Ha]].
  rewrite second_pass_from_written in Ha. injection Ha as Hout _.
  exists before, (fst (second_pass_from tbl l2 [])).
  split; [now symmetry|].
  split; [now rewrite <- Hlen, firstn_app, firstn_all, Nat.sub_diag, app_nil_r|].
  assert (Hlc1 : lc1 = uint16 (Z.of_nat (List.length before))).
  { apply (passes_length pre 0 [] lc1 tbl1 l1 a1 tbl before); [lia | | ];
      assumption. }
  assert (Hin : In (mkLabel name (uint16 (Z.of_nat (List.length before)))) tbl).
  { cbn [first_pass_from] in Hpost.
    destruct (first_pass_line lc1 tbl1 line) as [r| |] eqn:Er;
      cbn [bind] in Hpost; try discriminate Hpost.
    apply bind_ok in Hpost.
    destruct Hpost as [[[[lc2 tbl2] lines2] addr2] [Hf Hp]].
    injection Hp as _ <- _ _.
    destruct (first_pass_from_grows _ _ _ _ _ _ _ Hf) as [more ->].
    rewrite (first_pass_line_table _ _ _ _ Er), Hlab, <- Hlc1.
    apply in_or_app. left. apply in_or_app. right. now left. }
  split; [exact Hin|].
  intros Hnd. apply find_label_unique; [|exact Hin].
  simpl in Hnames. now rewrite Hnames.
Qed.

Lemma label_address_is_output_offset_witness :
  let pre := ["JMP end"; "LOAD R1, 1"]%string in
  first_pass (pre ++ "end HALT"%string :: [])
    = Ok (9, [mkLabel "end" 8], ["JMP end"; "LOAD R1, 1"; "HALT"]%string,
          [Some 0; Some 4; Some 8]) /\
  second_pass [mkLabel "end" 8] ["JMP end"; "LOAD R1, 1"; "HALT"]%string
    = ([JMP; 0; 0; 8; LOAD; R1; 0; 1; HALT], Ok tt) /\
  label_of "end HALT" = Some "end"%string /\
  exists before after,
    [JMP; 0; 0; 8; LOAD; R1; 0; 1; HALT] = before ++ after /\
    In (mkLabel "end" (uint16 (Z.of_nat (List.length before))))
       [mkLabel "end" 8].
Proof.
  intros pre.
  assert (H1 : first_pass (pre ++ "end HALT"%string :: [])
               = Ok (9, [mkLabel "end" 8],
                     ["JMP end"; "LOAD R1, 1"; "HALT"]%string,
                     [Some 0; Some 4; Some 8])) by (vm_compute; reflexivity).
  assert (H2 : second_pass [mkLabel "end" 8]
                 ["JMP end"; "LOAD R1, 1"; "HALT"]%string
               = ([JMP; 0; 0; 8; LOAD; R1; 0; 1; HALT], Ok tt))
    by (vm_compute; reflexivity).
  assert (H3 : label_of "end HALT" = Some "end"%string)
    by (vm_compute; reflexivity).
  split; [exact H1|]. split; [exact H2|]. split; [exact H3|].
  destruct (label_address_is_output_offset pre _ [] _ _ _ _ _ _ H1 H2 H3)
    as [before [after [Ho [_ [Hin _]]]]].
  now exists before, after.
Defined.

(** ** The encoding and the interpreter *)

Lemma two_operands_opcode (tbl : symbol_table) (a b c : string)
  (bytes : list Z) :
  two_operands tbl a b c = Ok bytes ->
  exists opcode rest,
    In (a, opcode) mnemonic_opcodes /\ bytes = opcode :: rest /\
    is_opcode opcode = true /\
    opcode_length opcode = Z.of_nat (List.length bytes).
Proof.
  unfold two_operands.
  destruct (streq a "LOAD" || streq a "ADD" || streq a "SUB" || streq a "STORE")
    eqn:E1.
  - destruct (get_register_code b =? 255); [discriminate|].
    destruct (label_or_literal tbl c); cbn [bind]; try discriminate.
    intros [= <-]. one_of E1; eexists; eexists;
      (split; [simpl; tauto|]); repeat split.
  - destruct (streq a "LOADI" || streq a "STOREI" || streq a "ADDR"
              || streq a "SUBR") eqn:E2; [|discriminate].
    destruct ((get_register_code b =? 255) || (get_register_code c =? 255));
      [discriminate|].
    intros [= <-]. one_of E2; eexists; eexists;
      (split; [simpl; tauto|]); repeat split.
Qed.

Lemma one_operand_opcode (tbl : symbol_table) (a b : string) (bytes : list Z) :
  one_operand tbl a b = Ok bytes ->
  a = "DATA"%string \/
  exists opcode rest,
    In (a, opcode) mnemonic_opcodes /\ bytes = opcode :: rest /\
    is_opcode opcode = true /\
    opcode_length opcode = Z.of_nat (List.length bytes).
Proof.
  unfold one_operand.
  destruct (streq a "JMP" || streq a "JMPZ" || streq a "JMPN" || streq a "JMPO"
            || streq a "DATA" || streq a "OUTR" || streq a "OUTRC"
            || streq a "OUTI" || streq a "OUTIC" || streq a "OUT"
            || streq a "OUTC") eqn:E; [|discriminate].
  destruct (streq a "OUTR" || streq a "OUTRC" || streq a "OUTI"
            || streq a "OUTIC") eqn:E1.
  { destruct (get_register_code b =? 255); [discriminate|].
    intros [= <-]. right. one_of E1; eexists; eexists;
      (split; [simpl; tauto|]); repeat split. }
  destruct (streq a "OUT" || streq a "OUTC") eqn:E2.
  { destruct (label_or_literal tbl b); cbn [bind]; try discriminate.
    intros [= <-]. right. one_of E2; eexists; eexists;
      (split; [simpl; tauto|]); repeat split. }
  destruct (streq a "DATA") eqn:E3.
  { intros _. left. now apply streq_eq. }
  destruct (find_label tbl b); [|discriminate].
  intros [= <-]. right. one_of E; try discriminate; eexists; eexists;
      (split; [simpl; tauto|]); repeat split.
Qed.

(** X20. Whatever the second pass writes for a line other than a DATA line
    begins with the opcode of the line's mnemonic, and the number of bytes
    written is the number of bytes the interpreter consumes for that
    opcode: the encoder and the decoder agree on every instruction
    length. *)
Theorem encoding_matches_decoder (tbl : symbol_table) (line : string)
  (bytes : list Z) :
  second_pass_line tbl line = Ok bytes ->
  match first_word (trim_whitespace (strip_comments line)) with
  | None => bytes = []
  | Some m =>
      m = "DATA"%string \/
      exists opcode rest,
        In (m, opcode) mnemonic_opcodes /\ bytes = opcode :: rest /\
        is_opcode opcode = true /\
        opcode_length opcode = Z.of_nat (List.length bytes)
  end.
Proof.
  unfold second_pass_line.
  set (l := trim_whitespace (strip_comments line)).
  destruct (trim_whitespace_head (strip_comments line)) as [He | [c [r [He Hsp]]]];
    fold l in He.
  - rewrite He. simpl. now intros [= <-].
  - assert (Hlen : (String.length l =? 0)%nat = false) by now rewrite He.
    rewrite Hlen.
    destruct (sscanf_word_operands l) as [|a [|b [|c0 [|x xs]]]] eqn:E3.
    4: { rewrite (sscanf_word_operands_first l a _ E3).
         intros H. right. now apply (two_operands_opcode tbl a b c0). }
    all: destruct (sscanf_word_word l) as [|a2 [|b2 [|x2 xs2]]] eqn:E2.
    all: try (rewrite (sscanf_word_word_first l a2 _ E2);
              apply one_operand_opcode).
    all: rewrite sscanf_word_first;
      destruct (first_word l) as [m|]; try discriminate;
      destruct (streq m "HALT") eqn:Eh; try discriminate;
      intros [= <-]; apply streq_eq in Eh; subst; right;
      exists HALT, []; (split; [simpl; tauto|]); repeat split.
Qed.

Lemma encoding_matches_decoder_witness :
  second_pass_line [] "  OUTR R1  # show" = Ok [OUTR; R1] /\
  exists opcode rest,
    In ("OUTR"%string, opcode) mnemonic_opcodes /\
    [OUTR; R1] = opcode :: rest /\
    opcode_length opcode = 2.
Proof.
  assert (H : second_pass_line [] "  OUTR R1  # show" = Ok [OUTR; R1])
    by (vm_compute; reflexivity).
  split; [exact H|].
  pose proof (encoding_matches_decoder [] _ _ H) as He.
  assert (Hw : first_word (trim_whitespace (strip_comments "  OUTR R1  # show"))
               = Some "OUTR"%string) by (vm_compute; reflexivity).
  rewrite Hw in He. destruct He as [He | [opcode [rest [H1 [H2 [_ H3]]]]]].
  - discriminate He.
  - now exists opcode, rest.
Defined.

Lemma fetch_written (m : mem) (a v : Z) :
  a + 1 < MEMORY_SIZE -> [m a; m (a + 1)] = write16 v ->
  fetchImmediate m a = Ok (uint16 v).
Proof.
  intros Ha Hm. unfold write16 in Hm. injection Hm as H1 H2.
  rewrite fetchImmediate_inside by exact Ha.
  rewrite H1, H2, high_byte, low_byte.
  rewrite lor_bytes by (apply Z.mod_pos_bound; lia).
  rewrite bytes_of_word. unfold uint16. now rewrite Z.mod_mod by lia.
Qed.

Lemma code_at_pc_four (s : machine) (b0 b1 : Z) (v : Z) :
  code_at_pc s ([b0; b1] ++ write16 v) ->
  0 <= b0 < 256 -> 0 <= b1 < 256 ->
  code_byte s 0 = b0 /\ code_byte s 1 = b1 /\
  [memory s (PC (cpu s) + 2); memory s (PC (cpu s) + 2 + 1)] = write16 v.
Proof.
  intros H H0 H1. unfold code_at_pc in H. cbn [app write16 List.length] in H.
  pose proof (H 0%nat ltac:(lia)) as E0. pose proof (H 1%nat ltac:(lia)) as E1.
  pose proof (H 2%nat ltac:(lia)) as E2. pose proof (H 3%nat ltac:(lia)) as E3.
  cbn [nth] in *. unfold code_byte, uint8.
  change (Z.of_nat 0) with 0 in E0. change (Z.of_nat 1) with 1 in E1.
  change (Z.of_nat 2) with 2 in E2. change (Z.of_nat 3) with 3 in E3.
  rewrite E0, E1. rewrite !Z.mod_small by lia.
  repeat split. unfold write16.
  replace (PC (cpu s) + 2 + 1) with (PC (cpu s) + 3) by lia.
  now rewrite E2, E3.
Qed.

(** X21. The four bytes the second pass writes for [LOAD reg, operand],
    found at PC inside memory, make the interpreter put the value of the
    operand into the register that [reg] names, advance PC by 4 and leave
    memory and output as they were.  The value is the address of the
    label when the operand is one and otherwise, reduced modulo 65536,
    the number [atoi] reads, which [int] holds since the line was
    assembled. *)
Theorem assembled_load_executes (tbl : symbol_table) (reg operand : string)
  (bytes : list Z) (s : machine) :
  two_operands tbl "LOAD" reg operand = Ok bytes ->
  0 <= PC (cpu s) -> PC (cpu s) + 3 < MEMORY_SIZE ->
  code_at_pc s bytes ->
  exists value s',
    label_or_literal tbl operand = Ok value /\
    (find_label tbl operand = None ->
     INT_MIN <= atoi_value operand <= INT_MAX /\
     value = uint16 (atoi_value operand)) /\
    step s = Ok (Running, s') /\
    register_of (cpu s') (get_register_code reg) = uint16 value /\
    PC (cpu s') = PC (cpu s) + 4 /\
    memory s' = memory s /\ stdout s' = stdout s.
Proof.
  intros Ha H0 H3 Hcode.
  assert (Hb : exists value,
             label_or_literal tbl operand = Ok value /\
             bytes = [LOAD; get_register_code reg] ++ write16 value /\
             In reg register_names).
  { unfold two_operands in Ha. cbn [streq String.eqb Ascii.eqb Bool.eqb orb] in Ha.
    destruct (Z.eqb_spec (get_register_code reg) 0xFF) as [E | E];
      [discriminate Ha|].
    destruct (label_or_literal tbl operand) as [value| |]; cbn [bind] in Ha;
      try discriminate Ha.
    injection Ha as <-. exists value. split; [reflexivity|].
    split; [reflexivity|].
    destruct (get_register_code_cases reg)
      as [[-> _] | [[-> _] | [[-> _] | [[-> _] | [_ Hn]]]]];
      simpl; tauto. }
  destruct Hb as [value [Hv [-> Hreg]]].
  destruct (get_register_code_range reg) as [_ Hr]. specialize (Hr Hreg).
  destruct (code_at_pc_four s _ _ _ Hcode) as [E0 [E1 Ew]];
    [unfold LOAD; lia | lia |].
  apply fetch_written in Ew; [|lia].
  rewrite (step_load s _ H0 H3 E0 Ew). rewrite E1.
  exists value. eexists. split; [exact Hv|]. split.
  { intros Hf. rewrite (label_or_literal_miss tbl operand Hf) in Hv.
    destruct (INT_MIN <=? atoi_value operand) eqn:E2;
      destruct (atoi_value operand <=? INT_MAX) eqn:E3;
      try discriminate Hv.
    apply Z.leb_le in E2, E3. injection Hv as <-. now repeat split. }
  split; [reflexivity|].
  assert (C : get_register_code reg = R2 \/ get_register_code reg = R1 \/
              get_register_code reg = A2 \/ get_register_code reg = A1)
    by (unfold R1, R2, A1, A2; lia).
  destruct C as [-> | [-> | [-> | ->]]]; repeat split.
Qed.

Lemma assembled_load_executes_witness :
  let s := boot [LOAD; A2; 0x12; 0x34] in
  (two_operands [] "LOAD" "A2" "4660" = Ok [LOAD; A2; 0x12; 0x34] /\
   0 <= PC (cpu s) /\ PC (cpu s) + 3 < MEMORY_SIZE /\
   code_at_pc s [LOAD; A2; 0x12; 0x34]) /\
  exists s', step s = Ok (Running, s') /\ ADDR2 (cpu s') = 4660.
Proof.
  intros s.
  assert (Ha : two_operands [] "LOAD" "A2" "4660" = Ok [LOAD; A2; 0x12; 0x34])
    by (vm_compute; reflexivity).
  assert (H0 : 0 <= PC (cpu s)) by (vm_compute; congruence).
  assert (H3 : PC (cpu s) + 3 < MEMORY_SIZE) by (vm_compute; reflexivity).
  assert (Hc : code_at_pc s [LOAD; A2; 0x12; 0x34]).
  { intros k Hk. simpl in Hk.
    destruct k as [|[|[|[|k]]]]; try (vm_compute; reflexivity). lia. }
  split; [now repeat split|].
  destruct (assembled_load_executes [] "A2" "4660" _ s Ha H0 H3 Hc)
    as [value [s' [Hv [_ [Hs [Hr _]]]]]].
  exists s'. split; [exact Hs|].
  assert (Ev : value = 4660) by (vm_compute in Hv; congruence).
  rewrite Ev in Hr. exact Hr.
Defined.

(** X22. The four bytes the second pass writes for a jump to a label, found
    at PC inside memory, make the interpreter transfer control, when the
    jump is taken, to the address the symbol table gives for the label
    (reduced modulo 65536), and exit on a diagnostic when that address is
    at or beyond the capacity of memory. *)
Theorem assembled_jump_executes (tbl : symbol_table)
  (instruction name : string) (opcode : Z) (bytes : list Z) (s : machine) :
  In (instruction, opcode) jump_forms ->
  one_operand tbl instruction name = Ok bytes ->
  0 <= PC (cpu s) -> PC (cpu s) + 3 < MEMORY_SIZE ->
  code_at_pc s bytes ->
  exists target,
    find_label tbl name = Some target /\
    step s =
    if jump_taken opcode (cpu s)
    then if uint16 target <? MEMORY_SIZE
         then Ok (Running, with_cpu s (set_PC (cpu s) (uint16 target)))
         else Exit (Jump_to_invalid_memory (uint16 target))
    else Ok (Running, at_pc s 4).
Proof.
  intros Hin Ha H0 H3 Hcode.
  assert (Hb : exists target,
             find_label tbl name = Some target /\
             bytes = [opcode; 0] ++ write16 target).
  { simpl in Hin.
    repeat (destruct Hin as [[= <- <-] | Hin];
            [unfold one_operand in Ha;
             cbn [streq String.eqb Ascii.eqb Bool.eqb orb] in Ha;
             destruct (find_label tbl name) as [t|]; [|discriminate Ha];
             injection Ha as <-; now exists t|]).
    contradiction. }
  destruct Hb as [target [Hf ->]]. exists target. split; [exact Hf|].
  assert (Hop : 0 <= opcode < 256 /\ is_jump opcode = true).
  { simpl in Hin.
    repeat (destruct Hin as [[= _ <-] | Hin]; [split; [vm_compute; intuition congruence|reflexivity]|]).
    contradiction. }
  destruct Hop as [Hrange Hj].
  destruct (code_at_pc_four s _ _ _ Hcode) as [E0 [_ Ew]]; [lia | lia |].
  apply fetch_written in Ew; [|lia].
  rewrite <- E0 in Hj |- *.
  exact (step_jump s (uint16 target) H0 H3 Hj Ew).
Qed.

Lemma assembled_jump_executes_witness :
  let s := boot [JMP; 0; 0; 8] in
  (In ("JMP"%string, JMP) jump_forms /\
   one_operand [mkLabel "end" 8] "JMP" "end" = Ok [JMP; 0; 0; 8] /\
   0 <= PC (cpu s) /\ PC (cpu s) + 3 < MEMORY_SIZE /\
   code_at_pc s [JMP; 0; 0; 8]) /\
  step s = Ok (Running, with_cpu s (set_PC (cpu s) 8)).
Proof.
  intros s.
  assert (Hin : In ("JMP"%string, JMP) jump_forms) by (simpl; tauto).
  assert (Ha : one_operand [mkLabel "end" 8] "JMP" "end" = Ok [JMP; 0; 0; 8])
    by (vm_compute; reflexivity).
  assert (H0 : 0 <= PC (cpu s)) by (vm_compute; congruence).
  assert (H3 : PC (cpu s) + 3 < MEMORY_SIZE) by (vm_compute; reflexivity).
  assert (Hc : code_at_pc s [JMP; 0; 0; 8]).
  { intros k Hk. simpl in Hk.
    destruct k as [|[|[|[|k]]]]; try (vm_compute; reflexivity). lia. }
  split; [now repeat split|].
  destruct (assembled_jump_executes _ _ _ _ _ s Hin Ha H0 H3 Hc)
    as [target [Hf Hs]].
  assert (target = 8) by (vm_compute in Hf; congruence). subst target.
  rewrite Hs. reflexivity.
Defined.

(** ** Preprocessing and literals *)

Lemma drop_trailing_space_idem (s : string) :
  drop_trailing_space (drop_trailing_space s) = drop_trailing_space s.
Proof.
  induction s as [|c s IH]; [reflexivity|].
  cbn [drop_trailing_space].
  destruct (drop_trailing_space s) as [|d t] eqn:E.
  - destruct (isspace c) eqn:Ec; [reflexivity|].
    cbn [drop_trailing_space]. now rewrite Ec.
  - change (drop_trailing_space (String c (String d t)))
      with (match drop_trailing_space (String d t) with
            | EmptyString =>
                if isspace c then EmptyString else String c EmptyString
            | String e x => String c (String e x)
            end).
    now rewrite IH.
Qed.

Lemma drop_trailing_space_last (s : string) :
  match last_char (drop_trailing_space s) with
  | Some c => isspace c = false
  | None => drop_trailing_space s = EmptyString
  end.
Proof.
  induction s as [|c s IH]; [reflexivity|].
  cbn [drop_trailing_space].
  destruct (drop_trailing_space s) as [|d t].
  - destruct (isspace c) eqn:Ec; [reflexivity | exact Ec].
  - change (last_char (String c (String d t))) with (last_char (String d t)).
    destruct (last_char (String d t)); [exact IH | discriminate IH].
Qed.

Lemma trim_whitespace_shape (s : string) :
  trim_whitespace s = EmptyString \/
  exists c r,
    trim_whitespace s = String c (drop_trailing_space r) /\ isspace c = false.
Proof.
  unfold trim_whitespace. destruct (skip_space s) as [|c r] eqn:E; [now left|].
  right. exists c, r. split; [reflexivity|]. exact (skip_space_head s c r E).
Qed.

(** X23. What the passes parse, a line with its comment stripped and its
    ends trimmed, contains no comment marker, is empty or begins and ends
    with a character that is not whitespace, and is left as it is by a
    second preprocessing. *)
Theorem preprocessed_line (line : string) :
  let l := trim_whitespace (strip_comments line) in
  no_hash l = true /\
  (l = EmptyString \/
   exists c r last,
     l = String c r /\ isspace c = false /\
     last_char l = Some last /\ isspace last = false) /\
  trim_whitespace (strip_comments l) = l.
Proof.
  intros l.
  assert (Hh : no_hash l = true) by apply no_hash_trim_whitespace, no_hash_strip.
  split; [exact Hh|].
  rewrite (strip_comments_fixed l Hh).
  destruct (trim_whitespace_shape (strip_comments line))
    as [He | [c [r [He Hc]]]]; fold l in He; rewrite He.
  - split; [now left | reflexivity].
  - split.
    + right. pose proof (drop_trailing_space_last r) as Hl.
      destruct (drop_trailing_space r) as [|d t] eqn:Ed.
      * exists c, EmptyString, c. now repeat split.
      * change (last_char (String c (String d t)))
          with (last_char (String d t)).
        destruct (last_char (String d t)) as [x|]; [|discriminate Hl].
        exists c, (String d t), x. now repeat split.
    + unfold trim_whitespace. rewrite (skip_space_fixed c _ Hc).
      now rewrite drop_trailing_space_idem.
Qed.

Lemma atoi_digits_stops (c : ascii) (r : string) (acc : Z) :
  digit c = None -> atoi_digits acc (String c r) = acc.
Proof. intros H. simpl. now rewrite H. Qed.

(** X24. An operand that is neither in the symbol table nor a number, that
    is, whose first character after optional whitespace is neither a
    digit nor a sign, or that has no such character, assembles silently
    as the literal 0. *)
Theorem symbolic_operand_is_zero (tbl : symbol_table) (operand : string) :
  find_label tbl operand = None ->
  match skip_space operand with
  | EmptyString => True
  | String c _ => digit c = None /\ c <> "-"%char /\ c <> "+"%char
  end ->
  (atoi operand : asm Z) = Ok 0 /\ label_or_literal tbl operand = Ok 0.
Proof.
  intros Hf Hc.
  assert (Ha : atoi_value operand = 0).
  { unfold atoi_value. destruct (skip_space operand) as [|c r]; [reflexivity|].
    destruct Hc as [Hd [Hm Hp]].
    destruct (Ascii.eqb_spec c "-") as [E | _]; [contradiction|].
    destruct (Ascii.eqb_spec c "+") as [E | _]; [contradiction|].
    assert (Hg : atoi_digits 0 (String c r) = 0) by now apply atoi_digits_stops.
    destruct c as [[] [] [] [] [] [] [] []]; try exact Hg;
      first [now contradiction Hm | now contradiction Hp]. }
  assert (Hi : (atoi operand : asm Z) = Ok 0) by (unfold atoi; now rewrite Ha).
  split; [exact Hi|]. unfold label_or_literal. now rewrite Hf, Hi.
Qed.

Lemma symbolic_operand_is_zero_witness :
  (find_label [] "undefined_label" = None /\
   match skip_space "undefined_label" with
   | EmptyString => True
   | String c _ => digit c = None /\ c <> "-"%char /\ c <> "+"%char
   end) /\
  label_or_literal [] "undefined_label" = Ok 0.
Proof.
  assert (H1 : find_label [] "undefined_label" = None) by reflexivity.
  assert (H2 : match skip_space "undefined_label" with
               | EmptyString => True
               | String c _ => digit c = None /\ c <> "-"%char /\ c <> "+"%char
               end) by (vm_compute; repeat split; congruence).
  split; [now split|].
  exact (proj2 (symbolic_operand_is_zero [] "undefined_label" H1 H2)).
Defined.

(** ** Reading the source *)

Lemma fgets_length (n : nat) :
  forall input, (String.length (fst (fgets n input)) <= n)%nat.
Proof.
  induction n as [|n IH]; intros input; [simpl; lia|].
  destruct input as [|c rest]; [simpl; lia|].
  cbn [fgets]. destruct (Ascii.eqb c "010"); [simpl; lia|].
  specialize (IH rest). destruct (fgets n rest) as [chunk remaining].
  simpl in *. lia.
Qed.

Lemma span_plain (s : string) : plain (fst (span in_line s)) = true.
Proof.
  induction s as [|c s IH]; [reflexivity|].
  simpl. destruct (in_line c) eqn:E; [|reflexivity].
  destruct (span in_line s) as [tok tail]. simpl in *. now rewrite E.
Qed.

Lemma span_length (p : ascii -> bool) (s : string) :
  (String.length (fst (span p s)) <= String.length s)%nat.
Proof.
  induction s as [|c s IH]; [simpl; lia|].
  simpl. destruct (p c); [|simpl; lia].
  destruct (span p s) as [tok tail]. simpl in *. lia.
Qed.

(** One iteration of the loop of [main] on an input that is not at its
    end. *)
Lemma read_lines_step (room : nat) (c : ascii) (rest : string) :
  read_lines (S room) (String c rest)
  = (lines <- read_lines room (snd (fgets 99 (String c rest))) ;;
     Ok (cut_at_newline (fst (fgets 99 (String c rest))) :: lines)).
Proof.
  cbn [read_lines]. now destruct (fgets 99 (String c rest)).
Qed.

Lemma read_lines_shape (room : nat) :
  forall input,
    match read_lines room input with
    | Ok lines =>
        (List.length lines <= room)%nat /\
        Forall (fun l => (String.length l < 100)%nat /\ plain l = true) lines
    | Exit _ => False
    | Undef u => u = Line_outside MAX_LINES
    end.
Proof.
  induction room as [|room IH]; intros input.
  - destruct input; cbn [read_lines]; [split; [reflexivity | constructor]|].
    reflexivity.
  - destruct input as [|c rest]; [split; [simpl; lia | constructor]|].
    rewrite read_lines_step.
    pose proof (fgets_length 99 (String c rest)) as Hl.
    specialize (IH (snd (fgets 99 (String c rest)))).
    destruct (read_lines room (snd (fgets 99 (String c rest))))
      as [lines| |]; cbn [bind]; try exact IH.
    destruct IH as [Hn Hall]. split; [simpl; lia|].
    constructor; [|exact Hall]. split; [|apply span_plain].
    unfold cut_at_newline.
    pose proof (span_length in_line (fst (fgets 99 (String c rest)))). lia.
Qed.

(** X25. The loop of [main] that reads the source either fills the array
    [lines] within its 1024 entries, and then every line it hands to the
    passes is shorter than the 100-byte line buffers and contains neither
    a newline nor a NUL, or it stores a line beyond the array; it gives
    no diagnostic. *)
Theorem read_lines_fit_buffers (input : string) :
  match read_stdin input with
  | Ok lines =>
      (List.length lines <= 1024)%nat /\
      Forall (fun l => (String.length l < 100)%nat /\ plain l = true) lines
  | Exit _ => False
  | Undef u => u = Line_outside 1024
  end.
Proof. exact (read_lines_shape MAX_LINES input). Qed.

Lemma fgets_line (l rest : string) :
  plain l = true ->
  forall n, (String.length l < n)%nat ->
  fgets n (l ++ String "010" rest) = ((l ++ String "010" EmptyString)%string, rest).
Proof.
  induction l as [|c l IH]; intros Hp n Hn.
  - destruct n as [|n]; [simpl in Hn; lia|]. reflexivity.
  - destruct n as [|n]; [simpl in Hn; lia|].
    simpl in Hp. apply andb_true_iff in Hp. destruct Hp as [Hc Hp].
    unfold in_line in Hc. apply andb_true_iff in Hc. destruct Hc as [_ Hc].
    apply negb_true_iff in Hc.
    cbn [append fgets]. rewrite Hc.
    rewrite (IH Hp n) by (simpl in Hn; lia). reflexivity.
Qed.

Lemma cut_at_newline_line (l : string) :
  plain l = true -> cut_at_newline (l ++ String "010" EmptyString) = l.
Proof.
  unfold cut_at_newline. induction l as [|c l IH]; intros Hp; [reflexivity|].
  simpl in Hp. apply andb_true_iff in Hp. destruct Hp as [Hc Hp].
  cbn [append span]. rewrite Hc.
  specialize (IH Hp).
  destruct (span in_line (l ++ String "010" EmptyString)) as [tok tail].
  simpl in *. now rewrite IH.
Qed.

Lemma read_lines_unlines (ls : list string) :
  Forall (fun l => (String.length l < 99)%nat /\ plain l = true) ls ->
  forall room,
    read_lines room (unlines ls)
    = if (List.length ls <=? room)%nat then Ok ls
      else Undef (Line_outside MAX_LINES).
Proof.
  induction 1 as [|l ls [Hlen Hp] Hls IH]; intros room.
  - now destruct room.
  - cbn [unlines].
    assert (Hne : exists c r, (l ++ String "010" (unlines ls))%string = String c r).
    { destruct l; simpl; eauto. }
    destruct Hne as [c [r Hne]].
    destruct room as [|room]; [now rewrite Hne|].
    rewrite Hne, read_lines_step, <- Hne.
    rewrite (fgets_line l (unlines ls) Hp 99 Hlen). cbn [fst snd].
    rewrite (cut_at_newline_line l Hp), IH.
    cbn [List.length Nat.leb]. now destruct (List.length ls <=? room)%nat.
Qed.

(** X26. A source text whose lines are each ended by a newline, shorter
    than 99 characters and free of NUL is read back line for line when it
    has at most 1024 lines: [main] then assembles the lines of the text,
    without their newlines.  With more lines the loop stores a line beyond
    the array [lines], which C leaves undefined, before anything has been
    written. *)
Theorem read_stdin_unlines (ls : list string) :
  Forall (fun l => (String.length l < 99)%nat /\ plain l = true) ls ->
  read_stdin (unlines ls)
  = (if (List.length ls <=? 1024)%nat then Ok ls
     else Undef (Line_outside 1024)) /\
  sasm (unlines ls)
  = (if (List.length ls <=? 1024)%nat then sasm_main ls
     else ([], Undef (Line_outside 1024))).
Proof.
  intros H.
  assert (E : read_stdin (unlines ls)
              = if (List.length ls <=? 1024)%nat then Ok ls
                else Undef (Line_outside 1024))
    by exact (read_lines_unlines ls H MAX_LINES).
  split; [exact E|]. unfold sasm. rewrite E.
  now destruct (List.length ls <=? 1024)%nat.
Qed.

Lemma read_stdin_unlines_witness :
  let ls := ["start LOAD R1, 5"; ""; "  JMP start"]%string in
  Forall (fun l => (String.length l < 99)%nat /\ plain l = true) ls /\
  read_stdin (unlines ls) = Ok ls /\
  sasm (unlines ls) = ([LOAD; 1; 0; 5; JMP; 0; 0; 0], Ok tt).
Proof.
  intros ls.
  assert (H : Forall (fun l => (String.length l < 99)%nat /\ plain l = true) ls).
  { repeat constructor; simpl; lia. }
  split; [exact H|].
  destruct (read_stdin_unlines ls H) as [H1 H2].
  split; [exact H1|]. rewrite H2. vm_compute. reflexivity.
Defined.

Lemma fgets_full (l rest : string) :
  plain l = true ->
  fgets (String.length l) (l ++ rest) = (l, rest).
Proof.
  induction l as [|c l IH]; intros Hp; [reflexivity|].
  simpl in Hp. apply andb_true_iff in Hp. destruct Hp as [Hc Hp].
  unfold in_line in Hc. apply andb_true_iff in Hc. destruct Hc as [_ Hc].
  apply negb_true_iff in Hc.
  cbn [String.length append fgets]. rewrite Hc. now rewrite (IH Hp).
Qed.

Lemma cut_at_newline_plain (l : string) :
  plain l = true -> cut_at_newline l = l.
Proof.
  unfold cut_at_newline. induction l as [|c l IH]; intros Hp; [reflexivity|].
  simpl in Hp. apply andb_true_iff in Hp. destruct Hp as [Hc Hp].
  cbn [span]. rewrite Hc. specialize (IH Hp).
  destruct (span in_line l) as [tok tail]. simpl in *. now rewrite IH.
Qed.

(** X27. A source line of 99 characters or more is not read whole: its
    first 99 characters take one entry of the array [lines], and reading
    goes on after them, in the entries that remain, as if a new line began
    there. *)
Theorem long_line_is_split (room : nat) (l rest : string) :
  plain l = true -> String.length l = 99%nat ->
  read_lines (S room) (l ++ rest)
  = (lines <- read_lines room rest ;; Ok (l :: lines)).
Proof.
  intros Hp Hlen.
  assert (Hne : exists c r, (l ++ rest)%string = String c r).
  { destruct l; [discriminate Hlen | simpl; eauto]. }
  destruct Hne as [c [r Hne]]. rewrite Hne, read_lines_step, <- Hne.
  rewrite <- Hlen. rewrite (fgets_full l rest Hp). cbn [fst snd].
  now rewrite (cut_at_newline_plain l Hp).
Qed.

Lemma long_line_is_split_witness :
  let l := (String.concat "" (repeat "LOAD R1, 1 " 9))%string in
  (plain l = true /\ String.length l = 99%nat) /\
  read_stdin (l ++ "tail") = Ok [l; "tail"%string].
Proof.
  intros l.
  assert (Hp : plain l = true) by (vm_compute; reflexivity).
  assert (Hl : String.length l = 99%nat) by (vm_compute; reflexivity).
  split; [now split|].
  unfold read_stdin. change MAX_LINES with (S 1023).
  rewrite (long_line_is_split 1023 l "tail" Hp Hl). reflexivity.
Defined.

(** ** Output *)

Lemma int16_range (x : Z) :
  -32768 <= int16 x < 32768 /\ (int16 x) mod 65536 = x mod 65536.
Proof.
  unfold int16, uint16.
  pose proof (Z.mod_pos_bound x 65536 ltac:(lia)) as Hb.
  destruct (Z.ltb_spec (x mod 65536) 32768).
  - split; [lia|]. now rewrite Z.mod_mod by lia.
  - split; [lia|].
    replace (x mod 65536 - 65536) with (x mod 65536 + (-1) * 65536) by lia.
    rewrite Z.mod_add by lia. now rewrite Z.mod_mod by lia.
Qed.

(** X28. OUT inside memory appends to the output the decimal item for its
    16-bit immediate read as a signed number, between -32768 and 32767
    and congruent to the immediate modulo 65536, whatever its second
    byte; it changes nothing else but PC. *)
Theorem out_prints_signed (s : machine) (immediate : Z) :
  0 <= PC (cpu s) -> PC (cpu s) + 3 < MEMORY_SIZE ->
  code_byte s 0 = OUT ->
  fetchImmediate (memory s) (PC (cpu s) + 2) = Ok immediate ->
  step s = Ok (Running, print (at_pc s 4) (PrintInt (int16 immediate))) /\
  -32768 <= int16 immediate < 32768 /\
  (int16 immediate) mod 65536 = immediate.
Proof.
  intros H0 H3 Hop Hf. split.
  - rewrite step_at by (apply in_memory_true; lia). rewrite Hop.
    change (execute OUT (PC (cpu s)) (at_pc s 1))
      with ('(imm, s2) <-
              fetch_operand16
                (with_cpu (at_pc s 1)
                   (set_PC (cpu (at_pc s 1))
                      (uint16 (PC (cpu (at_pc s 1)) + 1)))) ;;
            Ok (Running, print s2 (PrintInt (int16 imm)))).
    rewrite skip_byte_at by (unfold MEMORY_SIZE in *; lia).
    rewrite fetch_operand16_cases by lia.
    destruct (PC (cpu s) + (1 + 1) + 1 >=? MEMORY_SIZE) eqn:E.
    { apply Z.geb_le in E. lia. }
    change (PC (cpu s) + (1 + 1)) with (PC (cpu s) + 2). rewrite Hf.
    reflexivity.
  - destruct (int16_range immediate) as [Hr Hm]. split; [exact Hr|].
    rewrite Hm. apply Z.mod_small.
    exact (fetchImmediate_range _ _ _ Hf).
Qed.

Lemma out_prints_signed_witness :
  let s := boot [OUT; 0; 0xFF; 0xFF] in
  (0 <= PC (cpu s) /\ PC (cpu s) + 3 < MEMORY_SIZE /\
   code_byte s 0 = OUT /\
   fetchImmediate (memory s) (PC (cpu s) + 2) = Ok 0xFFFF) /\
  step s = Ok (Running, print (at_pc s 4) (PrintInt (-1))).
Proof.
  intros s.
  assert (H0 : 0 <= PC (cpu s)) by (vm_compute; congruence).
  assert (H3 : PC (cpu s) + 3 < MEMORY_SIZE) by (vm_compute; reflexivity).
  assert (Hop : code_byte s 0 = OUT) by (vm_compute; reflexivity).
  assert (Hf : fetchImmediate (memory s) (PC (cpu s) + 2) = Ok 0xFFFF)
    by (vm_compute; reflexivity).
  split; [now repeat split|].
  exact (proj1 (out_prints_signed s 0xFFFF H0 H3 Hop Hf)).
Defined.

(** ** Direct and indirect addressing *)

Lemma step_store (s : machine) (a : Z) :
  0 <= PC (cpu s) -> PC (cpu s) + 3 < MEMORY_SIZE ->
  code_byte s 0 = STORE ->
  fetchImmediate (memory s) (PC (cpu s) + 2) = Ok a ->
  step s =
  (s' <- store16 (at_pc s 4) a (data_register (cpu s) (code_byte s 1)) ;;
   Ok (Running, s')).
Proof.
  intros H0 H3 Hop Hf.
  rewrite step_at by (apply in_memory_true; lia). rewrite Hop.
  change (execute STORE (PC (cpu s)) (at_pc s 1))
    with ('(reg, s1) <- fetch_byte (at_pc s 1) ;;
          '(imm, s2) <- fetch_operand16 s1 ;;
          let value := if reg =? R1 then REG1 (cpu s2) else REG2 (cpu s2) in
          s3 <- store16 s2 imm value ;;
          Ok (Running, s3)).
  rewrite fetch_byte_cases, in_memory_true by lia. cbn [bind].
  rewrite fetch_operand16_cases by lia.
  destruct (PC (cpu s) + (1 + 1) + 1 >=? MEMORY_SIZE) eqn:E.
  { apply Z.geb_le in E. lia. }
  change (PC (cpu s) + (1 + 1)) with (PC (cpu s) + 2). rewrite Hf.
  reflexivity.
Qed.

Lemma address_register_of (c : CPU) (b : Z) (d : diagnostic) :
  address_register c (Z.land b 0x03) d = Ok (register_of c (Z.land b 0x03)).
Proof.
  unfold address_register, register_of.
  destruct (field_cases b) as [-> | [-> | [-> | ->]]]; reflexivity.
Qed.

Lemma load_register_sets (s : machine) (b v : Z) (otherwise : vm machine) :
  exists s',
    load_register s (Z.land b 0x03) v otherwise = Ok s' /\
    register_of (cpu s') (Z.land b 0x03) = v /\
    PC (cpu s') = PC (cpu s) /\ memory s' = memory s /\ stdout s' = stdout s.
Proof.
  unfold load_register, register_of.
  destruct (field_cases b) as [-> | [-> | [-> | ->]]];
    eexists; (split; [reflexivity|]); repeat split.
Qed.

Lemma step_loadi (s : machine) (v : Z) :
  0 <= PC (cpu s) -> PC (cpu s) + 1 < MEMORY_SIZE ->
  code_byte s 0 = LOADI ->
  fetchImmediate (memory s)
    (register_of (cpu s) (field_high (code_byte s 1))) = Ok v ->
  exists s',
    step s = Ok (Running, s') /\
    register_of (cpu s') (field_low (code_byte s 1)) = v /\
    PC (cpu s') = PC (cpu s) + 2 /\
    memory s' = memory s /\ stdout s' = stdout s.
Proof.
  intros H0 H1 Hop Hf.
  rewrite step_at by (apply in_memory_true; lia). rewrite Hop.
  change (execute LOADI (PC (cpu s)) (at_pc s 1))
    with ('(reg_byte, s1) <- fetch_byte (at_pc s 1) ;;
          let reg2 := Z.land (Z.shiftr reg_byte 6) 0x03 in
          let reg1 := Z.land reg_byte 0x03 in
          address <- address_register (cpu s1) reg2
                       (Invalid_address_register_in_LOADI reg2) ;;
          value <- fetchImmediate (memory s1) address ;;
          s2 <- load_register s1 reg1 value
                  (Exit (Invalid_destination_register_in_LOADI reg1)) ;;
          Ok (Running, s2)).
  rewrite fetch_byte_cases, in_memory_true by lia. cbn [bind]. cbv zeta.
  rewrite address_register_of. cbn [bind].
  change (memory (at_pc s (1 + 1))) with (memory s).
  change (register_of (cpu (at_pc s (1 + 1)))
            (Z.land (Z.shiftr (code_byte s 1) 6) 3))
    with (register_of (cpu s) (field_high (code_byte s 1))).
  rewrite Hf. cbn [bind].
  destruct (load_register_sets (at_pc s (1 + 1)) (code_byte s 1) v
              (Exit (Invalid_destination_register_in_LOADI
                       (Z.land (code_byte s 1) 3))))
    as [s' [Hl [Hr [Hpc [Hm Ho]]]]].
  rewrite Hl. cbn [bind]. exists s'. split; [reflexivity|].
  split; [exact Hr|]. split; [|now split].
  rewrite Hpc. cbn [at_pc cpu PC set_PC]. lia.
Qed.

(** X29. Direct and indirect addressing reach the same storage: a STORE of
    a data register to an address inside memory, followed by a LOADI
    through any register that holds that address, leaves the stored
    value, modulo 65536, in the destination of the LOADI, provided the
    store did not fall on the two bytes of the LOADI itself. *)
Theorem store_then_indirect_load (s : machine) (a : Z) :
  0 <= PC (cpu s) -> PC (cpu s) + 5 < MEMORY_SIZE ->
  code_byte s 0 = STORE ->
  fetchImmediate (memory s) (PC (cpu s) + 2) = Ok a ->
  a + 1 < MEMORY_SIZE ->
  a + 1 < PC (cpu s) + 4 \/ PC (cpu s) + 5 < a ->
  code_byte s 4 = LOADI ->
  register_of (cpu s) (field_high (code_byte s 5)) = a ->
  exists s1 s2,
    step s = Ok (Running, s1) /\
    step s1 = Ok (Running, s2) /\
    register_of (cpu s2) (field_low (code_byte s 5))
    = uint16 (data_register (cpu s) (code_byte s 1)) /\
    PC (cpu s2) = PC (cpu s) + 6.
Proof.
  intros H0 H5 Hop Hf Ha Hd Hop2 Hreg.
  pose proof (fetchImmediate_range _ _ _ Hf) as Hr.
  rewrite (step_store s a H0) by (assumption || lia).
  rewrite store16_inside by (cbn [at_pc memory]; lia). cbn [bind].
  set (value := data_register (cpu s) (code_byte s 1)).
  set (s1 := mkMachine (cpu (at_pc s 4))
               (mem_set (mem_set (memory (at_pc s 4)) a ((value / 256) mod 256))
                  (a + 1) (value mod 256))
               (stdout (at_pc s 4))).
  assert (Hpc : PC (cpu s1) = PC (cpu s) + 4) by reflexivity.
  assert (Hsame : forall k, 4 <= k <= 5 -> code_byte s1 (k - 4) = code_byte s k).
  { intros k Hk. unfold code_byte. rewrite Hpc. subst s1. cbn [memory at_pc].
    unfold mem_set.
    destruct (Z.eqb_spec (PC (cpu s) + 4 + (k - 4)) (a + 1)); [lia|].
    destruct (Z.eqb_spec (PC (cpu s) + 4 + (k - 4)) a); [lia|].
    f_equal. f_equal. lia. }
  assert (Hb0 : code_byte s1 0 = code_byte s 4) by (apply (Hsame 4); lia).
  assert (Hb1 : code_byte s1 1 = code_byte s 5) by (apply (Hsame 5); lia).
  assert (Hread : fetchImmediate (memory s1)
                    (register_of (cpu s1) (field_high (code_byte s1 1)))
                  = Ok (uint16 value)).
  { rewrite Hb1.
    change (register_of (cpu s1) (field_high (code_byte s 5)))
      with (register_of (cpu s) (field_high (code_byte s 5))).
    rewrite Hreg. rewrite fetchImmediate_inside by exact Ha.
    subst s1. cbn [memory]. unfold mem_set.
    rewrite Z.eqb_refl.
    destruct (Z.eqb_spec a (a + 1)); [lia|]. rewrite Z.eqb_refl.
    rewrite lor_bytes by (apply Z.mod_pos_bound; lia).
    rewrite bytes_of_word. unfold uint16. now rewrite Z.mod_mod by lia. }
  destruct (step_loadi s1 (uint16 value)) as [s2 [Hs2 [Hv [Hpc2 _]]]];
    try (rewrite Hpc; lia).
  - now rewrite Hb0.
  - exact Hread.
  - exists s1, s2. split; [reflexivity|]. split; [exact Hs2|].
    split; [now rewrite <- Hb1|].
    rewrite Hpc2, Hpc. lia.
Qed.

Lemma store_then_indirect_load_witness :
  let s := mkMachine (mkCPU 0xBEEF 0 100 0 0 0 0 0)
             (load_program [STORE; R1; 0; 100; LOADI; 0xC0] mem_zero) [] in
  (0 <= PC (cpu s) /\ PC (cpu s) + 5 < MEMORY_SIZE /\
   code_byte s 0 = STORE /\
   fetchImmediate (memory s) (PC (cpu s) + 2) = Ok 100 /\
   100 + 1 < MEMORY_SIZE /\ PC (cpu s) + 5 < 100 /\
   code_byte s 4 = LOADI /\
   register_of (cpu s) (field_high (code_byte s 5)) = 100) /\
  exists s1 s2,
    step s = Ok (Running, s1) /\ step s1 = Ok (Running, s2) /\
    REG2 (cpu s2) = 0xBEEF.
Proof.
  intros s.
  assert (H0 : 0 <= PC (cpu s)) by (vm_compute; congruence).
  assert (H5 : PC (cpu s) + 5 < MEMORY_SIZE) by (vm_compute; reflexivity).
  assert (Hop : code_byte s 0 = STORE) by (vm_compute; reflexivity).
  assert (Hf : fetchImmediate (memory s) (PC (cpu s) + 2) = Ok 100)
    by (vm_compute; reflexivity).
  assert (Ha : 100 + 1 < MEMORY_SIZE) by (vm_compute; reflexivity).
  assert (Hd : PC (cpu s) + 5 < 100) by (vm_compute; reflexivity).
  assert (Hop2 : code_byte s 4 = LOADI) by (vm_compute; reflexivity).
  assert (Hreg : register_of (cpu s) (field_high (code_byte s 5)) = 100)
    by (vm_compute; reflexivity).
  split; [now repeat split|].
  destruct (store_then_indirect_load s 100 H0 H5 Hop Hf Ha (or_intror Hd)
              Hop2 Hreg) as [s1 [s2 [Hs1 [Hs2 [Hv _]]]]].
  exists s1, s2. split; [exact Hs1|]. split; [exact Hs2|]. exact Hv.
Defined.
